(** * cookRAG / graphRAG: the recipe knowledge graph, its index layer,
      the query engine and the recommendation engine.

    Shallow embedding of [graph_models.py], [graph_storage.py] and
    [recommendation_engine.py].

    Modelling conventions.
    - A Python [dict] is an association list in insertion order with
      pairwise distinct keys: [Dict.set] overwrites in place or appends,
      exactly like [d[k] = v]; iteration ([.items()], [.values()])
      follows the list.
    - A Python [set] is a duplicate-free list; the iteration order of a
      real Python set is unspecified, the model iterates in insertion
      order.
    - [str] is [string]; [lower] and [split] are the ASCII versions of
      [str.lower] and [str.split].
    - A Python [float] is a rational number [Q].  The natural logarithm
      used by the pairing score is a parameter.
    - [int] is [Z]; slices [l[:k]] follow Python, also for negative [k].
    - [reason] and [metadata] of a recommendation are display data that
      no control flow reads; the record keeps [item] and [score]. *)

From Stdlib Require Import List String Ascii Bool Arith ZArith QArith Lia.
From Stdlib Require Import Sorting.Sorted Permutation.
Import ListNotations.

Local Open Scope string_scope.
Local Open Scope list_scope.
Local Open Scope nat_scope.

(* ------------------------------------------------------------------ *)
(** ** Hashable keys and insertion-ordered dictionaries                *)
(* ------------------------------------------------------------------ *)

(** Equality test of a dictionary key ([__eq__] of a hashable value). *)
Class EqKey (K : Type) := keqb : K -> K -> bool.

#[export] Instance string_EqKey : EqKey string := String.eqb.

(** The test decides equality. *)
Class EqKeyOk (K : Type) `{EqKey K} :=
  keqb_eq : forall a b : K, keqb a b = true <-> a = b.

Module Dict.
Section Defs.
Context {K V : Type} `{EqKey K}.

(** [d.get(k)] *)
Fixpoint get (k : K) (d : list (K * V)) : option V :=
  match d with
  | [] => None
  | (k', v) :: d' => if keqb k k' then Some v else get k d'
  end.

(** [k in d] *)
Definition mem (k : K) (d : list (K * V)) : bool :=
  match get k d with Some _ => true | None => false end.

(** [d[k] = v]: an existing key keeps its position. *)
Fixpoint set (k : K) (v : V) (d : list (K * V)) : list (K * V) :=
  match d with
  | [] => [(k, v)]
  | (k', v') :: d' =>
      if keqb k k' then (k', v) :: d' else (k', v') :: set k v d'
  end.

Definition keys (d : list (K * V)) : list K := map fst d.
Definition values (d : list (K * V)) : list V := map snd d.
End Defs.
End Dict.

Abbreviation dict K V := (list (K * V)) (only parsing).

(** Python sets as duplicate-free lists. *)
Section PySet.
Context {K : Type} `{EqKey K}.

Definition set_mem (x : K) (s : list K) : bool := existsb (keqb x) s.

(** [s.add(x)] *)
Definition set_add (x : K) (s : list K) : list K :=
  if set_mem x s then s else s ++ [x].

(** [s.update(xs)] *)
Definition set_update (s xs : list K) : list K :=
  fold_left (fun acc x => set_add x acc) xs s.

(** [s & t] *)
Definition set_inter (s t : list K) : list K :=
  filter (fun x => set_mem x t) s.

(** [s | t] *)
Definition set_union (s t : list K) : list K := set_update s t.

(** [set(xs)] *)
Definition set_of_list (xs : list K) : list K := set_update [] xs.
End PySet.

(** [l[:k]] *)
Definition py_take {A : Type} (k : Z) (l : list A) : list A :=
  if (k <? 0)%Z
  then firstn (List.length l - Z.to_nat (- k)) l
  else firstn (Z.to_nat k) l.

Definition opt_to_list {A : Type} (o : option A) : list A :=
  match o with Some a => [a] | None => [] end.

(** [l.sort(key=..., reverse=True)]: stable, descending.  [gtb y x]
    says that the key of [y] is strictly greater than the key of [x]. *)
Section Sort.
Context {A : Type} (gtb : A -> A -> bool).

Fixpoint insert_desc (x : A) (l : list A) : list A :=
  match l with
  | [] => [x]
  | y :: l' => if gtb y x then y :: insert_desc x l' else x :: l
  end.

Fixpoint sort_desc (l : list A) : list A :=
  match l with
  | [] => []
  | x :: l' => insert_desc x (sort_desc l')
  end.
End Sort.

(* ------------------------------------------------------------------ *)
(** ** graph_models.py                                                 *)
(* ------------------------------------------------------------------ *)

Inductive NodeType :=
  DISH | INGREDIENT | COOKING_METHOD | CATEGORY | TOOL | SEASONING.

Inductive EdgeType :=
  CONTAINS | USES_METHOD | BELONGS_TO | PAIRS_WITH | SIMILAR_TO
| REQUIRES_TOOL | USES_SEASONING.

Definition NodeType_eqb (a b : NodeType) : bool :=
  match a, b with
  | DISH, DISH | INGREDIENT, INGREDIENT | COOKING_METHOD, COOKING_METHOD
  | CATEGORY, CATEGORY | TOOL, TOOL | SEASONING, SEASONING => true
  | _, _ => false
  end.

Definition EdgeType_eqb (a b : EdgeType) : bool :=
  match a, b with
  | CONTAINS, CONTAINS | USES_METHOD, USES_METHOD | BELONGS_TO, BELONGS_TO
  | PAIRS_WITH, PAIRS_WITH | SIMILAR_TO, SIMILAR_TO
  | REQUIRES_TOOL, REQUIRES_TOOL | USES_SEASONING, USES_SEASONING => true
  | _, _ => false
  end.

#[export] Instance NodeType_EqKey : EqKey NodeType := NodeType_eqb.

(** [NodeType.X.value] and [NodeType(value)]. *)
Definition NodeType_value (t : NodeType) : string :=
  match t with
  | DISH => "dish" | INGREDIENT => "ingredient"
  | COOKING_METHOD => "cooking_method" | CATEGORY => "category"
  | TOOL => "tool" | SEASONING => "seasoning"
  end.

Definition NodeType_of_value (s : string) : option NodeType :=
  find (fun t => String.eqb (NodeType_value t) s)
       [DISH; INGREDIENT; COOKING_METHOD; CATEGORY; TOOL; SEASONING].

Definition EdgeType_value (t : EdgeType) : string :=
  match t with
  | CONTAINS => "contains" | USES_METHOD => "uses_method"
  | BELONGS_TO => "belongs_to" | PAIRS_WITH => "pairs_with"
  | SIMILAR_TO => "similar_to" | REQUIRES_TOOL => "requires_tool"
  | USES_SEASONING => "uses_seasoning"
  end.

Definition EdgeType_of_value (s : string) : option EdgeType :=
  find (fun t => String.eqb (EdgeType_value t) s)
       [CONTAINS; USES_METHOD; BELONGS_TO; PAIRS_WITH; SIMILAR_TO;
        REQUIRES_TOOL; USES_SEASONING].

(** Property values: what [json] can carry. *)
#[local] Set Warnings "-register-all".
Inductive json :=
| JNull
| JBool (b : bool)
| JNum (q : Q)
| JStr (s : string)
| JList (l : list json)
| JObj (o : list (string * json)).
#[local] Set Warnings "register-all".

Definition properties_t := list (string * json).

Record GraphNode := mkNode {
  node_id : string;          (* [id] *)
  node_type : NodeType;
  name : string;
  properties : properties_t
}.

Record GraphEdge := mkEdge {
  source_id : string;
  target_id : string;
  edge_type : EdgeType;
  weight : Q;
  edge_properties : properties_t   (* [properties] *)
}.

(** [GraphEdge.__eq__]: weight and properties are not compared. *)
Definition GraphEdge_eqb (e1 e2 : GraphEdge) : bool :=
  String.eqb (source_id e1) (source_id e2)
  && String.eqb (target_id e1) (target_id e2)
  && EdgeType_eqb (edge_type e1) (edge_type e2).

Record RecipeGraph := mkGraph {
  nodes : dict string GraphNode;
  edges : list GraphEdge;
  adjacency_list : dict string (dict string (list GraphEdge))
}.

(** [RecipeGraph()] *)
Definition empty_graph : RecipeGraph := mkGraph [] [] [].

(** [d.setdefault(k, v)] written as [if k not in d: d[k] = v]. *)
Definition ensure_key {V : Type} (k : string) (v : V)
  (d : dict string V) : dict string V :=
  if Dict.mem k d then d else Dict.set k v d.

Definition add_node (node : GraphNode) (g : RecipeGraph) : RecipeGraph :=
  mkGraph (Dict.set (node_id node) node (nodes g))
          (edges g)
          (ensure_key (node_id node) [] (adjacency_list g)).

(** [edge in self.edges] *)
Definition edge_in (edge : GraphEdge) (l : list GraphEdge) : bool :=
  existsb (fun x => GraphEdge_eqb x edge) l.

Definition add_edge (edge : GraphEdge) (g : RecipeGraph) : RecipeGraph :=
  if edge_in edge (edges g) then g
  else
    let adj1 := ensure_key (source_id edge) [] (adjacency_list g) in
    let inner := match Dict.get (source_id edge) adj1 with
                 | Some d => d | None => [] end in
    let inner1 := ensure_key (target_id edge) [] inner in
    let es := match Dict.get (target_id edge) inner1 with
              | Some l => l | None => [] end in
    let inner2 := Dict.set (target_id edge) (es ++ [edge]) inner1 in
    mkGraph (nodes g)
            (edges g ++ [edge])
            (Dict.set (source_id edge) inner2 adj1).

Definition get_node (id : string) (g : RecipeGraph) : option GraphNode :=
  Dict.get id (nodes g).

(** [edge_type is None or any(edge.edge_type == edge_type for edge in edges)] *)
Definition type_matches (et : option EdgeType) (es : list GraphEdge) : bool :=
  match et with
  | None => true
  | Some t => existsb (fun e => EdgeType_eqb (edge_type e) t) es
  end.

(** First loop of [get_neighbors]: the targets of outgoing edges. *)
Definition outgoing_neighbors (id : string) (et : option EdgeType)
  (g : RecipeGraph) : list GraphNode :=
  match Dict.get id (adjacency_list g) with
  | None => []
  | Some targets =>
      flat_map (fun '(target, es) =>
                  if type_matches et es
                  then opt_to_list (get_node target g) else [])
               targets
  end.

(** Second loop of [get_neighbors]: the sources of incoming edges. *)
Definition incoming_neighbors (id : string) (et : option EdgeType)
  (g : RecipeGraph) : list GraphNode :=
  flat_map (fun '(source, target_dict) =>
              match Dict.get id target_dict with
              | None => []
              | Some es =>
                  if type_matches et es
                  then opt_to_list (get_node source g) else []
              end)
           (adjacency_list g).

Definition get_neighbors (id : string) (et : option EdgeType)
  (g : RecipeGraph) : list GraphNode :=
  outgoing_neighbors id et g ++ incoming_neighbors id et g.

Definition get_edges (source : string) (target : option string)
  (et : option EdgeType) (g : RecipeGraph) : list GraphEdge :=
  match Dict.get source (adjacency_list g) with
  | None => []
  | Some targets =>
      flat_map (fun '(t_id, edge_list) =>
                  if match target with
                     | None => true
                     | Some t => String.eqb t_id t
                     end
                  then filter (fun e => match et with
                                        | None => true
                                        | Some t => EdgeType_eqb (edge_type e) t
                                        end) edge_list
                  else [])
               targets
  end.

Definition find_nodes_by_type (t : NodeType) (g : RecipeGraph) : list GraphNode :=
  filter (fun n => NodeType_eqb (node_type n) t) (Dict.values (nodes g)).

(** The structured export written by [save_to_file].  Optional keys are
    the ones [load_from_file] reads with [.get(key, default)]. *)
Record node_data := mkNodeData {
  nd_id : string;
  nd_type : string;
  nd_name : string;
  nd_properties : option properties_t
}.

Record edge_data := mkEdgeData {
  ed_source : string;
  ed_target : string;
  ed_type : string;
  ed_weight : option Q;
  ed_properties : option properties_t
}.

Record graph_data := mkGraphData {
  gd_nodes : list node_data;
  gd_edges : list edge_data
}.

Definition to_dict (g : RecipeGraph) : graph_data :=
  mkGraphData
    (map (fun node => mkNodeData (node_id node)
                                 (NodeType_value (node_type node))
                                 (name node)
                                 (Some (properties node)))
         (Dict.values (nodes g)))
    (map (fun edge => mkEdgeData (source_id edge) (target_id edge)
                                 (EdgeType_value (edge_type edge))
                                 (Some (weight edge))
                                 (Some (edge_properties edge)))
         (edges g)).

Definition default {A : Type} (o : option A) (d : A) : A :=
  match o with Some a => a | None => d end.

(** The two loops of [load_from_file]; [None] is the [ValueError] of an
    unknown enumeration value. *)
Fixpoint load_nodes (l : list node_data) (g : RecipeGraph) : option RecipeGraph :=
  match l with
  | [] => Some g
  | nd :: l' =>
      match NodeType_of_value (nd_type nd) with
      | None => None
      | Some t =>
          load_nodes l'
            (add_node (mkNode (nd_id nd) t (nd_name nd)
                              (default (nd_properties nd) [])) g)
      end
  end.

Fixpoint load_edges (l : list edge_data) (g : RecipeGraph) : option RecipeGraph :=
  match l with
  | [] => Some g
  | ed :: l' =>
      match EdgeType_of_value (ed_type ed) with
      | None => None
      | Some t =>
          load_edges l'
            (add_edge (mkEdge (ed_source ed) (ed_target ed) t
                              (default (ed_weight ed) 1%Q)
                              (default (ed_properties ed) [])) g)
      end
  end.

Definition load_from_file (data : graph_data) : option RecipeGraph :=
  match load_nodes (gd_nodes data) empty_graph with
  | None => None
  | Some g => load_edges (gd_edges data) g
  end.

(** Graphs are built by calls of [add_node] and [add_edge]. *)
Inductive graph_op :=
| AddNode (n : GraphNode)
| AddEdge (e : GraphEdge).

Definition apply_op (g : RecipeGraph) (o : graph_op) : RecipeGraph :=
  match o with
  | AddNode n => add_node n g
  | AddEdge e => add_edge e g
  end.

Definition build (ops : list graph_op) : RecipeGraph :=
  fold_left apply_op ops empty_graph.

(* ------------------------------------------------------------------ *)
(** ** Strings                                                         *)
(* ------------------------------------------------------------------ *)

#[export] Instance ascii_EqKey : EqKey ascii := Ascii.eqb.

Definition lower_ascii (c : ascii) : ascii :=
  let n := nat_of_ascii c in
  if (65 <=? n) && (n <=? 90) then ascii_of_nat (n + 32) else c.

(** [s.lower()] *)
Fixpoint lower (s : string) : string :=
  match s with
  | EmptyString => EmptyString
  | String c s' => String (lower_ascii c) (lower s')
  end.

(** [c.isspace()] on the ASCII range. *)
Definition is_space (c : ascii) : bool :=
  let n := nat_of_ascii c in
  ((9 <=? n) && (n <=? 13)) || ((28 <=? n) && (n <=? 32)).

(** [s.split()]: maximal runs of non-blank characters. *)
Fixpoint split_from (cur : string) (s : string) : list string :=
  match s with
  | EmptyString => match cur with EmptyString => [] | _ => [cur] end
  | String c s' =>
      if is_space c
      then match cur with
           | EmptyString => split_from EmptyString s'
           | _ => cur :: split_from EmptyString s'
           end
      else split_from (cur ++ String c EmptyString) s'
  end.

Definition split (s : string) : list string := split_from EmptyString s.

(** [sub in s] *)
Fixpoint str_in (sub s : string) : bool :=
  prefix sub s
  || match s with
     | EmptyString => false
     | String _ s' => str_in sub s'
     end.

(** [set(s)] *)
Definition char_set (s : string) : list ascii :=
  set_of_list (list_ascii_of_string s).

Definition Qgtb (a b : Q) : bool := negb (Qle_bool a b).

Definition ratio (a b : nat) : Q :=
  (inject_Z (Z.of_nat a) / inject_Z (Z.of_nat b))%Q.

(* ------------------------------------------------------------------ *)
(** ** graph_storage.py: GraphStorage                                  *)
(* ------------------------------------------------------------------ *)

Record GraphStorage := mkStorage {
  _name_index : dict string (list string);
  _type_index : dict NodeType (list string);
  _reverse_adjacency : dict string (dict string (list GraphEdge))
}.

(** [GraphStorage()] *)
Definition empty_storage : GraphStorage := mkStorage [] [] [].

(** [index[k].add(x)] on a [defaultdict(set)]. *)
Definition index_add {K : Type} `{EqKey K} (k : K) (x : string)
  (index : dict K (list string)) : dict K (list string) :=
  Dict.set k (set_add x (default (Dict.get k index) [])) index.

(** [counts[k] += 1] on a [defaultdict(int)]. *)
Definition incr (k : string) (counts : dict string Z) : dict string Z :=
  Dict.set k (default (Dict.get k counts) 0 + 1)%Z counts.

Definition index_node_name (index : dict string (list string))
  (node : GraphNode) : dict string (list string) :=
  fold_left
    (fun idx word =>
       if 1 <? String.length word
       then index_add word (node_id node) idx else idx)
    (split (name node))
    (index_add (name node) (node_id node) index).

Definition reverse_add (rev : dict string (dict string (list GraphEdge)))
  (edge : GraphEdge) : dict string (dict string (list GraphEdge)) :=
  let sources := default (Dict.get (target_id edge) rev) [] in
  let es := default (Dict.get (source_id edge) sources) [] in
  Dict.set (target_id edge)
           (Dict.set (source_id edge) (es ++ [edge]) sources) rev.

(** The indexes are cleared and rebuilt from the graph. *)
Definition _build_indexes (graph : RecipeGraph) : GraphStorage :=
  mkStorage
    (fold_left index_node_name (Dict.values (nodes graph)) [])
    (fold_left (fun idx node => index_add (node_type node) (node_id node) idx)
               (Dict.values (nodes graph)) [])
    (fold_left reverse_add (edges graph) []).

(* ------------------------------------------------------------------ *)
(** ** graph_storage.py: GraphQueryEngine                              *)
(* ------------------------------------------------------------------ *)

Record GraphQueryEngine := mkEngine {
  graph : RecipeGraph;
  storage : GraphStorage
}.

Definition _calculate_name_similarity (query nm : string) : Q :=
  let query_lower := lower query in
  let name_lower := lower nm in
  if String.eqb query_lower name_lower then 1%Q
  else if str_in query_lower name_lower then (4 # 5)%Q
  else
    let query_chars := char_set query_lower in
    let name_chars := char_set name_lower in
    let intersection := List.length (set_inter query_chars name_chars) in
    let union := List.length (set_union query_chars name_chars) in
    if 0 <? union then ratio intersection union else 0%Q.

(** The candidate ids of [search_nodes], after the type filter.  Reading
    [_type_index[node_type]] on the [defaultdict] yields the empty set
    for a type without entry. *)
Definition search_candidates (st : GraphStorage) (query : string)
  (nt : option NodeType) : list string :=
  let query_lower := lower query in
  let candidates :=
    fold_left (fun cand '(nm, node_ids) =>
                 if str_in query_lower (lower nm)
                 then set_update cand node_ids else cand)
              (_name_index st) [] in
  match nt with
  | Some t => set_inter candidates (default (Dict.get t (_type_index st)) [])
  | None => candidates
  end.

(** The nodes of the candidates, before ranking. *)
Definition candidate_nodes (g : RecipeGraph) (cands : list string)
  : list GraphNode :=
  flat_map (fun id => opt_to_list (get_node id g)) cands.

Definition search_nodes (E : GraphQueryEngine) (query : string)
  (nt : option NodeType) (limit : Z) : list GraphNode :=
  let nodes := candidate_nodes (graph E) (search_candidates (storage E) query nt) in
  let sorted :=
    sort_desc (fun a b => Qgtb (_calculate_name_similarity query (name a))
                               (_calculate_name_similarity query (name b)))
              nodes in
  py_take limit sorted.

Definition is_nil {A : Type} (l : list A) : bool :=
  match l with [] => true | _ => false end.

(** Descending stable sort of (item, count) pairs on the count. *)
Definition sort_by_count {A : Type} (l : list (A * Z)) : list (A * Z) :=
  sort_desc (fun a b => (snd b <? snd a)%Z) l.

(** Descending stable sort of (item, score) pairs on the score. *)
Definition sort_by_score {A : Type} (l : list (A * Q)) : list (A * Q) :=
  sort_desc (fun a b => Qgtb (snd a) (snd b)) l.

(** [(node, count)] for the counted ids that are nodes of the graph. *)
Definition counted_nodes (g : RecipeGraph) (counts : dict string Z)
  (keep : Z -> bool) : list (GraphNode * Z) :=
  flat_map (fun '(id, count) =>
              if keep count
              then match get_node id g with
                   | Some n => [(n, count)]
                   | None => []
                   end
              else [])
           counts.

Definition find_ingredient_pairs (E : GraphQueryEngine)
  (ingredient_name : string) (min_cooccurrence : Z) : list (GraphNode * Z) :=
  let ingredient_nodes := search_nodes E ingredient_name (Some INGREDIENT) 10 in
  if is_nil ingredient_nodes then []
  else
    let pair_counts :=
      fold_left
        (fun counts ingredient =>
           fold_left
             (fun counts dish =>
                fold_left
                  (fun counts other =>
                     if String.eqb (node_id other) (node_id ingredient)
                     then counts else incr (node_id other) counts)
                  (get_neighbors (node_id dish) (Some CONTAINS) (graph E))
                  counts)
             (get_neighbors (node_id ingredient) (Some CONTAINS) (graph E))
             counts)
        ingredient_nodes [] in
    sort_by_count
      (counted_nodes (graph E) pair_counts
                     (fun count => (min_cooccurrence <=? count)%Z)).

Definition find_dishes_by_ingredients (E : GraphQueryEngine)
  (ingredient_names : list string) (require_all : bool)
  : list (GraphNode * Z) :=
  let ingredient_nodes :=
    flat_map (fun nm => search_nodes E nm (Some INGREDIENT) 10)
             ingredient_names in
  if is_nil ingredient_nodes then []
  else
    let dish_scores :=
      fold_left
        (fun scores ingredient =>
           fold_left (fun scores dish => incr (node_id dish) scores)
                     (get_neighbors (node_id ingredient) (Some CONTAINS) (graph E))
                     scores)
        ingredient_nodes [] in
    sort_by_count
      (counted_nodes (graph E) dish_scores
         (fun score =>
            negb (require_all
                  && (score <? Z.of_nat (List.length ingredient_names))%Z))).

Definition find_similar_dishes (E : GraphQueryEngine) (dish_name : string)
  (limit : Z) : list (GraphNode * Q) :=
  let dish_nodes := search_nodes E dish_name (Some DISH) 10 in
  if is_nil dish_nodes then []
  else
    let similar_dishes :=
      flat_map
        (fun dish =>
           flat_map
             (fun edge =>
                match get_node (target_id edge) (graph E) with
                | Some similar_dish => [(similar_dish, weight edge)]
                | None => []
                end)
             (get_edges (node_id dish) None (Some SIMILAR_TO) (graph E)))
        dish_nodes in
    py_take limit (sort_by_score similar_dishes).

(** Two-hop counts shared by [find_cooking_methods_for_ingredient] and
    [find_ingredients_by_cooking_method]. *)
Definition two_hop_counts (g : RecipeGraph) (starts : list GraphNode)
  (first second : EdgeType) : dict string Z :=
  fold_left
    (fun counts start =>
       fold_left
         (fun counts dish =>
            fold_left (fun counts x => incr (node_id x) counts)
                      (get_neighbors (node_id dish) (Some second) g)
                      counts)
         (get_neighbors (node_id start) (Some first) g)
         counts)
    starts [].

Definition find_cooking_methods_for_ingredient (E : GraphQueryEngine)
  (ingredient_name : string) : list (GraphNode * Z) :=
  let ingredient_nodes := search_nodes E ingredient_name (Some INGREDIENT) 10 in
  if is_nil ingredient_nodes then []
  else
    sort_by_count
      (counted_nodes (graph E)
         (two_hop_counts (graph E) ingredient_nodes CONTAINS USES_METHOD)
         (fun _ => true)).

Definition find_ingredients_by_cooking_method (E : GraphQueryEngine)
  (method_name : string) : list (GraphNode * Z) :=
  let method_nodes := search_nodes E method_name (Some COOKING_METHOD) 10 in
  if is_nil method_nodes then []
  else
    sort_by_count
      (counted_nodes (graph E)
         (two_hop_counts (graph E) method_nodes USES_METHOD CONTAINS)
         (fun _ => true)).

Definition _calculate_substitution_score (E : GraphQueryEngine)
  (original substitute : GraphNode) : Q :=
  let original_pairs :=
    set_of_list (map node_id
      (get_neighbors (node_id original) (Some PAIRS_WITH) (graph E))) in
  let substitute_pairs :=
    set_of_list (map node_id
      (get_neighbors (node_id substitute) (Some PAIRS_WITH) (graph E))) in
  if is_nil original_pairs || is_nil substitute_pairs then 0%Q
  else
    let intersection := List.length (set_inter original_pairs substitute_pairs) in
    let union := List.length (set_union original_pairs substitute_pairs) in
    if 0 <? union then ratio intersection union else 0%Q.

Definition get_ingredient_substitution_suggestions (E : GraphQueryEngine)
  (ingredient_name : string) : list (GraphNode * Q) :=
  let ingredient_nodes := search_nodes E ingredient_name (Some INGREDIENT) 10 in
  if is_nil ingredient_nodes then []
  else
    let suggestions :=
      flat_map
        (fun ingredient =>
           flat_map
             (fun pair_ingredient =>
                let substitution_score :=
                  _calculate_substitution_score E ingredient pair_ingredient in
                if Qgtb substitution_score (1 # 10)%Q
                then [(pair_ingredient, substitution_score)] else [])
             (get_neighbors (node_id ingredient) (Some PAIRS_WITH) (graph E)))
        ingredient_nodes in
    py_take 10 (sort_by_score suggestions).

(** *** Breadth-first search *)

(** Outcome of the [for neighbor in neighbors] loop: either the [return]
    inside the loop was taken, or the loop ran to its end. *)
Inductive scan_result :=
| Found (path : list GraphNode)
| Continue (visited : list string) (queue : list (GraphNode * list GraphNode)).

Fixpoint scan_neighbors (end_id : string) (path : list GraphNode)
  (neighbors : list GraphNode) (visited : list string)
  (queue : list (GraphNode * list GraphNode)) : scan_result :=
  match neighbors with
  | [] => Continue visited queue
  | neighbor :: rest =>
      if String.eqb (node_id neighbor) end_id
      then Found (path ++ [neighbor])
      else if set_mem (node_id neighbor) visited
      then scan_neighbors end_id path rest visited queue
      else scan_neighbors end_id path rest
             (set_add (node_id neighbor) visited)
             (queue ++ [(neighbor, path ++ [neighbor])])
  end.

(** The [while queue] loop.  The outer [None] is "out of fuel"; the inner
    option is the value returned by the function. *)
Fixpoint bfs_loop (fuel : nat) (g : RecipeGraph) (end_id : string)
  (max_depth : Z) (queue : list (GraphNode * list GraphNode))
  (visited : list string) : option (option (list GraphNode)) :=
  match fuel with
  | O => None
  | S fuel' =>
      match queue with
      | [] => Some None
      | (current, path) :: queue' =>
          if (max_depth <? Z.of_nat (List.length path))%Z
          then bfs_loop fuel' g end_id max_depth queue' visited
          else
            match scan_neighbors end_id path
                    (get_neighbors (node_id current) None g) visited queue' with
            | Found p => Some (Some p)
            | Continue visited' queue'' =>
                bfs_loop fuel' g end_id max_depth queue'' visited'
            end
      end
  end.

(** Every node is enqueued at most once, so the loop body runs at most
    once per node of the graph and once for the start node. *)
Definition bfs_fuel (g : RecipeGraph) : nat := List.length (nodes g) + 2.

Definition _find_shortest_path (g : RecipeGraph) (start end_node : GraphNode)
  (max_depth : Z) : option (list GraphNode) :=
  if String.eqb (node_id start) (node_id end_node) then Some [start]
  else
    match bfs_loop (bfs_fuel g) g (node_id end_node) max_depth
                   [(start, [start])] [node_id start] with
    | Some r => r
    | None => None
    end.

(** [if path: paths.append(path)] *)
Definition append_if_path (o : option (list GraphNode)) : list (list GraphNode) :=
  match o with
  | Some (x :: p) => [x :: p]
  | _ => []
  end.

Definition find_path_between_ingredients (E : GraphQueryEngine)
  (ingredient1 ingredient2 : string) (max_depth : Z)
  : list (list GraphNode) :=
  let nodes1 := search_nodes E ingredient1 (Some INGREDIENT) 10 in
  let nodes2 := search_nodes E ingredient2 (Some INGREDIENT) 10 in
  if is_nil nodes1 || is_nil nodes2 then []
  else
    flat_map
      (fun start_node =>
         flat_map
           (fun end_node =>
              append_if_path
                (_find_shortest_path (graph E) start_node end_node max_depth))
           nodes2)
      nodes1.

(* ------------------------------------------------------------------ *)
(** ** recommendation_engine.py                                        *)
(* ------------------------------------------------------------------ *)

Record Recommendation := mkRec {
  item : GraphNode;
  score : Q
}.

(** [GraphNode.__eq__]: nodes are compared by id. *)
#[export] Instance GraphNode_EqKey : EqKey GraphNode :=
  fun a b => String.eqb (node_id a) (node_id b).

(** [recommendations.sort(key=lambda x: x.score, reverse=True)] *)
Definition sort_recommendations (l : list Recommendation) : list Recommendation :=
  sort_desc (fun a b => Qgtb (score a) (score b)) l.

(** The deduplication loop shared by [recommend_ingredients_by_dish] and
    [_merge_recommendations]. *)
Definition keep_best (unique : dict string Recommendation)
  (rec : Recommendation) : dict string Recommendation :=
  match Dict.get (name (item rec)) unique with
  | None => Dict.set (name (item rec)) rec unique
  | Some old =>
      if Qgtb (score rec) (score old)
      then Dict.set (name (item rec)) rec unique
      else unique
  end.

Definition unique_recommendations (recs : list Recommendation)
  : dict string Recommendation :=
  fold_left keep_best recs [].

Definition _merge_recommendations (recommendations : list Recommendation)
  (max_recommendations : Z) : list Recommendation :=
  let final_recommendations :=
    Dict.values (unique_recommendations recommendations) in
  py_take max_recommendations (sort_recommendations final_recommendations).

Definition _calculate_ingredient_based_score (g : RecipeGraph)
  (dish : GraphNode) (match_count : Z) : Q :=
  let total_ingredients :=
    List.length (get_neighbors (node_id dish) (Some CONTAINS) g) in
  if total_ingredients =? 0 then 0%Q
  else
    let base_score :=
      (inject_Z match_count / inject_Z (Z.of_nat total_ingredients))%Q in
    let complexity_factor :=
      if (3 <=? total_ingredients) && (total_ingredients <=? 8) then (6 # 5)%Q
      else if 10 <? total_ingredients then (4 # 5)%Q
      else 1%Q in
    (base_score * complexity_factor)%Q.

Definition _calculate_similarity_score (similarity : Q) : Q := similarity.

Definition _calculate_substitution_score_rec (substitution_score : Q) : Q :=
  substitution_score.

Definition _calculate_method_based_score (common_ingredient_count : nat)
  (total_ingredients : nat) : Q :=
  if total_ingredients =? 0 then 0%Q
  else ratio common_ingredient_count total_ingredients.

Definition _calculate_category_based_score (g : RecipeGraph)
  (dish : GraphNode) : Q :=
  let ingredients := get_neighbors (node_id dish) (Some CONTAINS) g in
  let methods := get_neighbors (node_id dish) (Some USES_METHOD) g in
  let complexity := List.length ingredients + List.length methods in
  if (4 <=? complexity) && (complexity <=? 10) then 1%Q
  else if complexity <? 4 then (4 # 5)%Q
  else (3 # 5)%Q.

Definition recommend_dishes_by_ingredients (E : GraphQueryEngine)
  (available_ingredients : list string) (max_recommendations : Z)
  : list Recommendation :=
  let dish_candidates :=
    find_dishes_by_ingredients E available_ingredients false in
  let recommendations :=
    map (fun '(dish, match_count) =>
           mkRec dish
                 (_calculate_ingredient_based_score (graph E) dish match_count))
        dish_candidates in
  py_take max_recommendations (sort_recommendations recommendations).

Section PairingScore.
(** [math.log] on the integers it is applied to. *)
Variable math_log : Z -> Q.

Definition _calculate_pairing_score (cooccurrence_count : Z)
  (total_ingredients : nat) : Q :=
  let log_score := math_log (cooccurrence_count + 1) in
  let scaled := (log_score / 5)%Q in
  (* [min(scaled, 1.0)] *)
  if Qgtb scaled 1%Q then 1%Q else scaled.

(** The list [recommendations] of [recommend_ingredients_by_dish]
    before it is deduplicated. *)
Definition pair_recommendations (E : GraphQueryEngine)
  (dish_nodes : list GraphNode) : list Recommendation :=
  flat_map
    (fun dish =>
       let dish_ingredients :=
         get_neighbors (node_id dish) (Some CONTAINS) (graph E) in
       let ingredient_names := map name dish_ingredients in
       flat_map
         (fun ingredient =>
            flat_map
              (fun '(pair_ingredient, cooccurrence_count) =>
                 if existsb (String.eqb (name pair_ingredient))
                            ingredient_names
                 then []
                 else [mkRec pair_ingredient
                         (_calculate_pairing_score cooccurrence_count
                            (List.length dish_ingredients))])
              (find_ingredient_pairs E (name ingredient) 2))
         dish_ingredients)
    dish_nodes.

Definition recommend_ingredients_by_dish (E : GraphQueryEngine)
  (dish_name : string) (max_recommendations : Z) : list Recommendation :=
  let dish_nodes := search_nodes E dish_name (Some DISH) 10 in
  if is_nil dish_nodes then []
  else
    let recommendations := pair_recommendations E dish_nodes in
    let final_recommendations :=
      Dict.values (unique_recommendations recommendations) in
    py_take max_recommendations (sort_recommendations final_recommendations).
End PairingScore.

Definition recommend_similar_dishes (E : GraphQueryEngine)
  (dish_name : string) (max_recommendations : Z) : list Recommendation :=
  let similar_dishes := find_similar_dishes E dish_name 5 in
  let recommendations :=
    map (fun '(dish, similarity_score) =>
           mkRec dish (_calculate_similarity_score similarity_score))
        similar_dishes in
  py_take max_recommendations recommendations.

Definition recommend_by_cooking_method (E : GraphQueryEngine)
  (cooking_method : string) (max_recommendations : Z) : list Recommendation :=
  let ingredients_for_method :=
    find_ingredients_by_cooking_method E cooking_method in
  let ingredient_frequency : dict string Z :=
    fold_left (fun freq '(ingredient, count) =>
                 Dict.set (name ingredient) count freq)
              ingredients_for_method [] in
  let all_dishes : list GraphNode :=
    fold_left (fun dishes '(ingredient, _) =>
                 set_update dishes
                   (get_neighbors (node_id ingredient) (Some CONTAINS) (graph E)))
              ingredients_for_method [] in
  let recommendations :=
    flat_map
      (fun dish =>
         let dish_ingredients :=
           get_neighbors (node_id dish) (Some CONTAINS) (graph E) in
         let common_ingredient_count :=
           List.length
             (filter (fun ingredient =>
                        Dict.mem (name ingredient) ingredient_frequency)
                     dish_ingredients) in
         if 0 <? common_ingredient_count
         then [mkRec dish
                 (_calculate_method_based_score common_ingredient_count
                    (List.length dish_ingredients))]
         else [])
      all_dishes in
  py_take max_recommendations (sort_recommendations recommendations).

Definition recommend_by_category (E : GraphQueryEngine) (category : string)
  (max_recommendations : Z) : list Recommendation :=
  match search_nodes E category (Some CATEGORY) 10 with
  | [] => []
  | category_node :: _ =>
      let dishes :=
        get_neighbors (node_id category_node) (Some BELONGS_TO) (graph E) in
      let recommendations :=
        map (fun dish =>
               mkRec dish (_calculate_category_based_score (graph E) dish))
            dishes in
      py_take max_recommendations (sort_recommendations recommendations)
  end.

(** The keys of [user_preferences] that [hybrid_recommend] looks at;
    [None] is an absent key. *)
Record user_preferences := mkPrefs {
  available_ingredients : option (list string);
  preferred_cooking_methods : option (list string);
  preferred_categories : option (list string);
  favorite_dishes : option (list string)
}.

(** The list [all_recommendations] of [hybrid_recommend]. *)
Definition hybrid_all_recommendations (E : GraphQueryEngine)
  (prefs : user_preferences) (max_recommendations : Z) : list Recommendation :=
  let ingredient_recs :=
    match available_ingredients prefs with
    | Some l => recommend_dishes_by_ingredients E l max_recommendations
    | None => []
    end in
  let method_recs :=
    flat_map (fun method =>
                recommend_by_cooking_method E method max_recommendations)
             (default (preferred_cooking_methods prefs) []) in
  let category_recs :=
    flat_map (fun category =>
                recommend_by_category E category max_recommendations)
             (default (preferred_categories prefs) []) in
  let similar_recs :=
    flat_map (fun dish =>
                recommend_similar_dishes E dish max_recommendations)
             (default (favorite_dishes prefs) []) in
  ingredient_recs ++ method_recs ++ category_recs ++ similar_recs.

Definition hybrid_recommend (E : GraphQueryEngine) (prefs : user_preferences)
  (max_recommendations : Z) : list Recommendation :=
  _merge_recommendations
    (hybrid_all_recommendations E prefs max_recommendations)
    max_recommendations.

Definition recommend_ingredient_substitutions (E : GraphQueryEngine)
  (original_ingredient : string) (max_recommendations : Z)
  : list Recommendation :=
  let substitutions :=
    get_ingredient_substitution_suggestions E original_ingredient in
  let recommendations :=
    map (fun '(ingredient, substitution_score) =>
           mkRec ingredient
                 (_calculate_substitution_score_rec substitution_score))
        substitutions in
  py_take max_recommendations recommendations.

(* ------------------------------------------------------------------ *)
(** ** Specification predicates                                        *)
(* ------------------------------------------------------------------ *)

(** The identity of an edge. *)
Definition edge_key (e : GraphEdge) : string * string * EdgeType :=
  (source_id e, target_id e, edge_type e).

Definition item_name (r : Recommendation) : string := name (item r).

(** What [add_node] and [add_edge] maintain. *)
Record graph_inv (g : RecipeGraph) : Prop := {
  inv_node_keys : NoDup (Dict.keys (nodes g));
  inv_node_ids : forall k n, In (k, n) (nodes g) -> node_id n = k;
  inv_edges : NoDup (map edge_key (edges g));
  inv_adj_keys : NoDup (Dict.keys (adjacency_list g));
  inv_adj_inner : forall k inner,
      In (k, inner) (adjacency_list g) -> NoDup (Dict.keys inner);
  inv_adj_edges : forall e, In e (edges g) ->
      exists inner es,
        Dict.get (source_id e) (adjacency_list g) = Some inner
        /\ Dict.get (target_id e) inner = Some es
        /\ In e es
}.

(** The undirected neighbor relation the path search walks on. *)
Definition neighbor (g : RecipeGraph) (u w : GraphNode) : Prop :=
  In w (get_neighbors (node_id u) None g).

Fixpoint is_walk (g : RecipeGraph) (p : list GraphNode) : Prop :=
  match p with
  | [] => True
  | x :: p' =>
      match p' with
      | [] => True
      | y :: _ => neighbor g x y /\ is_walk g p'
      end
  end.

(** [p] leads from [start] to a node with the id [end_id]. *)
Definition path_between (g : RecipeGraph) (start : GraphNode)
  (end_id : string) (p : list GraphNode) : Prop :=
  hd_error p = Some start
  /\ node_id (last p start) = end_id
  /\ is_walk g p.

Definition hops (p : list GraphNode) : Z := Z.of_nat (List.length p) - 1.

(** First occurrences of a list, in order. *)
Fixpoint first_occurrences (l : list string) : list string :=
  match l with
  | [] => []
  | x :: l' => x :: filter (fun y => negb (String.eqb y x)) (first_occurrences l')
  end.

(** Descending order of the scores. *)
Definition sorted_desc (l : list Recommendation) : Prop :=
  StronglySorted (fun a b => (score b <= score a)%Q) l.

(** The inner dictionary [adjacency_list[edge.source_id]] after the edge
    was appended. *)
Definition adj_after (e : GraphEdge) (g : RecipeGraph)
  : dict string (list GraphEdge) :=
  let inner := default (Dict.get (source_id e) (adjacency_list g)) [] in
  Dict.set (target_id e)
           (default (Dict.get (target_id e) inner) [] ++ [e])
           (ensure_key (target_id e) [] inner).

(** [x] is in the set stored under the key [k]. *)
Definition indexed {K : Type} `{EqKey K} (idx : dict K (list string))
  (k : K) (x : string) : Prop :=
  exists ids, Dict.get k idx = Some ids /\ In x ids.

(** The names of a preference list resolve to no node of the type. *)
Definition all_unresolved (E : GraphQueryEngine) (t : NodeType)
  (names : option (list string)) : Prop :=
  Forall (fun nm => search_nodes E nm (Some t) 10 = []) (default names []).

(** [out] keeps, for each of its item names, an entry of [recs] of
    maximum score, and no item name twice. *)
Definition deduplicated (recs out : list Recommendation) : Prop :=
  NoDup (map item_name out)
  /\ forall r, In r out ->
       In r recs
       /\ forall r', In r' recs -> item_name r' = item_name r ->
                     (score r' <= score r)%Q.

(** [S] is [U] in descending order of the scores, entries of equal score
    in the order they have in [U]. *)
Definition stable_desc (U S : list Recommendation) : Prop :=
  Permutation S U
  /\ sorted_desc S
  /\ forall q, filter (fun r => Qeq_bool (score r) q) S
              = filter (fun r => Qeq_bool (score r) q) U.

(** How a result list [out] arises from the candidates [recs]. *)
Definition ranked (recs out : list Recommendation) (k : Z) : Prop :=
  exists U,
    map item_name U = first_occurrences (map item_name recs)
    /\ deduplicated recs U
    /\ stable_desc U (sort_recommendations U)
    /\ out = py_take k (sort_recommendations U)
    /\ deduplicated recs out
    /\ sorted_desc out.

(** The state of the deduplication loop after the entries [done]. *)
Record dedup_inv (u : dict string Recommendation) (done : list Recommendation)
  : Prop := {
  di_keys : NoDup (Dict.keys u);
  di_best : forall k r, In (k, r) u ->
      item_name r = k /\ In r done
      /\ forall r', In r' done -> item_name r' = k -> (score r' <= score r)%Q;
  di_all : forall r, In r done -> In (item_name r) (Dict.keys u);
  di_order : Dict.keys u = first_occurrences (map item_name done)
}.

(** *** Predicates for the breadth-first search *)

(** An entry of the queue: a node and the path that led to it. *)
Abbreviation entry := (GraphNode * list GraphNode)%type (only parsing).

(** [p] is a walk from [start] that ends in [v]. *)
Definition walk_to (g : RecipeGraph) (start v : GraphNode)
  (p : list GraphNode) : Prop :=
  hd_error p = Some start /\ last p start = v /\ is_walk g p.

(** [reach g start end_id k x]: [x] is reached from [start] in [k] hops
    without meeting a node with the id [end_id]. *)
Inductive reach (g : RecipeGraph) (start : GraphNode) (end_id : string)
  : nat -> GraphNode -> Prop :=
| reach_start : reach g start end_id 0 start
| reach_step k u w :
    reach g start end_id k u ->
    neighbor g u w ->
    node_id w <> end_id ->
    reach g start end_id (S k) w.

(** The state of the [while] loop: [D] are the entries already taken
    from the queue, [Q] is the queue and [V] the visited ids. *)
Record bfs_inv (g : RecipeGraph) (start : GraphNode) (end_id : string)
  (max_depth : Z) (D Q : list entry) (V : list string) : Prop := {
  bi_walk : forall v p, In (v, p) (D ++ Q) ->
      walk_to g start v p
      /\ NoDup (map node_id p)
      /\ incl (map node_id p) V;
  bi_start : In (start, [start]) (D ++ Q);
  bi_done : forall v p, In (v, p) D ->
      (Z.of_nat (List.length p) <= max_depth)%Z ->
      forall w, neighbor g v w ->
        node_id w <> end_id
        /\ exists w' q, In (w', q) (D ++ Q)
                        /\ node_id w' = node_id w
                        /\ List.length q <= S (List.length p);
  bi_sorted : StronglySorted
                (fun a b : entry => List.length (snd a) <= List.length (snd b)) Q;
  bi_level : forall a b : entry, In a Q -> In b Q ->
      List.length (snd b) <= S (List.length (snd a));
  bi_done_le : forall a b : entry, In a D -> In b Q ->
      List.length (snd a) <= List.length (snd b);
  bi_end : ~ In end_id V;
  bi_visited : forall id, In id V ->
      exists v p, In (v, p) (D ++ Q) /\ node_id v = id
}.

(** What the search returns. *)
Definition bfs_post (g : RecipeGraph) (start : GraphNode) (end_id : string)
  (max_depth : Z) (r : option (list GraphNode)) : Prop :=
  match r with
  | Some p =>
      path_between g start end_id p
      /\ (hops p <= max_depth)%Z
      /\ NoDup (map node_id p)
      /\ forall q, path_between g start end_id q ->
                   List.length p <= List.length q
  | None =>
      forall q, path_between g start end_id q -> (max_depth < hops q)%Z
  end.

(** Ids of graph nodes that were not visited yet, and the measure that
    bounds the number of iterations. *)
Definition unvisited (g : RecipeGraph) (V : list string) : list string :=
  filter (fun id => negb (set_mem id V))
         (map node_id (Dict.values (nodes g))).

Definition bfs_measure (g : RecipeGraph) (Q : list entry) (V : list string) : nat :=
  List.length (unvisited g V) + List.length Q.

(* ------------------------------------------------------------------ *)
(** ** Example graphs                                                  *)
(* ------------------------------------------------------------------ *)

Definition dish (nm : string) : GraphNode := mkNode ("dish_" ++ nm) DISH nm [].
Definition ingredient (nm : string) : GraphNode :=
  mkNode ("ingredient_" ++ nm) INGREDIENT nm [].

Definition contains (d i : string) : GraphEdge :=
  mkEdge ("dish_" ++ d) ("ingredient_" ++ i) CONTAINS 1 [].
Definition similar (d1 d2 : string) (w : Q) : GraphEdge :=
  mkEdge ("dish_" ++ d1) ("dish_" ++ d2) SIMILAR_TO w [].

(** Three dishes: D1 = {tomato, egg}, D2 = {tomato, egg, onion},
    D3 = {tomato, onion}. *)
Definition kitchen_ops : list graph_op :=
  [ AddNode (dish "D1"); AddNode (ingredient "tomato");
    AddEdge (contains "D1" "tomato");
    AddNode (ingredient "egg"); AddEdge (contains "D1" "egg");
    AddNode (dish "D2"); AddNode (ingredient "tomato");
    AddEdge (contains "D2" "tomato");
    AddNode (ingredient "egg"); AddEdge (contains "D2" "egg");
    AddNode (ingredient "onion"); AddEdge (contains "D2" "onion");
    AddNode (dish "D3"); AddNode (ingredient "tomato");
    AddEdge (contains "D3" "tomato");
    AddNode (ingredient "onion"); AddEdge (contains "D3" "onion") ].

Definition kitchen : RecipeGraph := build kitchen_ops.
Definition kitchen_engine : GraphQueryEngine :=
  mkEngine kitchen (_build_indexes kitchen).

(** Two chicken dishes that are both similar to a curry. *)
Definition chicken_ops : list graph_op :=
  [ AddNode (dish "chicken soup"); AddNode (dish "chicken stew");
    AddNode (dish "curry");
    AddEdge (similar "chicken soup" "curry" (1 # 2));
    AddEdge (similar "chicken stew" "curry" (2 # 5)) ].


(** Two nodes linked in both directions. *)
Definition node_a : GraphNode := mkNode "a" INGREDIENT "a" [].
Definition node_b : GraphNode := mkNode "b" INGREDIENT "b" [].
Definition edge_ab (w : Q) : GraphEdge := mkEdge "a" "b" PAIRS_WITH w [].
Definition edge_ba (w : Q) : GraphEdge := mkEdge "b" "a" PAIRS_WITH w [].

Definition both_ways_ops : list graph_op :=
  [ AddNode node_a; AddNode node_b; AddEdge (edge_ab 1); AddEdge (edge_ba 1) ].

(* ------------------------------------------------------------------ *)
(** ** Further operations of the three modules                         *)
(* ------------------------------------------------------------------ *)

(** [RecipeGraph.find_nodes_by_name]: the linear scan. *)
Definition find_nodes_by_name (nm : string) (nt : option NodeType)
  (g : RecipeGraph) : list GraphNode :=
  let found :=
    filter (fun node => str_in (lower nm) (lower (name node)))
           (Dict.values (nodes g)) in
  match nt with
  | Some t => filter (fun node => NodeType_eqb (node_type node) t) found
  | None => found
  end.

(** [RecipeGraph.get_statistics]; [if k not in d: d[k] = 0] followed by
    [d[k] += 1] is [incr]. *)
Record statistics := mkStats {
  total_nodes : Z;
  total_edges : Z;
  nodes_by_type : dict string Z;
  edges_by_type : dict string Z
}.

Definition get_statistics (g : RecipeGraph) : statistics :=
  mkStats
    (Z.of_nat (List.length (nodes g)))
    (Z.of_nat (List.length (edges g)))
    (fold_left (fun counts node => incr (NodeType_value (node_type node)) counts)
               (Dict.values (nodes g)) [])
    (fold_left (fun counts edge => incr (EdgeType_value (edge_type edge)) counts)
               (edges g) []).

(** The dictionary that [_save_indexes] pickles. *)
Record index_data := mkIndexData {
  id_name_index : dict string (list string);
  id_type_index : dict string (list string);
  id_reverse_adjacency : dict string (dict string (list GraphEdge))
}.

Definition _save_indexes (st : GraphStorage) : index_data :=
  mkIndexData
    (_name_index st)
    (map (fun '(k, v) => (NodeType_value k, v)) (_type_index st))
    (_reverse_adjacency st).

(** [_load_indexes] on the unpickled dictionary; [None] is the
    [ValueError] of [NodeType(type_str)]. *)
Fixpoint load_type_index (items : dict string (list string))
  (index : dict NodeType (list string)) : option (dict NodeType (list string)) :=
  match items with
  | [] => Some index
  | (type_str, node_ids) :: items' =>
      match NodeType_of_value type_str with
      | None => None
      | Some t => load_type_index items' (Dict.set t (set_of_list node_ids) index)
      end
  end.

Definition load_reverse_adjacency
  (items : dict string (dict string (list GraphEdge)))
  : dict string (dict string (list GraphEdge)) :=
  fold_left
    (fun rev '(target, sources) =>
       fold_left
         (fun rev '(source, es) =>
            Dict.set target
                     (Dict.set source es (default (Dict.get target rev) []))
                     rev)
         sources rev)
    items [].

Definition _load_indexes (data : index_data) : option GraphStorage :=
  match load_type_index (id_type_index data) [] with
  | None => None
  | Some type_index =>
      Some (mkStorage (id_name_index data) type_index
                      (load_reverse_adjacency (id_reverse_adjacency data)))
  end.

#[export] Instance pair_EqKey : EqKey (string * string) :=
  fun a b => String.eqb (fst a) (fst b) && String.eqb (snd a) (snd b).

(** [tuple(sorted([a, b]))] *)
Definition sorted_pair (a b : string) : string * string :=
  if String.ltb b a then (b, a) else (a, b).

(** The pairs [(names[i], names[j])], [i < j], in the order of the two
    nested loops. *)
Fixpoint name_pairs (names : list string) : list (string * string) :=
  match names with
  | [] => []
  | x :: names' => map (sorted_pair x) names' ++ name_pairs names'
  end.

Definition incr_pair (k : string * string) (counts : dict (string * string) Z)
  : dict (string * string) Z :=
  Dict.set k (default (Dict.get k counts) 0 + 1)%Z counts.

Definition trending_counts (g : RecipeGraph) : dict (string * string) Z :=
  fold_left
    (fun counts dish =>
       fold_left (fun counts combo => incr_pair combo counts)
                 (name_pairs
                    (map name (get_neighbors (node_id dish) (Some CONTAINS) g)))
                 counts)
    (find_nodes_by_type DISH g) [].

Definition discover_trending_combinations (g : RecipeGraph)
  (min_cooccurrence : Z) : list (list string * Z) :=
  let trending_combinations :=
    flat_map (fun '(combo, count) =>
                if (min_cooccurrence <=? count)%Z
                then [([fst combo; snd combo], count)] else [])
             (trending_counts g) in
  py_take 20 (sort_by_count trending_combinations).

(** [RecipeGraph.get_ingredient_pairs].  The result is [list(pairs)] of
    a set of nodes, compared by id; Python leaves the order of that list
    open, the model lists the set in insertion order. *)
Definition get_ingredient_pairs (ingredient_name : string) (g : RecipeGraph)
  : list GraphNode :=
  let ingredient_nodes :=
    find_nodes_by_name ingredient_name (Some INGREDIENT) g in
  if is_nil ingredient_nodes then []
  else
    fold_left
      (fun pairs ingredient =>
         fold_left
           (fun pairs dish =>
              fold_left
                (fun pairs other_ingredient =>
                   if String.eqb (node_id other_ingredient) (node_id ingredient)
                   then pairs else set_add other_ingredient pairs)
                (get_neighbors (node_id dish) (Some CONTAINS) g)
                pairs)
           (get_neighbors (node_id ingredient) (Some CONTAINS) g)
           pairs)
      ingredient_nodes [].

(** [RecipeGraph.get_dishes_by_ingredients]: the counted ids are sorted
    on the count, and an id is kept when [get_node] finds it. *)
Definition get_dishes_by_ingredients (ingredient_names : list string)
  (g : RecipeGraph) : list GraphNode :=
  let ingredient_nodes :=
    flat_map (fun nm => find_nodes_by_name nm (Some INGREDIENT) g)
             ingredient_names in
  if is_nil ingredient_nodes then []
  else
    let dish_scores :=
      fold_left
        (fun scores ingredient =>
           fold_left (fun scores dish => incr (node_id dish) scores)
                     (get_neighbors (node_id ingredient) (Some CONTAINS) g)
                     scores)
        ingredient_nodes [] in
    flat_map (fun '(dish_id, _) => opt_to_list (get_node dish_id g))
             (sort_by_count dish_scores).

(** [RecipeGraph.get_cooking_methods_for_dish]; the order of the result
    is open as for [get_ingredient_pairs]. *)
Definition get_cooking_methods_for_dish (dish_name : string) (g : RecipeGraph)
  : list GraphNode :=
  let dish_nodes := find_nodes_by_name dish_name (Some DISH) g in
  if is_nil dish_nodes then []
  else
    fold_left
      (fun methods dish =>
         set_update methods (get_neighbors (node_id dish) (Some USES_METHOD) g))
      dish_nodes [].

(* ------------------------------------------------------------------ *)
(** ** graph_builder.py: the derived relations                         *)
(* ------------------------------------------------------------------ *)

(** [RecipeGraphBuilder._calculate_dish_similarity], on the graph the
    builder holds. *)
Definition _calculate_dish_similarity (g : RecipeGraph)
  (dish1 dish2 : GraphNode) : Q :=
  let ingredients1 :=
    set_of_list (map node_id
      (get_neighbors (node_id dish1) (Some CONTAINS) g)) in
  let ingredients2 :=
    set_of_list (map node_id
      (get_neighbors (node_id dish2) (Some CONTAINS) g)) in
  if is_nil ingredients1 || is_nil ingredients2 then 0%Q
  else
    let intersection := List.length (set_inter ingredients1 ingredients2) in
    let union := List.length (set_union ingredients1 ingredients2) in
    if 0 <? union then ratio intersection union else 0%Q.

(** The inner loop of [_build_similar_dishes], [for dish2 in
    dish_nodes[i+1:]]: the graph is updated in place, so every similarity
    is computed on the graph as extended so far. *)
Definition similar_edges_from (dish1 : GraphNode) (rest : list GraphNode)
  (g : RecipeGraph) : RecipeGraph :=
  fold_left
    (fun g dish2 =>
       let similarity := _calculate_dish_similarity g dish1 dish2 in
       if Qgtb similarity (3 # 10)%Q
       then add_edge (mkEdge (node_id dish1) (node_id dish2) SIMILAR_TO
                             similarity [])
                     g
       else g)
    rest g.

(** The outer loop, [for i, dish1 in enumerate(dish_nodes)]. *)
Fixpoint similar_dishes_loop (dish_nodes : list GraphNode) (g : RecipeGraph)
  : RecipeGraph :=
  match dish_nodes with
  | [] => g
  | dish1 :: rest => similar_dishes_loop rest (similar_edges_from dish1 rest g)
  end.

(** [RecipeGraphBuilder._build_similar_dishes]: the list of dishes is
    taken once, before the loops. *)
Definition _build_similar_dishes (g : RecipeGraph) : RecipeGraph :=
  similar_dishes_loop (find_nodes_by_type DISH g) g.

(** The counting loop of [_build_ingredient_pairings]: the sorted pairs
    of the ids of the ingredients of every dish. *)
Definition ingredient_cooccurrence (g : RecipeGraph) : dict (string * string) Z :=
  fold_left
    (fun counts dish =>
       fold_left (fun counts pair_ids => incr_pair pair_ids counts)
                 (name_pairs
                    (map node_id
                       (get_neighbors (node_id dish) (Some CONTAINS) g)))
                 counts)
    (find_nodes_by_type DISH g) [].

(** The second loop of [_build_ingredient_pairings], over the items of
    the counting dictionary. *)
Definition add_pairings (counts : dict (string * string) Z) (g : RecipeGraph)
  : RecipeGraph :=
  fold_left
    (fun g '((ing1_id, ing2_id), count) =>
       if (1 <? count)%Z
       then add_edge (mkEdge ing1_id ing2_id PAIRS_WITH (inject_Z count) []) g
       else g)
    counts g.

(** [RecipeGraphBuilder._build_ingredient_pairings] *)
Definition _build_ingredient_pairings (g : RecipeGraph) : RecipeGraph :=
  add_pairings (ingredient_cooccurrence g) g.

(** *** Predicates for the further properties *)

(** The edges from [s] to [t], in the order of the edge list. *)
Definition edges_between (s t : string) (l : list GraphEdge) : list GraphEdge :=
  filter (fun e => String.eqb (source_id e) s && String.eqb (target_id e) t) l.

(** [d[a][b]] read with empty defaults. *)
Definition lookup2 (d : dict string (dict string (list GraphEdge)))
  (a b : string) : list GraphEdge :=
  default (Dict.get b (default (Dict.get a d) [])) [].

(** The adjacency lists hold exactly the edges of the edge list. *)
Definition adj_exact (g : RecipeGraph) : Prop :=
  forall s inner t es,
    Dict.get s (adjacency_list g) = Some inner ->
    Dict.get t inner = Some es ->
    es = edges_between s t (edges g) /\ es <> [].

(** An optional filter accepts a value. *)
Definition accepts {A : Type} (filter : option A) (a : A) : Prop :=
  filter = None \/ filter = Some a.

(** Descending order of the counts and of the scores of pairs. *)
Definition counts_desc {A : Type} (l : list (A * Z)) : Prop :=
  StronglySorted (fun a b => (snd b <= snd a)%Z) l.

Definition scores_desc {A : Type} (l : list (A * Q)) : Prop :=
  StronglySorted (fun a b => (snd b <= snd a)%Q) l.

(** The sets stored in an index have no duplicates, and neither have
    its keys. *)
Definition index_wf {K : Type} (idx : dict K (list string)) : Prop :=
  NoDup (Dict.keys idx) /\ forall k ids, In (k, ids) idx -> NoDup ids.

(** Sum of the counts of a counting dictionary. *)
Definition sum_counts {K : Type} (counts : dict K Z) : Z :=
  fold_right Z.add 0%Z (Dict.values counts).

(** A node record and an edge record decode to a node and an edge. *)
Definition node_decodes (nd : node_data) (n : GraphNode) : Prop :=
  node_id n = nd_id nd
  /\ NodeType_value (node_type n) = nd_type nd
  /\ name n = nd_name nd
  /\ properties n = default (nd_properties nd) [].

Definition edge_decodes (ed : edge_data) (e : GraphEdge) : Prop :=
  source_id e = ed_source ed
  /\ target_id e = ed_target ed
  /\ EdgeType_value (edge_type e) = ed_type ed
  /\ weight e = default (ed_weight ed) 1%Q
  /\ edge_properties e = default (ed_properties ed) [].

(** What the count-based queries promise about a result list: descending
    counts, no node twice, every entry a node of the graph with a
    positive count. *)
Definition count_result_ok (g : RecipeGraph) (r : list (GraphNode * Z)) : Prop :=
  counts_desc r
  /\ NoDup (map (fun p => node_id (fst p)) r)
  /\ forall n c, In (n, c) r ->
       (1 <= c)%Z /\ get_node (node_id n) g = Some n.

(** A counting dictionary: distinct keys, positive counts. *)
Definition counts_wf {K : Type} (counts : dict K Z) : Prop :=
  NoDup (Dict.keys counts) /\ forall k v, In (k, v) counts -> (1 <= v)%Z.

(** The state of the indexes that [_build_indexes] produces: sets without
    duplicates under distinct keys, and no target without a source in the
    reverse adjacency. *)
Definition storage_wf (st : GraphStorage) : Prop :=
  index_wf (_type_index st)
  /\ NoDup (Dict.keys (_reverse_adjacency st))
  /\ forall t sources, In (t, sources) (_reverse_adjacency st) ->
       sources <> [] /\ NoDup (Dict.keys sources).

(** A set of nodes of the graph: every element is a stored node, and no
    two elements have the same id. *)
Definition node_set (g : RecipeGraph) (s : list GraphNode) : Prop :=
  incl s (Dict.values (nodes g)) /\ NoDup (map node_id s).

(** The nodes [get_dishes_by_ingredients] counts: the [CONTAINS]
    neighbours of every node found for every name, with repetitions. *)
Definition counted_dishes (names : list string) (g : RecipeGraph)
  : list GraphNode :=
  flat_map (fun ingredient =>
              get_neighbors (node_id ingredient) (Some CONTAINS) g)
           (flat_map (fun nm => find_nodes_by_name nm (Some INGREDIENT) g)
                     names).

(** How often a node is counted. *)
Definition times_counted (names : list string) (g : RecipeGraph)
  (d : GraphNode) : nat :=
  List.length
    (filter (fun x => String.eqb (node_id x) (node_id d))
            (counted_dishes names g)).

(** [g'] is [g] with more edges, all of type [t] and of the kind [P]:
    [g'] comes from [g] by calls of [add_edge], it has the same nodes and
    the edge list of [g] followed by the new edges, and for every other
    type the neighbours and the edges are the ones of [g]. *)
Record extends_with (t : EdgeType) (P : GraphEdge -> Prop)
  (g g' : RecipeGraph) : Prop := {
  ext_calls : exists es, g' = fold_left apply_op (map AddEdge es) g;
  ext_nodes : nodes g' = nodes g;
  ext_edges : exists added,
      edges g' = edges g ++ added
      /\ Forall (fun e => edge_type e = t /\ P e) added;
  ext_neighbors : forall id t', t' <> t ->
      get_neighbors id (Some t') g' = get_neighbors id (Some t') g;
  ext_get_edges : forall s target t', t' <> t ->
      get_edges s target (Some t') g' = get_edges s target (Some t') g
}.

(** [a] comes before [b] in the list. *)
Definition before {A : Type} (a b : A) (l : list A) : Prop :=
  exists l1 l2 l3, l = l1 ++ a :: l2 ++ b :: l3.

(** The edge list holds an edge with this identity. *)
Definition has_edge (s t : string) (et : EdgeType) (g : RecipeGraph) : Prop :=
  exists e, In e (edges g) /\ edge_key e = (s, t, et).

(** The edges [_build_similar_dishes] adds for a list of dishes: from a
    dish to a later one, when their similarity in [g] is above 0.3, with
    that similarity as weight. *)
Definition similar_edge_of (g : RecipeGraph) (dishes : list GraphNode)
  (e : GraphEdge) : Prop :=
  exists d1 d2,
    before d1 d2 dishes
    /\ (3 # 10 < _calculate_dish_similarity g d1 d2)%Q
    /\ e = mkEdge (node_id d1) (node_id d2) SIMILAR_TO
                  (_calculate_dish_similarity g d1 d2) [].

(** The edges [_build_ingredient_pairings] adds: one for a sorted pair of
    ids counted at least twice, with the count as weight. *)
Definition pairing_edge_of (counts : dict (string * string) Z)
  (e : GraphEdge) : Prop :=
  exists a b c,
    In ((a, b), c) counts
    /\ (2 <= c)%Z
    /\ String.ltb b a = false
    /\ e = mkEdge a b PAIRS_WITH (inject_Z c) [].

(** A sample export with a missing weight and missing properties. *)
Definition sample_data : graph_data :=
  mkGraphData
    [ mkNodeData "a" "ingredient" "a" None;
      mkNodeData "b" "ingredient" "b" (Some []) ]
    [ mkEdgeData "a" "b" "pairs_with" None None;
      mkEdgeData "a" "b" "pairs_with" (Some (7 # 1)%Q) None ].

(* ================================================================== *)
(** * Properties                                                       *)
(* ================================================================== *)

#[export] Instance string_EqKeyOk : EqKeyOk string.
Proof. exact String.eqb_eq. Qed.

#[export] Instance NodeType_EqKeyOk : EqKeyOk NodeType.
Proof. intros [] []; cbv; split; intros; congruence. Qed.

#[export] Instance ascii_EqKeyOk : EqKeyOk ascii.
Proof. exact Ascii.eqb_eq. Qed.

Lemma EdgeType_eqb_eq (a b : EdgeType) : EdgeType_eqb a b = true <-> a = b.
Proof. destruct a, b; cbv; split; intros; congruence. Qed.

Lemma keqb_refl {K} `{EqKeyOk K} (a : K) : keqb a a = true.
Proof. now apply keqb_eq. Qed.

Lemma keqb_neq {K} `{EqKeyOk K} (a b : K) : keqb a b = false <-> a <> b.
Proof.
  split.
  - intros E Heq. apply keqb_eq in Heq. congruence.
  - intros N. destruct (keqb a b) eqn:E; [|reflexivity].
    apply keqb_eq in E. contradiction.
Qed.

Ltac key_cases a b :=
  let E := fresh "E" in
  destruct (keqb a b) eqn:E;
  [apply keqb_eq in E; try subst | apply keqb_neq in E].

(** ** Dictionaries *)

Section DictFacts.
Context {K V : Type} `{EqKeyOk K}.
Implicit Types (d : list (K * V)) (k : K) (v : V).

Lemma get_set_eq k v d : Dict.get k (Dict.set k v d) = Some v.
Proof.
  induction d as [|[k' v'] d IH]; simpl.
  - now rewrite keqb_refl.
  - key_cases k k'; simpl.
    + now rewrite keqb_refl.
    + apply keqb_neq in E. now rewrite E.
Qed.

Lemma get_set_ne k k' v d :
  k <> k' -> Dict.get k' (Dict.set k v d) = Dict.get k' d.
Proof.
  intros N. induction d as [|[k0 v0] d IH]; simpl.
  - assert (keqb k' k = false) as -> by (apply keqb_neq; congruence).
    reflexivity.
  - key_cases k k0; simpl.
    + assert (keqb k' k0 = false) as -> by (apply keqb_neq; congruence).
      reflexivity.
    + now rewrite IH.
Qed.

Lemma get_In k v d : Dict.get k d = Some v -> In (k, v) d.
Proof.
  induction d as [|[k' v'] d IH]; simpl; [discriminate|].
  key_cases k k'.
  - intros [= ->]. now left.
  - intros G. right. now apply IH.
Qed.

Lemma get_None_keys k d : Dict.get k d = None <-> ~ In k (Dict.keys d).
Proof.
  induction d as [|[k' v'] d IH]; simpl.
  - tauto.
  - key_cases k k'.
    + split; [discriminate | intros N; exfalso; apply N; now left].
    + rewrite IH. split; [intros N [?|?]; congruence | tauto].
Qed.

Lemma In_get k v d : NoDup (Dict.keys d) -> In (k, v) d -> Dict.get k d = Some v.
Proof.
  induction d as [|[k' v'] d IH]; simpl; [tauto|].
  intros ND [Heq|Hin].
  - injection Heq as -> ->. now rewrite keqb_refl.
  - inversion ND as [|? ? Hn ND']; subst.
    key_cases k k'.
    + exfalso. apply Hn. apply (in_map fst) in Hin. exact Hin.
    + now apply IH.
Qed.

Lemma mem_true k d : Dict.mem k d = true <-> In k (Dict.keys d).
Proof.
  unfold Dict.mem. destruct (Dict.get k d) eqn:G.
  - split; [|reflexivity]. intros _. apply get_In in G.
    apply (in_map fst) in G. exact G.
  - split; [discriminate|]. intros Hin. now apply get_None_keys in G.
Qed.

Lemma set_fresh k v d : ~ In k (Dict.keys d) -> Dict.set k v d = d ++ [(k, v)].
Proof.
  induction d as [|[k' v'] d IH]; simpl; [reflexivity|].
  intros N. key_cases k k'.
  - exfalso. apply N. now left.
  - rewrite IH; [reflexivity | tauto].
Qed.

Lemma keys_set_present k v d :
  In k (Dict.keys d) -> Dict.keys (Dict.set k v d) = Dict.keys d.
Proof.
  induction d as [|[k' v'] d IH]; simpl; [tauto|].
  intros Hin. key_cases k k'; simpl; [reflexivity|].
  rewrite IH; [reflexivity|]. destruct Hin; congruence.
Qed.

Lemma keys_set k v d :
  Dict.keys (Dict.set k v d)
  = if Dict.mem k d then Dict.keys d else Dict.keys d ++ [k].
Proof.
  destruct (Dict.mem k d) eqn:M.
  - apply keys_set_present. now apply mem_true.
  - rewrite set_fresh.
    + unfold Dict.keys. now rewrite map_app.
    + intros Hin. apply mem_true in Hin. congruence.
Qed.

Lemma NoDup_snoc {A} (l : list A) (x : A) :
  NoDup l -> ~ In x l -> NoDup (l ++ [x]).
Proof.
  intros ND N. apply NoDup_app; [assumption | repeat constructor; simpl; tauto |].
  intros a Ha [<-|[]]. contradiction.
Qed.

Lemma NoDup_keys_set k v d :
  NoDup (Dict.keys d) -> NoDup (Dict.keys (Dict.set k v d)).
Proof.
  intros ND. rewrite keys_set. destruct (Dict.mem k d) eqn:M; [assumption|].
  apply NoDup_snoc; [assumption|].
  intros Hin. apply mem_true in Hin. congruence.
Qed.

Lemma In_set k v k' v' d :
  In (k', v') (Dict.set k v d) -> (k' = k /\ v' = v) \/ In (k', v') d.
Proof.
  induction d as [|[k0 v0] d IH]; simpl.
  - intros [[= <- <-]|[]]. now left.
  - key_cases k k0; simpl.
    + intros [[= <- <-]|Hin]; [now left | right; now right].
    + intros [Heq|Hin]; [right; now left|].
      destruct (IH Hin); [now left | right; now right].
Qed.

Lemma In_set_same k v d : In (k, v) (Dict.set k v d).
Proof. apply get_In, get_set_eq. Qed.

Lemma In_set_other k v k' v' d :
  k' <> k -> In (k', v') d -> In (k', v') (Dict.set k v d).
Proof.
  intros N. induction d as [|[k0 v0] d IH]; simpl; [tauto|].
  key_cases k k0; simpl.
  - intros [[= -> ->]|Hin]; [congruence | now right].
  - intros [Heq|Hin]; [now left | right; now apply IH].
Qed.
End DictFacts.

Lemma get_ensure_key {V} (k k' : string) (v : V) (d : dict string V) :
Dict.get k' (ensure_key k v d)
= if String.eqb k k'
  then Some (default (Dict.get k d) v)
  else Dict.get k' d.
Proof.
unfold ensure_key, Dict.mem.
destruct (String.eqb_spec k k') as [<-|N].
- destruct (Dict.get k d) eqn:G; simpl; [exact G | apply get_set_eq].
- destruct (Dict.get k d); [reflexivity | now apply get_set_ne].
Qed.

Lemma keys_ensure_key {V} (k : string) (v : V) (d : dict string V) :
NoDup (Dict.keys d) -> NoDup (Dict.keys (ensure_key k v d)).
Proof.
unfold ensure_key. destruct (Dict.mem k d); [tauto | apply NoDup_keys_set].
Qed.

Lemma In_ensure_key {V} (k : string) (v : V) k' v' (d : dict string V) :
In (k', v') (ensure_key k v d) -> (k' = k /\ v' = v) \/ In (k', v') d.
Proof.
unfold ensure_key. destruct (Dict.mem k d); [now right | apply In_set].
Qed.

(** ** Edges and their identity *)

Lemma GraphEdge_eqb_key (e1 e2 : GraphEdge) :
GraphEdge_eqb e1 e2 = true <-> edge_key e1 = edge_key e2.
Proof.
unfold GraphEdge_eqb, edge_key.
rewrite !andb_true_iff, !String.eqb_eq, EdgeType_eqb_eq.
split; [intros [[-> ->] ->]; reflexivity | intros [= -> -> ->]; auto].
Qed.

Lemma edge_in_key (e : GraphEdge) (l : list GraphEdge) :
edge_in e l = true <-> In (edge_key e) (map edge_key l).
Proof.
unfold edge_in. rewrite existsb_exists, in_map_iff.
split; intros [x [A B]]; exists x.
- apply GraphEdge_eqb_key in B. auto.
- split; [assumption | now apply GraphEdge_eqb_key].
Qed.

Lemma edge_in_congr (e1 e2 : GraphEdge) (l : list GraphEdge) :
GraphEdge_eqb e1 e2 = true -> edge_in e2 l = edge_in e1 l.
Proof.
intros E. apply GraphEdge_eqb_key in E.
apply eq_true_iff_eq. rewrite !edge_in_key. now rewrite E.
Qed.

Lemma edge_in_snoc (e1 e2 : GraphEdge) (l : list GraphEdge) :
GraphEdge_eqb e1 e2 = true -> edge_in e2 (l ++ [e1]) = true.
Proof.
intros E. unfold edge_in. rewrite existsb_app. simpl.
rewrite E. now rewrite orb_true_r.
Qed.

Lemma add_edge_present e g : edge_in e (edges g) = true -> add_edge e g = g.
Proof. unfold add_edge. now intros ->. Qed.

Lemma add_edge_fresh e g :
edge_in e (edges g) = false ->
add_edge e g
= mkGraph (nodes g) (edges g ++ [e])
          (Dict.set (source_id e) (adj_after e g)
                    (ensure_key (source_id e) [] (adjacency_list g))).
Proof.
unfold add_edge, adj_after. intros ->.
rewrite !get_ensure_key, !String.eqb_refl. reflexivity.
Qed.

Lemma get_adj_after e g t :
Dict.get t (adj_after e g)
= if String.eqb (target_id e) t
  then Some (default
               (Dict.get (target_id e)
                  (default (Dict.get (source_id e) (adjacency_list g)) []))
               [] ++ [e])
  else Dict.get t (default (Dict.get (source_id e) (adjacency_list g)) []).
Proof.
unfold adj_after. destruct (String.eqb_spec (target_id e) t) as [<-|N].
- apply get_set_eq.
- rewrite get_set_ne by assumption. rewrite get_ensure_key.
  apply String.eqb_neq in N. now rewrite N.
Qed.

Lemma get_adj_add_edge e g s :
edge_in e (edges g) = false ->
Dict.get s (adjacency_list (add_edge e g))
= if String.eqb (source_id e) s
  then Some (adj_after e g)
  else Dict.get s (adjacency_list g).
Proof.
intros F. rewrite add_edge_fresh by assumption. simpl.
destruct (String.eqb_spec (source_id e) s) as [<-|N].
- apply get_set_eq.
- rewrite get_set_ne by assumption. rewrite get_ensure_key.
  apply String.eqb_neq in N. now rewrite N.
Qed.

(** ** The graph invariant *)

Lemma graph_inv_empty : graph_inv empty_graph.
Proof.
constructor; simpl; try constructor; try tauto.
Qed.

Lemma graph_inv_add_node n g : graph_inv g -> graph_inv (add_node n g).
Proof.
intros [I1 I2 I3 I4 I5 I6]. constructor; simpl.
- now apply NoDup_keys_set.
- intros k m Hin. apply In_set in Hin as [[-> ->]|Hin]; auto.
- assumption.
- now apply keys_ensure_key.
- intros k inner Hin. apply In_ensure_key in Hin as [[-> ->]|Hin].
  + constructor.
  + eauto.
- intros e He. destruct (I6 e He) as (inner & es & G1 & G2 & G3).
  exists inner, es. split; [|auto].
  rewrite get_ensure_key.
  destruct (String.eqb_spec (node_id n) (source_id e)) as [->|N];
    [now rewrite G1 | assumption].
Qed.

Lemma NoDup_keys_adj_after e g :
graph_inv g -> NoDup (Dict.keys (adj_after e g)).
Proof.
intros I. unfold adj_after.
apply NoDup_keys_set, keys_ensure_key.
destruct (Dict.get (source_id e) (adjacency_list g)) eqn:G; simpl.
- apply get_In in G. eapply inv_adj_inner; eauto.
- constructor.
Qed.

Lemma graph_inv_add_edge e g : graph_inv g -> graph_inv (add_edge e g).
Proof.
intros I. destruct (edge_in e (edges g)) eqn:F.
{ now rewrite add_edge_present. }
pose proof (get_adj_add_edge e g) as GA.
pose proof (NoDup_keys_adj_after e g I) as NA.
destruct I as [I1 I2 I3 I4 I5 I6].
rewrite add_edge_fresh in * by assumption. simpl in GA.
constructor; simpl; try assumption.
- rewrite map_app. simpl. apply NoDup_snoc; [assumption|].
  intros Hin. apply edge_in_key in Hin. congruence.
- now apply NoDup_keys_set, keys_ensure_key.
- intros k inner Hin. apply In_set in Hin as [[-> ->]|Hin]; [assumption|].
  apply In_ensure_key in Hin as [[-> ->]|Hin]; [constructor | eauto].
- intros e' He'. rewrite GA by exact F.
  apply in_app_iff in He' as [He'|[<-|[]]].
  + destruct (I6 e' He') as (inner & es & G1 & G2 & G3).
    destruct (String.eqb_spec (source_id e) (source_id e')) as [Es|Ns].
    * destruct (String.eqb_spec (target_id e) (target_id e')) as [Et|Nt].
      -- exists (adj_after e g), (es ++ [e]). split; [reflexivity|].
         rewrite get_adj_after, Es, G1, Et, String.eqb_refl. simpl.
         rewrite G2. simpl. split; [reflexivity|].
         apply in_app_iff. now left.
      -- exists (adj_after e g), es. split; [reflexivity|].
         rewrite get_adj_after, Es, G1.
         apply String.eqb_neq in Nt. rewrite Nt. simpl. split; assumption.
    * exists inner, es. auto.
  + rewrite String.eqb_refl. eexists; eexists. split; [reflexivity|].
    rewrite get_adj_after, String.eqb_refl. split; [reflexivity|].
    apply in_app_iff. right. now left.
Qed.

Lemma graph_inv_build_from ops g :
graph_inv g -> graph_inv (fold_left apply_op ops g).
Proof.
revert g. induction ops as [|[n|e] ops IH]; simpl; intros g I.
- assumption.
- apply IH, graph_inv_add_node, I.
- apply IH, graph_inv_add_edge, I.
Qed.

Lemma graph_inv_build ops : graph_inv (build ops).
Proof. apply graph_inv_build_from, graph_inv_empty. Qed.

Lemma get_node_id g k n : graph_inv g -> get_node k g = Some n -> node_id n = k.
Proof.
intros I G. apply get_In in G. eapply inv_node_ids; eauto.
Qed.

Lemma get_node_value g n :
graph_inv g -> In n (Dict.values (nodes g)) -> get_node (node_id n) g = Some n.
Proof.
intros I Hin. apply in_map_iff in Hin as [[k m] [E Hin]]. simpl in E. subst m.
pose proof (inv_node_ids g I k n Hin) as ->.
apply In_get; [apply I | assumption].
Qed.

(** ** Insertion of edges *)

(** C9: when the edge list already holds an edge with the same
  (source, target, type), [add_edge] returns the graph as it was: the
  node mapping, the edge list and the adjacency index are unchanged. *)
Theorem add_edge_duplicate_noop (g : RecipeGraph) (e e0 : GraphEdge) :
In e0 (edges g) ->
edge_key e0 = edge_key e ->
add_edge e g = g
/\ nodes (add_edge e g) = nodes g
/\ edges (add_edge e g) = edges g
/\ adjacency_list (add_edge e g) = adjacency_list g.
Proof.
intros Hin Hk.
assert (add_edge e g = g) as ->; [|auto].
apply add_edge_present, edge_in_key.
rewrite <- Hk. now apply in_map.
Qed.

(** C2, amended: two insertions with the same (source, target, type)
  into a graph that holds no such edge yet append exactly the first
  edge, with its weight and properties; when such an edge is already
  there, the edge list stays as it is. *)
Theorem add_edge_twice (g : RecipeGraph) (e1 e2 : GraphEdge) :
edge_key e1 = edge_key e2 ->
(~ In (edge_key e1) (map edge_key (edges g)) ->
 edges (add_edge e2 (add_edge e1 g)) = edges g ++ [e1]
 /\ List.length (edges (add_edge e2 (add_edge e1 g)))
    = S (List.length (edges g)))
/\ (In (edge_key e1) (map edge_key (edges g)) ->
    edges (add_edge e2 (add_edge e1 g)) = edges g).
Proof.
intros Hk. apply GraphEdge_eqb_key in Hk. split.
- intros Hn.
  assert (edge_in e1 (edges g) = false) as F.
  { destruct (edge_in e1 (edges g)) eqn:F; [|reflexivity].
    apply edge_in_key in F. contradiction. }
  rewrite (add_edge_fresh e1 g F).
  rewrite add_edge_present by (simpl; now apply edge_in_snoc).
  simpl. split; [reflexivity|]. rewrite length_app. simpl. lia.
- intros Hin. apply edge_in_key in Hin.
  rewrite (add_edge_present e1 g Hin).
  rewrite add_edge_present; [reflexivity|].
  now rewrite (edge_in_congr e1 e2).
Qed.

(** ** Export and import *)

Lemma NodeType_roundtrip t : NodeType_of_value (NodeType_value t) = Some t.
Proof. destruct t; reflexivity. Qed.

Lemma EdgeType_roundtrip t : EdgeType_of_value (EdgeType_value t) = Some t.
Proof. destruct t; reflexivity. Qed.

Lemma load_nodes_values (ns : list GraphNode) (g : RecipeGraph) :
load_nodes
  (map (fun node => mkNodeData (node_id node) (NodeType_value (node_type node))
                               (name node) (Some (properties node))) ns) g
= Some (fold_left (fun g n => add_node n g) ns g).
Proof.
revert g. induction ns as [|[i t nm pr] ns IH]; intros g; simpl; [reflexivity|].
rewrite NodeType_roundtrip. apply IH.
Qed.

Lemma load_edges_values (es : list GraphEdge) (g : RecipeGraph) :
load_edges
  (map (fun edge => mkEdgeData (source_id edge) (target_id edge)
                               (EdgeType_value (edge_type edge))
                               (Some (weight edge))
                               (Some (edge_properties edge))) es) g
= Some (fold_left (fun g e => add_edge e g) es g).
Proof.
revert g. induction es as [|[s t ty w pr] es IH]; intros g; simpl; [reflexivity|].
rewrite EdgeType_roundtrip. apply IH.
Qed.

Lemma nodes_fold_add_node (ns : list GraphNode) (g : RecipeGraph) :
nodes (fold_left (fun g n => add_node n g) ns g)
= fold_left (fun d n => Dict.set (node_id n) n d) ns (nodes g)
/\ edges (fold_left (fun g n => add_node n g) ns g) = edges g.
Proof.
revert g. induction ns as [|n ns IH]; intros g; simpl; [auto|].
destruct (IH (add_node n g)) as [-> ->]. auto.
Qed.

Lemma rebuild_nodes (d2 d1 : dict string GraphNode) :
NoDup (Dict.keys (d1 ++ d2)) ->
(forall k n, In (k, n) d2 -> node_id n = k) ->
fold_left (fun d n => Dict.set (node_id n) n d) (Dict.values d2) d1 = d1 ++ d2.
Proof.
revert d1. induction d2 as [|[k n] d2 IH]; intros d1 ND Ids; simpl.
- now rewrite app_nil_r.
- assert (node_id n = k) as -> by (apply Ids; now left).
  unfold Dict.keys in ND. rewrite map_app in ND. simpl in ND.
  rewrite set_fresh.
  + rewrite IH.
    * now rewrite <- app_assoc.
    * unfold Dict.keys. rewrite <- app_assoc, map_app. exact ND.
    * intros k' n' Hin. apply Ids. now right.
  + apply NoDup_remove_2 in ND. intros Hin. apply ND.
    apply in_app_iff. now left.
Qed.

Lemma fold_add_edge (es : list GraphEdge) (g : RecipeGraph) :
NoDup (map edge_key (edges g ++ es)) ->
nodes (fold_left (fun g e => add_edge e g) es g) = nodes g
/\ edges (fold_left (fun g e => add_edge e g) es g) = edges g ++ es.
Proof.
revert g. induction es as [|e es IH]; intros g ND; simpl.
- now rewrite app_nil_r.
- assert (edge_in e (edges g) = false) as F.
  { destruct (edge_in e (edges g)) eqn:F; [|reflexivity].
    apply edge_in_key in F. rewrite map_app in ND. simpl in ND.
    apply NoDup_remove_2 in ND. exfalso. apply ND.
    apply in_app_iff. now left. }
  destruct (IH (add_edge e g)) as [A B].
  + rewrite add_edge_fresh by assumption. simpl.
    now rewrite <- app_assoc.
  + rewrite A, B. rewrite add_edge_fresh by assumption. simpl.
    now rewrite <- app_assoc.
Qed.

Lemma roundtrip_inv (g : RecipeGraph) :
graph_inv g ->
exists g', load_from_file (to_dict g) = Some g'
           /\ nodes g' = nodes g /\ edges g' = edges g.
Proof.
intros I. unfold load_from_file, to_dict. simpl.
rewrite load_nodes_values, load_edges_values.
eexists. split; [reflexivity|].
destruct (nodes_fold_add_node (Dict.values (nodes g)) empty_graph) as [N E].
destruct (fold_add_edge (edges g)
            (fold_left (fun g n => add_node n g) (Dict.values (nodes g))
                       empty_graph)) as [A B].
{ rewrite E. simpl. apply I. }
rewrite A, B, N, E. simpl. split; [|reflexivity].
apply (rebuild_nodes (nodes g) []); simpl; apply I.
Qed.

(** C1: for every graph built by [add_node] and [add_edge], importing its
  structured export succeeds and gives a graph with the same node
  mapping (same ids, each node with its type, name and properties) and
  the same edge list (same identities, same weights), in the same
  order. *)
Theorem export_import_roundtrip (ops : list graph_op) :
exists g',
  load_from_file (to_dict (build ops)) = Some g'
  /\ nodes g' = nodes (build ops)
  /\ edges g' = edges (build ops)
  /\ Dict.keys (nodes g') = Dict.keys (nodes (build ops))
  /\ map edge_key (edges g') = map edge_key (edges (build ops))
  /\ map weight (edges g') = map weight (edges (build ops)).
Proof.
destruct (roundtrip_inv (build ops) (graph_inv_build ops)) as (g' & L & N & E).
exists g'. rewrite N, E. auto 10.
Qed.

(** ** Neighbors *)

Lemma type_matches_edge (e : GraphEdge) (es : list GraphEdge) (et : option EdgeType) :
In e es -> et = None \/ et = Some (edge_type e) -> type_matches et es = true.
Proof.
intros Hin [->| ->]; simpl; [reflexivity|].
apply existsb_exists. exists e. split; [assumption | now apply EdgeType_eqb_eq].
Qed.

Lemma edge_neighbors (g : RecipeGraph) (e : GraphEdge) (na nb : GraphNode)
(et : option EdgeType) :
graph_inv g ->
In e (edges g) ->
get_node (source_id e) g = Some na ->
get_node (target_id e) g = Some nb ->
et = None \/ et = Some (edge_type e) ->
In nb (get_neighbors (source_id e) et g)
/\ In na (get_neighbors (target_id e) et g).
Proof.
intros I He Ha Hb Het.
destruct (inv_adj_edges g I e He) as (inner & es & G1 & G2 & G3).
pose proof (type_matches_edge e es et G3 Het) as TM.
unfold get_neighbors. split; apply in_app_iff; [left | right].
- unfold outgoing_neighbors. rewrite G1.
  apply in_flat_map. exists (target_id e, es). split.
  + now apply get_In.
  + rewrite TM, Hb. now left.
- unfold incoming_neighbors.
  apply in_flat_map. exists (source_id e, inner). split.
  + now apply get_In.
  + rewrite G2, TM, Ha. now left.
Qed.

(** C4: when the graph holds an edge from [a] to [b] of type [t] and both
  ids are in the node mapping, [get_neighbors(a, t)] contains the node
  of [b] and [get_neighbors(b, t)] contains the node of [a]; the same
  holds when the edge type is left out. *)
Theorem get_neighbors_symmetric (ops : list graph_op) (e : GraphEdge)
(na nb : GraphNode) :
In e (edges (build ops)) ->
get_node (source_id e) (build ops) = Some na ->
get_node (target_id e) (build ops) = Some nb ->
(In nb (get_neighbors (source_id e) (Some (edge_type e)) (build ops))
 /\ In na (get_neighbors (target_id e) (Some (edge_type e)) (build ops)))
/\ (In nb (get_neighbors (source_id e) None (build ops))
    /\ In na (get_neighbors (target_id e) None (build ops))).
Proof.
intros He Ha Hb. split.
- apply edge_neighbors; auto using graph_inv_build.
- apply edge_neighbors; auto using graph_inv_build.
Qed.

Lemma NoDup_ids_flat_map {V : Type} (f : string * V -> list GraphNode)
(d : dict string V) :
NoDup (Dict.keys d) ->
(forall k v n, In n (f (k, v)) -> node_id n = k) ->
(forall kv, List.length (f kv) <= 1) ->
NoDup (map node_id (flat_map f d)).
Proof.
intros ND Hid Hlen. induction d as [|[k v] d IH]; simpl; [constructor|].
inversion ND as [|? ? Hk ND']; subst.
rewrite map_app.
specialize (IH ND').
pose proof (Hid k v) as Hidk. pose proof (Hlen (k, v)) as Hl.
destruct (f (k, v)) as [|n [|m l]]; simpl in *; [assumption | | lia].
constructor; [|assumption].
rewrite (Hidk n) by now left.
intros Hin. apply in_map_iff in Hin as [n' [En' Hin]].
apply in_flat_map in Hin as [[k' v'] [Hkv Hn']].
apply Hid in Hn'. apply Hk.
apply in_map_iff. exists (k', v'). split; [simpl; congruence | assumption].
Qed.

Lemma length_opt_to_list {A} (o : option A) : List.length (opt_to_list o) <= 1.
Proof. destruct o; simpl; lia. Qed.

Lemma outgoing_NoDup (g : RecipeGraph) (id : string) (et : option EdgeType) :
graph_inv g -> NoDup (map node_id (outgoing_neighbors id et g)).
Proof.
intros I. unfold outgoing_neighbors.
destruct (Dict.get id (adjacency_list g)) as [targets|] eqn:G; [|constructor].
apply NoDup_ids_flat_map.
- apply get_In in G. eapply inv_adj_inner; eauto.
- intros k v n. destruct (type_matches et v); [|intros []].
  destruct (get_node k g) eqn:Gn; simpl; [|tauto].
  intros [<-|[]]. eapply get_node_id; eauto.
- intros [k v]. destruct (type_matches et v); [apply length_opt_to_list | simpl; lia].
Qed.

Lemma incoming_NoDup (g : RecipeGraph) (id : string) (et : option EdgeType) :
graph_inv g -> NoDup (map node_id (incoming_neighbors id et g)).
Proof.
intros I. unfold incoming_neighbors.
apply NoDup_ids_flat_map.
- apply I.
- intros k v n. destruct (Dict.get id v); [|intros []].
  destruct (type_matches et l); [|intros []].
  destruct (get_node k g) eqn:Gn; simpl; [|tauto].
  intros [<-|[]]. eapply get_node_id; eauto.
- intros [k v]. destruct (Dict.get id v); [|simpl; lia].
  destruct (type_matches et l); [apply length_opt_to_list | simpl; lia].
Qed.

(** C3, amended: the nodes [get_neighbors] collects over outgoing edges
  are pairwise distinct (parallel edges to one target give one entry),
  and so are the nodes it collects over incoming edges; the result is
  the first list followed by the second, so a node occurs at most
  twice. *)
Theorem get_neighbors_duplicates (ops : list graph_op) (id : string)
(et : option EdgeType) :
get_neighbors id et (build ops)
= outgoing_neighbors id et (build ops) ++ incoming_neighbors id et (build ops)
/\ NoDup (map node_id (outgoing_neighbors id et (build ops)))
/\ NoDup (map node_id (incoming_neighbors id et (build ops)))
/\ forall x, count_occ string_dec
               (map node_id (get_neighbors id et (build ops))) x <= 2.
Proof.
pose proof (outgoing_NoDup (build ops) id et (graph_inv_build ops)) as No.
pose proof (incoming_NoDup (build ops) id et (graph_inv_build ops)) as Ni.
repeat split; try assumption.
intros x. unfold get_neighbors. rewrite map_app, count_occ_app.
rewrite (NoDup_count_occ string_dec) in No, Ni.
specialize (No x). specialize (Ni x). lia.
Qed.

(** ** Sets, sorting and slices *)

Section SetFacts.
Context {K : Type} `{EqKeyOk K}.
Implicit Types (s xs : list K) (x y : K).

Lemma set_mem_In x s : set_mem x s = true <-> In x s.
Proof.
  unfold set_mem. rewrite existsb_exists. split.
  - intros [y [Hin E]]. apply keqb_eq in E. now subst.
  - intros Hin. exists x. split; [assumption | apply keqb_refl].
Qed.

Lemma In_set_add x y s : In y (set_add x s) <-> y = x \/ In y s.
Proof.
  unfold set_add. destruct (set_mem x s) eqn:M.
  - apply set_mem_In in M. split; [auto | intros [->|?]; auto].
  - rewrite in_app_iff. simpl. intuition.
Qed.

Lemma In_set_update y xs s : In y (set_update s xs) <-> In y s \/ In y xs.
Proof.
  unfold set_update. revert s.
  induction xs as [|x xs IH]; intros s; simpl; [tauto|].
  rewrite IH, In_set_add. intuition.
Qed.

Lemma In_set_inter y s xs : In y (set_inter s xs) <-> In y s /\ In y xs.
Proof. unfold set_inter. now rewrite filter_In, set_mem_In. Qed.
End SetFacts.

Section SortFacts.
Context {A : Type} (gtb : A -> A -> bool).

Lemma insert_desc_perm (x : A) (l : list A) :
  Permutation (insert_desc gtb x l) (x :: l).
Proof.
  induction l as [|y l IH]; simpl; [reflexivity|].
  destruct (gtb y x); [|reflexivity].
  rewrite IH. apply perm_swap.
Qed.

Lemma sort_desc_perm (l : list A) : Permutation (sort_desc gtb l) l.
Proof.
  induction l as [|x l IH]; simpl; [reflexivity|].
  rewrite insert_desc_perm. now constructor.
Qed.

Lemma In_sort_desc (x : A) (l : list A) : In x (sort_desc gtb l) <-> In x l.
Proof.
  split; apply Permutation_in; [|symmetry]; apply sort_desc_perm.
Qed.

Lemma sort_desc_nil_iff (l : list A) : sort_desc gtb l = [] <-> l = [].
Proof.
  split; [|now intros ->]. intros E.
  apply Permutation_nil. rewrite <- E. apply sort_desc_perm.
Qed.
End SortFacts.

Lemma py_take_all {A} (k : Z) (l : list A) :
(Z.of_nat (List.length l) <= k)%Z -> py_take k l = l.
Proof.
intros Hk. unfold py_take.
destruct (Z.ltb_spec k 0); [lia|].
apply firstn_all2. lia.
Qed.

Lemma py_take_nil {A} (k : Z) : py_take k (@nil A) = [].
Proof. unfold py_take. destruct (k <? 0)%Z; now rewrite firstn_nil. Qed.

Lemma py_take_prefix {A} (k : Z) (l : list A) :
exists n, py_take k l = firstn n l.
Proof. unfold py_take. destruct (k <? 0)%Z; eauto. Qed.

Lemma In_py_take {A} (k : Z) (l : list A) (x : A) : In x (py_take k l) -> In x l.
Proof.
destruct (py_take_prefix k l) as [n ->].
rewrite <- (firstn_skipn n l) at 2. intros Hin. apply in_app_iff. now left.
Qed.

(** ** The name index and [search_nodes] *)

Lemma prefix_refl (s : string) : prefix s s = true.
Proof.
induction s as [|a s IH]; simpl; [reflexivity|].
destruct (ascii_dec a a); [assumption | contradiction].
Qed.

Lemma str_in_refl (s : string) : str_in s s = true.
Proof. destruct s; cbn [str_in]; now rewrite prefix_refl. Qed.

Section IndexFacts.
Context {K : Type} `{EqKeyOk K}.
Implicit Types (idx : dict K (list string)) (k : K) (x : string).

Lemma indexed_add_same idx k x : indexed (index_add k x idx) k x.
Proof.
  unfold indexed, index_add. eexists. split; [apply get_set_eq|].
  apply In_set_add. now left.
Qed.

Lemma indexed_add_mono idx k x k' x' :
  indexed idx k x -> indexed (index_add k' x' idx) k x.
Proof.
  intros [ids [G Hin]]. unfold indexed, index_add.
  key_cases k' k.
  - eexists. split; [apply get_set_eq|].
    rewrite G. simpl. apply In_set_add. now right.
  - exists ids. split; [|assumption]. now rewrite get_set_ne.
Qed.
End IndexFacts.

Lemma index_words_mono words id idx k x :
indexed idx k x ->
indexed (fold_left (fun idx word =>
                      if 1 <? String.length word
                      then index_add word id idx else idx) words idx) k x.
Proof.
revert idx. induction words as [|w words IH]; intros idx Hi; simpl; [assumption|].
apply IH. destruct (1 <? String.length w); [now apply indexed_add_mono | assumption].
Qed.

Lemma index_words_token words id idx T :
In T words -> 1 < String.length T ->
indexed (fold_left (fun idx word =>
                      if 1 <? String.length word
                      then index_add word id idx else idx) words idx) T id.
Proof.
revert idx. induction words as [|w words IH]; intros idx Hin Hlen; simpl; [destruct Hin|].
destruct Hin as [->|Hin]; [|now apply IH].
apply index_words_mono.
apply Nat.ltb_lt in Hlen. rewrite Hlen. apply indexed_add_same.
Qed.

Lemma index_node_name_mono idx node k x :
indexed idx k x -> indexed (index_node_name idx node) k x.
Proof.
intros Hi. unfold index_node_name.
now apply index_words_mono, indexed_add_mono.
Qed.

Lemma name_index_token (ns : list GraphNode) idx n T :
In n ns -> In T (split (name n)) -> 1 < String.length T ->
indexed (fold_left index_node_name ns idx) T (node_id n).
Proof.
revert idx. induction ns as [|m ns IH]; intros idx Hin HT Hlen; simpl; [destruct Hin|].
destruct Hin as [->|Hin]; [|now apply IH].
assert (forall l i, indexed i T (node_id n) ->
                    indexed (fold_left index_node_name l i) T (node_id n)) as Mono.
{ induction l as [|a l IHl]; intros i Hi; simpl; [assumption|].
  apply IHl. now apply index_node_name_mono. }
apply Mono. unfold index_node_name. now apply index_words_token.
Qed.

Lemma type_index_node (ns : list GraphNode) idx n :
In n ns ->
indexed (fold_left (fun idx node => index_add (node_type node) (node_id node) idx)
                   ns idx) (node_type n) (node_id n).
Proof.
revert idx. induction ns as [|m ns IH]; intros idx Hin; simpl; [destruct Hin|].
destruct Hin as [->|Hin]; [|now apply IH].
assert (forall l i, indexed i (node_type n) (node_id n) ->
          indexed (fold_left (fun idx node =>
                                index_add (node_type node) (node_id node) idx)
                             l i) (node_type n) (node_id n)) as Mono.
{ induction l as [|a l IHl]; intros i Hi; simpl; [assumption|].
  apply IHl. now apply indexed_add_mono. }
apply Mono. apply indexed_add_same.
Qed.

Lemma candidates_fold (ql : string) (items : dict string (list string))
(acc : list string) (x : string) :
In x acc
\/ (exists nm ids, In (nm, ids) items
                   /\ str_in ql (lower nm) = true /\ In x ids) ->
In x (fold_left (fun cand '(nm, node_ids) =>
                   if str_in ql (lower nm)
                   then set_update cand node_ids else cand) items acc).
Proof.
revert acc. induction items as [|[nm ids] items IH]; intros acc Hx; simpl.
- destruct Hx as [?|(? & ? & [] & _)]. assumption.
- apply IH. destruct Hx as [Hx|(nm' & ids' & [[= <- <-]|Hin] & S & Hi)].
  + left. destruct (str_in ql (lower nm)); [|assumption].
    apply In_set_update. now left.
  + left. rewrite S. apply In_set_update. now right.
  + right. eauto.
Qed.

Lemma length_candidate_nodes (g : RecipeGraph) (cands : list string) :
List.length (candidate_nodes g cands) <= List.length cands.
Proof.
induction cands as [|c cands IH]; simpl; [lia|].
rewrite length_app. pose proof (length_opt_to_list (get_node c g)). lia.
Qed.

(** C6: after the indexes were built from the graph, a node whose name
  has a whitespace-delimited token [T] longer than one character is
  among the candidates of [search_nodes(T)] (also with the node's own
  type as filter), its node object is among the nodes that get ranked,
  and it is in the result whenever the limit is at least the number of
  candidates. *)
Theorem search_nodes_token (ops : list graph_op) (n : GraphNode) (T : string)
(nt : option NodeType) (limit : Z) :
In n (Dict.values (nodes (build ops))) ->
In T (split (name n)) ->
1 < String.length T ->
nt = None \/ nt = Some (node_type n) ->
let st := _build_indexes (build ops) in
In (node_id n) (search_candidates st T nt)
/\ In n (candidate_nodes (build ops) (search_candidates st T nt))
/\ ((Z.of_nat (List.length (search_candidates st T nt)) <= limit)%Z ->
    In n (search_nodes (mkEngine (build ops) st) T nt limit)).
Proof.
intros Hn HT Hlen Hnt st.
assert (In (node_id n) (search_candidates st T nt)) as Hc.
{ assert (In (node_id n) (search_candidates st T None)) as Hc0.
  { unfold search_candidates. apply candidates_fold. right.
    destruct (name_index_token (Dict.values (nodes (build ops))) [] n T
                Hn HT Hlen) as [ids [G Hi]].
    exists T, ids. split; [now apply get_In|].
    split; [apply str_in_refl | assumption]. }
  destruct Hnt as [->| ->]; [assumption|].
  unfold search_candidates in *. apply In_set_inter. split; [assumption|].
  destruct (type_index_node (Dict.values (nodes (build ops))) [] n Hn)
    as [ids [G Hi]].
  subst st. simpl. rewrite G. exact Hi. }
assert (In n (candidate_nodes (build ops) (search_candidates st T nt))) as Hcn.
{ unfold candidate_nodes. apply in_flat_map. exists (node_id n).
  split; [assumption|].
  rewrite (get_node_value (build ops) n (graph_inv_build ops) Hn). now left. }
repeat split; try assumption.
intros Hl. unfold search_nodes. simpl graph. simpl storage.
rewrite py_take_all.
- now apply In_sort_desc.
- rewrite (Permutation_length (sort_desc_perm _ _)).
  pose proof (length_candidate_nodes (build ops) (search_candidates st T nt)).
  lia.
Qed.

(** ** Names that resolve to no node *)

Lemma flat_map_nil {A B} (f : A -> list B) (l : list A) :
Forall (fun x => f x = []) l -> flat_map f l = [].
Proof.
induction 1 as [|x l Hx _ IH]; simpl; [reflexivity|]. now rewrite Hx, IH.
Qed.

Lemma find_dishes_by_ingredients_nil E names require_all :
Forall (fun nm => search_nodes E nm (Some INGREDIENT) 10 = []) names ->
find_dishes_by_ingredients E names require_all = [].
Proof.
intros Hall. unfold find_dishes_by_ingredients.
now rewrite (flat_map_nil _ _ Hall).
Qed.

Lemma recommend_dishes_by_ingredients_nil E names k :
Forall (fun nm => search_nodes E nm (Some INGREDIENT) 10 = []) names ->
recommend_dishes_by_ingredients E names k = [].
Proof.
intros Hall. unfold recommend_dishes_by_ingredients.
rewrite find_dishes_by_ingredients_nil by assumption. apply py_take_nil.
Qed.

Lemma recommend_by_cooking_method_nil E nm k :
search_nodes E nm (Some COOKING_METHOD) 10 = [] ->
recommend_by_cooking_method E nm k = [].
Proof.
intros Hs. unfold recommend_by_cooking_method,
  find_ingredients_by_cooking_method.
rewrite Hs. simpl. apply py_take_nil.
Qed.

Lemma recommend_by_category_nil E nm k :
search_nodes E nm (Some CATEGORY) 10 = [] ->
recommend_by_category E nm k = [].
Proof. intros Hs. unfold recommend_by_category. now rewrite Hs. Qed.

Lemma recommend_similar_dishes_nil E nm k :
search_nodes E nm (Some DISH) 10 = [] ->
recommend_similar_dishes E nm k = [].
Proof.
intros Hs. unfold recommend_similar_dishes, find_similar_dishes.
rewrite Hs. simpl. apply py_take_nil.
Qed.

(** C8: an operation of the query engine or of the recommendation
  engine whose name argument resolves to no node (of the node type the
  operation searches for) returns the empty list.  The functions are
  total, so no exception is raised. *)
Theorem not_found_gives_empty_result (E : GraphQueryEngine)
(math_log : Z -> Q) (nm : string) :
(search_nodes E nm (Some INGREDIENT) 10 = [] ->
 (forall min_cooccurrence, find_ingredient_pairs E nm min_cooccurrence = [])
 /\ (forall require_all, find_dishes_by_ingredients E [nm] require_all = [])
 /\ find_cooking_methods_for_ingredient E nm = []
 /\ get_ingredient_substitution_suggestions E nm = []
 /\ (forall other max_depth,
       find_path_between_ingredients E nm other max_depth = []
       /\ find_path_between_ingredients E other nm max_depth = [])
 /\ (forall k, recommend_dishes_by_ingredients E [nm] k = [])
 /\ (forall k, recommend_ingredient_substitutions E nm k = []))
/\ (search_nodes E nm (Some DISH) 10 = [] ->
    (forall limit, find_similar_dishes E nm limit = [])
    /\ (forall k, recommend_ingredients_by_dish math_log E nm k = [])
    /\ (forall k, recommend_similar_dishes E nm k = []))
/\ (search_nodes E nm (Some COOKING_METHOD) 10 = [] ->
    find_ingredients_by_cooking_method E nm = []
    /\ (forall k, recommend_by_cooking_method E nm k = []))
/\ (search_nodes E nm (Some CATEGORY) 10 = [] ->
    forall k, recommend_by_category E nm k = [])
/\ (forall names require_all k,
      Forall (fun x => search_nodes E x (Some INGREDIENT) 10 = []) names ->
      find_dishes_by_ingredients E names require_all = []
      /\ recommend_dishes_by_ingredients E names k = [])
/\ (forall prefs k,
      all_unresolved E INGREDIENT (available_ingredients prefs) ->
      all_unresolved E COOKING_METHOD (preferred_cooking_methods prefs) ->
      all_unresolved E CATEGORY (preferred_categories prefs) ->
      all_unresolved E DISH (favorite_dishes prefs) ->
      hybrid_recommend E prefs k = []).
Proof.
repeat apply conj.
- intros Hs. repeat apply conj; intros.
  + unfold find_ingredient_pairs. now rewrite Hs.
  + apply find_dishes_by_ingredients_nil. now constructor.
  + unfold find_cooking_methods_for_ingredient. now rewrite Hs.
  + unfold get_ingredient_substitution_suggestions. now rewrite Hs.
  + unfold find_path_between_ingredients. rewrite Hs. simpl.
    now rewrite orb_true_r.
  + apply recommend_dishes_by_ingredients_nil. now constructor.
  + unfold recommend_ingredient_substitutions,
      get_ingredient_substitution_suggestions.
    rewrite Hs. simpl. apply py_take_nil.
- intros Hs. repeat apply conj; intros.
  + unfold find_similar_dishes. now rewrite Hs.
  + unfold recommend_ingredients_by_dish. now rewrite Hs.
  + now apply recommend_similar_dishes_nil.
- intros Hs. split; intros.
  + unfold find_ingredients_by_cooking_method. now rewrite Hs.
  + now apply recommend_by_cooking_method_nil.
- intros Hs k. now apply recommend_by_category_nil.
- intros names require_all k Hall. split.
  + now apply find_dishes_by_ingredients_nil.
  + now apply recommend_dishes_by_ingredients_nil.
- intros prefs k Ha Hm Hc Hd.
  unfold hybrid_recommend, hybrid_all_recommendations.
  unfold all_unresolved in *.
  rewrite (flat_map_nil (fun m => recommend_by_cooking_method E m k)
             (default (preferred_cooking_methods prefs) [])).
  2:{ eapply Forall_impl; [|exact Hm]. intros a Hn.
      now apply recommend_by_cooking_method_nil. }
  rewrite (flat_map_nil (fun c => recommend_by_category E c k)
             (default (preferred_categories prefs) [])).
  2:{ eapply Forall_impl; [|exact Hc]. intros a Hn.
      now apply recommend_by_category_nil. }
  rewrite (flat_map_nil (fun d => recommend_similar_dishes E d k)
             (default (favorite_dishes prefs) [])).
  2:{ eapply Forall_impl; [|exact Hd]. intros a Hn.
      now apply recommend_similar_dishes_nil. }
  destruct (available_ingredients prefs) as [l|]; simpl in Ha |- *.
  + rewrite recommend_dishes_by_ingredients_nil by assumption.
    simpl. apply py_take_nil.
  + apply py_take_nil.
Qed.

(** ** Ranking of recommendation lists *)

Lemma Qgtb_true (a b : Q) : Qgtb a b = true <-> (b < a)%Q.
Proof.
unfold Qgtb. rewrite negb_true_iff. split.
- intros E. apply Qnot_le_lt. intros L. apply Qle_bool_iff in L. congruence.
- intros L. destruct (Qle_bool a b) eqn:E; [|reflexivity].
  apply Qle_bool_iff in E. exfalso. eapply Qlt_not_le; eauto.
Qed.

Lemma Qgtb_false (a b : Q) : Qgtb a b = false <-> (a <= b)%Q.
Proof.
unfold Qgtb. rewrite negb_false_iff. apply Qle_bool_iff.
Qed.

Section SortByKey.
Context {A : Type} (key : A -> Q).

Let gt (a b : A) : bool := Qgtb (key a) (key b).
Let ge_key (a b : A) : Prop := (key b <= key a)%Q.

Lemma insert_desc_sorted (x : A) (l : list A) :
  StronglySorted ge_key l -> StronglySorted ge_key (insert_desc gt x l).
Proof.
  induction 1 as [|y l Hs IH Hy]; simpl.
  - repeat constructor.
  - destruct (gt y x) eqn:G; unfold gt in G.
    + apply Qgtb_true in G. constructor; [assumption|].
      eapply Permutation_Forall; [symmetry; apply insert_desc_perm|].
      constructor; [|assumption]. unfold ge_key. now apply Qlt_le_weak.
    + apply Qgtb_false in G. constructor; [now constructor|].
      constructor; [exact G|].
      eapply Forall_impl; [|exact Hy]. intros z Hz. unfold ge_key in *.
      eapply Qle_trans; eauto.
Qed.

Lemma sort_desc_sorted (l : list A) : StronglySorted ge_key (sort_desc gt l).
Proof.
  induction l as [|x l IH]; simpl; [constructor | now apply insert_desc_sorted].
Qed.

Lemma insert_desc_filter (q : Q) (x : A) (l : list A) :
  filter (fun a => Qeq_bool (key a) q) (insert_desc gt x l)
  = filter (fun a => Qeq_bool (key a) q) (x :: l).
Proof.
  induction l as [|y l IH]; simpl; [reflexivity|].
  destruct (gt y x) eqn:G; [|reflexivity]. simpl. rewrite IH. simpl.
  destruct (Qeq_bool (key x) q) eqn:Ex; [|reflexivity].
  destruct (Qeq_bool (key y) q) eqn:Ey; [|reflexivity].
  exfalso. unfold gt in G. apply Qgtb_true in G.
  apply Qeq_bool_iff in Ex, Ey. rewrite Ex, Ey in G.
  exact (Qlt_irrefl _ G).
Qed.

Lemma sort_desc_stable (q : Q) (l : list A) :
  filter (fun a => Qeq_bool (key a) q) (sort_desc gt l)
  = filter (fun a => Qeq_bool (key a) q) l.
Proof.
  induction l as [|x l IH]; simpl; [reflexivity|].
  rewrite insert_desc_filter. simpl. now rewrite IH.
Qed.
End SortByKey.

Lemma StronglySorted_firstn {A} (R : A -> A -> Prop) (n : nat) (l : list A) :
StronglySorted R l -> StronglySorted R (firstn n l).
Proof.
intros Hs. revert n. induction Hs as [|x l Hs IH Hx]; intros [|n]; simpl;
  try constructor.
- apply IH.
- apply Forall_forall. intros y Hy. rewrite Forall_forall in Hx. apply Hx.
  rewrite <- (firstn_skipn n l). apply in_app_iff. now left.
Qed.

Lemma sorted_desc_py_take (k : Z) (l : list Recommendation) :
sorted_desc l -> sorted_desc (py_take k l).
Proof.
intros Hs. destruct (py_take_prefix k l) as [n ->].
now apply StronglySorted_firstn.
Qed.

Lemma sort_recommendations_sorted (l : list Recommendation) :
sorted_desc (sort_recommendations l).
Proof. apply (sort_desc_sorted score). Qed.


Lemma NoDup_firstn {A} (n : nat) (l : list A) : NoDup l -> NoDup (firstn n l).
Proof.
intros ND. rewrite <- (firstn_skipn n l) in ND. now apply NoDup_app_remove_r in ND.
Qed.

(** *** Deduplication *)

Lemma In_set_strong {K V} `{EqKeyOk K} (k k' : K) (v v' : V) (d : dict K V) :
NoDup (Dict.keys d) ->
In (k', v') (Dict.set k v d) ->
(k' = k /\ v' = v) \/ (k' <> k /\ In (k', v') d).
Proof.
induction d as [|[k0 v0] d IH]; simpl; intros ND.
- intros [[= <- <-]|[]]. now left.
- inversion ND as [|? ? Hk ND']; subst.
  key_cases k k0; simpl.
  + intros [[= <- <-]|Hin]; [now left|].
    right. split; [|now right].
    intros ->. apply Hk. apply (in_map fst) in Hin. exact Hin.
  + intros [[= <- <-]|Hin]; [right; split; [congruence | now left]|].
    destruct (IH ND' Hin) as [?|[? ?]]; [now left | right; auto].
Qed.

Lemma In_first_occurrences (x : string) (l : list string) :
In x (first_occurrences l) <-> In x l.
Proof.
induction l as [|a l IH]; simpl; [tauto|].
rewrite filter_In, IH, negb_true_iff, String.eqb_neq.
destruct (string_dec a x); intuition.
Qed.

Lemma first_occurrences_snoc (l : list string) (x : string) :
first_occurrences (l ++ [x])
= if in_dec string_dec x l
  then first_occurrences l else first_occurrences l ++ [x].
Proof.
induction l as [|a l IH]; [reflexivity|].
change ((a :: l) ++ [x]) with (a :: (l ++ [x])).
cbn [first_occurrences]. rewrite IH.
destruct (in_dec string_dec x l) as [Hin|Hn];
  destruct (in_dec string_dec x (a :: l)) as [Hin'|Hn'].
- reflexivity.
- exfalso. apply Hn'. now right.
- destruct Hin' as [->|?]; [|contradiction].
  rewrite filter_app. simpl. rewrite String.eqb_refl. simpl.
  now rewrite app_nil_r.
- rewrite filter_app. simpl.
  assert ((x =? a)%string = false) as ->.
  { apply String.eqb_neq. intros ->. apply Hn'. now left. }
  reflexivity.
Qed.

Lemma dedup_inv_step u done r :
dedup_inv u done -> dedup_inv (keep_best u r) (done ++ [r]).
Proof.
intros [I1 I2 I3 I4]. unfold keep_best. fold (item_name r).
destruct (Dict.get (item_name r) u) as [old|] eqn:G.
- pose proof (get_In _ _ _ G) as Hold.
  destruct (I2 _ _ Hold) as (On & Od & Om).
  assert (In (item_name r) (map item_name done)) as Hseen.
  { apply in_map_iff. exists old. auto. }
  assert (first_occurrences (map item_name (done ++ [r]))
          = first_occurrences (map item_name done)) as Ho.
  { rewrite map_app. simpl. rewrite first_occurrences_snoc.
    destruct (in_dec string_dec _ _); [reflexivity | contradiction]. }
  destruct (Qgtb (score r) (score old)) eqn:C.
  + apply Qgtb_true in C. constructor.
    * now apply NoDup_keys_set.
    * intros k r0 Hin.
      apply In_set_strong in Hin as [[-> ->]|[Nk Hin]]; [| |assumption].
      -- split; [reflexivity|]. split; [apply in_app_iff; right; now left|].
         intros r' Hr' Hn. apply in_app_iff in Hr' as [Hr'|[<-|[]]].
         ++ apply Qle_trans with (score old); [auto | now apply Qlt_le_weak].
         ++ apply Qle_refl.
      -- destruct (I2 _ _ Hin) as (A & B & C').
         split; [assumption|]. split; [apply in_app_iff; now left|].
         intros r' Hr' Hn. apply in_app_iff in Hr' as [Hr'|[<-|[]]]; [auto|].
         congruence.
    * intros r' Hr'. rewrite keys_set_present.
      -- apply in_app_iff in Hr' as [Hr'|[<-|[]]]; [auto|].
         apply (in_map fst) in Hold. exact Hold.
      -- apply (in_map fst) in Hold. exact Hold.
    * rewrite keys_set_present; [congruence|].
      apply (in_map fst) in Hold. exact Hold.
  + apply Qgtb_false in C. constructor.
    * assumption.
    * intros k r0 Hin. destruct (I2 _ _ Hin) as (A & B & C').
      split; [assumption|]. split; [apply in_app_iff; now left|].
      intros r' Hr' Hn. apply in_app_iff in Hr' as [Hr'|[<-|[]]]; [auto|].
      rewrite <- Hn in Hin. apply (In_get _ _ _ I1) in Hin.
      rewrite G in Hin. injection Hin as <-. exact C.
    * intros r' Hr'. apply in_app_iff in Hr' as [Hr'|[<-|[]]]; [auto|].
      apply (in_map fst) in Hold. exact Hold.
    * congruence.
- pose proof G as Gn. apply get_None_keys in Gn.
  assert (~ In (item_name r) (map item_name done)) as Hnew.
  { intros Hin. apply in_map_iff in Hin as [r' [En Hr']].
    apply Gn. rewrite <- En. auto. }
  rewrite set_fresh by assumption. constructor.
  + unfold Dict.keys. rewrite map_app. simpl. now apply NoDup_snoc.
  + intros k r0 Hin. apply in_app_iff in Hin as [Hin|[[= <- <-]|[]]].
    * destruct (I2 _ _ Hin) as (A & B & C').
      split; [assumption|]. split; [apply in_app_iff; now left|].
      intros r' Hr' Hn. apply in_app_iff in Hr' as [Hr'|[<-|[]]]; [auto|].
      exfalso. apply Gn. rewrite Hn. apply (in_map fst) in Hin. exact Hin.
    * split; [reflexivity|]. split; [apply in_app_iff; right; now left|].
      intros r' Hr' Hn. apply in_app_iff in Hr' as [Hr'|[<-|[]]].
      -- exfalso. apply Hnew. rewrite <- Hn. now apply in_map.
      -- apply Qle_refl.
  + intros r' Hr'. unfold Dict.keys. rewrite map_app. apply in_app_iff.
    apply in_app_iff in Hr' as [Hr'|[<-|[]]]; [left; auto | right; now left].
  + unfold Dict.keys. rewrite !map_app. simpl.
    rewrite first_occurrences_snoc.
    destruct (in_dec string_dec _ _); [contradiction|].
    unfold Dict.keys in I4. now rewrite I4.
Qed.

Lemma dedup_inv_fold recs u done :
dedup_inv u done -> dedup_inv (fold_left keep_best recs u) (done ++ recs).
Proof.
revert u done. induction recs as [|r recs IH]; intros u done I; simpl.
- now rewrite app_nil_r.
- replace (done ++ r :: recs) with ((done ++ [r]) ++ recs)
    by now rewrite <- app_assoc.
  apply IH. now apply dedup_inv_step.
Qed.

Lemma dedup_inv_unique recs : dedup_inv (unique_recommendations recs) recs.
Proof.
apply (dedup_inv_fold recs [] []). constructor; simpl; try constructor; tauto.
Qed.

Lemma unique_names recs :
map item_name (Dict.values (unique_recommendations recs))
= Dict.keys (unique_recommendations recs).
Proof.
pose proof (di_best _ _ (dedup_inv_unique recs)) as Hb.
unfold Dict.values, Dict.keys. rewrite map_map.
apply map_ext_in. intros [k r] Hin. simpl. now destruct (Hb k r Hin).
Qed.

Lemma unique_deduplicated recs :
deduplicated recs (Dict.values (unique_recommendations recs)).
Proof.
pose proof (dedup_inv_unique recs) as [I1 I2 I3 I4]. split.
- now rewrite unique_names.
- intros r Hr. apply in_map_iff in Hr as [[k r0] [E Hin]]. simpl in E. subst r0.
  destruct (I2 k r Hin) as (A & B & C). split; [assumption|].
  intros r' Hr' Hn. apply C; congruence.
Qed.

Lemma deduplicated_perm_prefix recs U S n :
deduplicated recs U -> Permutation S U -> deduplicated recs (firstn n S).
Proof.
intros [ND Hb] P. split.
- rewrite <- firstn_map. apply NoDup_firstn.
  eapply Permutation_NoDup; [|exact ND].
  apply Permutation_map. now symmetry.
- intros r Hr. apply Hb. eapply Permutation_in; [exact P|].
  rewrite <- (firstn_skipn n S). apply in_app_iff. now left.
Qed.

Lemma merge_ranked recs k : ranked recs (_merge_recommendations recs k) k.
Proof.
exists (Dict.values (unique_recommendations recs)).
pose proof (unique_deduplicated recs) as Hd.
repeat apply conj.
- rewrite unique_names. apply (dedup_inv_unique recs).
- apply Hd.
- apply Hd.
- apply sort_desc_perm.
- apply sort_recommendations_sorted.
- intros q. apply (sort_desc_stable score).
- reflexivity.
- unfold _merge_recommendations.
  destruct (py_take_prefix k (sort_recommendations
              (Dict.values (unique_recommendations recs)))) as [n ->].
  eapply deduplicated_perm_prefix; [exact Hd | apply sort_desc_perm].
- unfold _merge_recommendations.
  destruct (py_take_prefix k (sort_recommendations
              (Dict.values (unique_recommendations recs)))) as [n ->].
  eapply deduplicated_perm_prefix; [exact Hd | apply sort_desc_perm].
- apply sorted_desc_py_take, sort_recommendations_sorted.
Qed.



Lemma recommend_ingredients_by_dish_merge math_log E dish k :
recommend_ingredients_by_dish math_log E dish k
= _merge_recommendations
    (pair_recommendations math_log E (search_nodes E dish (Some DISH) 10)) k.
Proof.
unfold recommend_ingredients_by_dish.
destruct (search_nodes E dish (Some DISH) 10) eqn:S; simpl.
- unfold _merge_recommendations. simpl. now rewrite py_take_nil.
- reflexivity.
Qed.


(** ** Breadth-first search: termination *)

Lemma get_neighbors_values (g : RecipeGraph) (id : string)
(et : option EdgeType) (w : GraphNode) :
In w (get_neighbors id et g) -> In w (Dict.values (nodes g)).
Proof.
assert (forall k, In w (opt_to_list (get_node k g)) ->
                  In w (Dict.values (nodes g))) as Hv.
{ intros k. unfold get_node. destruct (Dict.get k (nodes g)) eqn:G; simpl; [|tauto].
  intros [<-|[]]. apply get_In in G. apply (in_map snd) in G. exact G. }
unfold get_neighbors, outgoing_neighbors, incoming_neighbors.
rewrite in_app_iff. intros [Hin|Hin].
- destruct (Dict.get id (adjacency_list g)); [|destruct Hin].
  apply in_flat_map in Hin as [[t es] [_ Hin]].
  destruct (type_matches et es); [eauto | destruct Hin].
- apply in_flat_map in Hin as [[s td] [_ Hin]].
  destruct (Dict.get id td); [|destruct Hin].
  destruct (type_matches et l); [eauto | destruct Hin].
Qed.

Lemma filter_length_remove {A} (P Q : A -> bool) (x : A) (l : list A) :
In x l -> P x = true -> Q x = false ->
(forall y, Q y = true -> P y = true) ->
List.length (filter Q l) < List.length (filter P l).
Proof.
intros Hin Px Qx Hsub.
assert (forall l', List.length (filter Q l') <= List.length (filter P l')) as Hle.
{ induction l' as [|y l' IH]; simpl; [lia|].
  destruct (Q y) eqn:Qy.
  - rewrite (Hsub y Qy). simpl. lia.
  - destruct (P y); simpl; lia. }
induction l as [|y l IH]; simpl; [destruct Hin|].
destruct Hin as [->|Hin].
- rewrite Px, Qx. simpl. specialize (Hle l). lia.
- specialize (IH Hin). destruct (Q y) eqn:Qy.
  + rewrite (Hsub y Qy). simpl. lia.
  + destruct (P y); simpl; lia.
Qed.

Lemma set_add_fresh (x : string) (V : list string) :
set_mem x V = false -> set_add x V = V ++ [x].
Proof. unfold set_add. now intros ->. Qed.

Lemma unvisited_add (g : RecipeGraph) (V : list string) (w : GraphNode) :
In w (Dict.values (nodes g)) ->
set_mem (node_id w) V = false ->
List.length (unvisited g (set_add (node_id w) V))
< List.length (unvisited g V).
Proof.
intros Hw Hm. unfold unvisited.
apply filter_length_remove with (x := node_id w).
- now apply in_map.
- now rewrite Hm.
- apply negb_false_iff, set_mem_In, In_set_add. now left.
- intros y Hy. apply negb_true_iff in Hy. apply negb_true_iff.
  destruct (set_mem y V) eqn:My; [|reflexivity].
  apply set_mem_In in My.
  assert (set_mem y (set_add (node_id w) V) = true) as C.
  { apply set_mem_In, In_set_add. now right. }
  congruence.
Qed.

Lemma scan_measure (g : RecipeGraph) (end_id : string) (p nbrs : list GraphNode)
(V : list string) (Q : list entry) (V2 : list string) (Q2 : list entry) :
(forall w, In w nbrs -> In w (Dict.values (nodes g))) ->
scan_neighbors end_id p nbrs V Q = Continue V2 Q2 ->
bfs_measure g Q2 V2 <= bfs_measure g Q V.
Proof.
revert V Q. induction nbrs as [|w nbrs IH]; intros V Q Hv; simpl.
- intros [= <- <-]. lia.
- destruct (String.eqb (node_id w) end_id); [discriminate|].
  destruct (set_mem (node_id w) V) eqn:M.
  + apply IH. intros; apply Hv; now right.
  + intros Hs. apply IH in Hs; [|intros; apply Hv; now right].
    pose proof (unvisited_add g V w (Hv w (or_introl eq_refl)) M).
    unfold bfs_measure in *. rewrite length_app in Hs. simpl in Hs. lia.
Qed.

Lemma bfs_loop_terminates (g : RecipeGraph) (end_id : string) (max_depth : Z)
(fuel : nat) (Q : list entry) (V : list string) :
bfs_measure g Q V < fuel ->
exists r, bfs_loop fuel g end_id max_depth Q V = Some r.
Proof.
revert Q V. induction fuel as [|fuel IH]; intros Q V Hm; [lia|].
simpl. destruct Q as [|[current path] Q]; [eauto|].
unfold bfs_measure in Hm. simpl in Hm.
destruct (max_depth <? Z.of_nat (List.length path))%Z.
- apply IH. unfold bfs_measure. lia.
- destruct (scan_neighbors _ _ _ _ _) as [p|V2 Q2] eqn:S; [eauto|].
  apply IH. apply (scan_measure g) in S.
  + unfold bfs_measure in *. lia.
  + intros w. apply get_neighbors_values.
Qed.

Lemma bfs_fuel_enough (g : RecipeGraph) (start : GraphNode) :
bfs_measure g [(start, [start])] [node_id start] < bfs_fuel g.
Proof.
unfold bfs_measure, bfs_fuel, unvisited.
pose proof (filter_length_le
              (fun id => negb (set_mem id [node_id start]))
              (map node_id (Dict.values (nodes g)))) as Hl.
unfold Dict.values in *. rewrite !length_map in Hl.
cbn [List.length]. lia.
Qed.

(** ** Breadth-first search: correctness *)

Lemma In_mid {A} (x a : A) (D R : list A) :
In x ((D ++ [a]) ++ R) <-> In x (D ++ a :: R).
Proof. rewrite <- app_assoc. reflexivity. Qed.

Lemma StronglySorted_app {A} (R : A -> A -> Prop) (l1 l2 : list A) :
StronglySorted R l1 -> StronglySorted R l2 ->
(forall a b, In a l1 -> In b l2 -> R a b) ->
StronglySorted R (l1 ++ l2).
Proof.
induction 1 as [|x l1 Hs IH Hx]; intros H2 Hc; simpl; [assumption|].
constructor.
- apply IH; [assumption|]. intros a b Ha Hb. apply Hc; [now right | assumption].
- apply Forall_app. split; [assumption|].
  apply Forall_forall. intros b Hb. apply Hc; [now left | assumption].
Qed.

Lemma StronglySorted_all {A} (R : A -> A -> Prop) (l : list A) :
(forall a b, In a l -> In b l -> R a b) -> StronglySorted R l.
Proof.
induction l as [|x l IH]; intros Hc; constructor.
- apply IH. intros a b Ha Hb. apply Hc; now right.
- apply Forall_forall. intros b Hb. apply Hc; [now left | now right].
Qed.

Section BFSCorrect.
Variables (g : RecipeGraph) (start : GraphNode) (end_id : string)
          (max_depth : Z).
Hypothesis start_not_end : node_id start <> end_id.

Lemma is_walk_snoc (p : list GraphNode) (w : GraphNode) :
  is_walk g p -> p <> [] -> neighbor g (last p start) w ->
  is_walk g (p ++ [w]).
Proof.
  induction p as [|x p IH]; [congruence|].
  destruct p as [|y p]; simpl.
  - intros _ _ Hn. auto.
  - intros [Hxy Hw] _ Hn. split; [assumption|].
    apply IH; [assumption | discriminate | exact Hn].
Qed.

Lemma walk_to_snoc (u w : GraphNode) (p : list GraphNode) :
  walk_to g start u p -> neighbor g u w -> walk_to g start w (p ++ [w]).
Proof.
  intros (Hh & Hl & Hw) Hn. repeat split.
  - destruct p; [discriminate | exact Hh].
  - apply last_last.
  - apply is_walk_snoc; [assumption | | now rewrite Hl].
    intros ->. discriminate.
Qed.

Lemma scan_found (p nbrs : list GraphNode) (V : list string) (Q : list entry)
  (path : list GraphNode) :
  scan_neighbors end_id p nbrs V Q = Found path ->
  exists w, In w nbrs /\ node_id w = end_id /\ path = p ++ [w].
Proof.
  revert V Q. induction nbrs as [|w nbrs IH]; intros V Q; simpl; [discriminate|].
  destruct (String.eqb_spec (node_id w) end_id) as [E|N].
  - intros [= <-]. exists w. auto.
  - destruct (set_mem (node_id w) V); intros Hs;
      apply IH in Hs as (w' & ? & ? & ?); exists w'; auto.
Qed.

Lemma scan_continue (p nbrs : list GraphNode) (V : list string)
  (Q : list entry) (V2 : list string) (Q2 : list entry) :
  scan_neighbors end_id p nbrs V Q = Continue V2 Q2 ->
  exists new,
    Q2 = Q ++ new
    /\ (forall e, In e new ->
          exists w, In w nbrs /\ e = (w, p ++ [w]) /\ ~ In (node_id w) V)
    /\ (forall id, In id V2 <->
                   In id V \/ exists e, In e new /\ node_id (fst e) = id)
    /\ (forall w, In w nbrs -> node_id w <> end_id /\ In (node_id w) V2).
Proof.
  revert V Q. induction nbrs as [|w nbrs IH]; intros V Q; simpl.
  - intros [= <- <-]. exists []. rewrite app_nil_r.
    repeat split; try tauto.
    + intros e [].
    + intros [?|(e & [] & _)]. assumption.
  - destruct (String.eqb_spec (node_id w) end_id) as [E|N]; [discriminate|].
    destruct (set_mem (node_id w) V) eqn:M; intros Hs;
      apply IH in Hs as (new & -> & Hnew & HV & Hnb).
    + apply set_mem_In in M. exists new. repeat split.
      * intros e He. destruct (Hnew e He) as (w' & ? & ? & ?).
        exists w'. auto.
      * apply HV.
      * apply HV.
      * destruct H as [<-|Hin]; [assumption | now apply Hnb].
      * destruct H as [<-|Hin]; [apply HV; now left | now apply Hnb].
    + assert (~ In (node_id w) V) as Mn.
      { intros Hin. apply set_mem_In in Hin. congruence. }
      exists ((w, p ++ [w]) :: new). repeat split.
      * now rewrite <- app_assoc.
      * intros e [<-|He]; [exists w; auto|].
        destruct (Hnew e He) as (w' & ? & ? & Hn'). exists w'.
        repeat split; auto. intros Hin. apply Hn'.
        apply In_set_add. now right.
      * intros Hid. apply HV in Hid as [Hid|(e & He & Hid)].
        -- apply In_set_add in Hid as [->|Hid]; [|now left].
           right. exists (w, p ++ [w]). split; [now left | reflexivity].
        -- right. exists e. split; [now right | assumption].
      * intros [Hid|(e & [<-|He] & Hid)]; apply HV.
        -- left. apply In_set_add. now right.
        -- left. apply In_set_add. left. simpl in Hid. congruence.
        -- right. eauto.
      * destruct H as [<-|Hin]; [assumption | now apply Hnb].
      * destruct H as [<-|Hin]; [|now apply Hnb].
        apply HV. left. apply In_set_add. now left.
Qed.

Lemma bfs_inv_init :
  bfs_inv g start end_id max_depth [] [(start, [start])] [node_id start].
Proof.
  constructor; simpl.
  - intros v p [[= <- <-]|[]]. repeat split; simpl; auto.
    + repeat constructor. simpl. tauto.
    + intros x Hx. exact Hx.
  - now left.
  - intros v p [].
  - repeat constructor.
  - intros a b [<-|[]] [<-|[]]. simpl. lia.
  - intros a b [].
  - intros [E|[]]. contradiction.
  - intros id [<-|[]]. exists start, [start]. split; [now left | reflexivity].
Qed.

Lemma bfs_inv_skip D u p R V :
  bfs_inv g start end_id max_depth D ((u, p) :: R) V ->
  (max_depth < Z.of_nat (List.length p))%Z ->
  bfs_inv g start end_id max_depth (D ++ [(u, p)]) R V.
Proof.
  intros [I1 I2 I3 I4 I5 I6 I7 I8] Hskip. constructor.
  - intros v q Hin. apply In_mid in Hin. now apply I1.
  - now apply In_mid.
  - intros v q Hin Hlen w Hw. apply in_app_iff in Hin as [Hin|[[= <- <-]|[]]]; [|lia].
    destruct (I3 v q Hin Hlen w Hw) as (Hne & w' & q' & Hin' & Hid & Hl).
    split; [assumption|]. exists w', q'. split; [now apply In_mid | auto].
  - now inversion I4.
  - intros a b Ha Hb. apply I5; now right.
  - intros a b Ha Hb. apply in_app_iff in Ha as [Ha|[<-|[]]].
    + apply I6; [assumption | now right].
    + inversion I4 as [|? ? _ Hall]; subst.
      rewrite Forall_forall in Hall. now apply Hall.
  - assumption.
  - intros id Hid. destruct (I8 id Hid) as (v & q & Hin & E).
    exists v, q. split; [now apply In_mid | assumption].
Qed.
Lemma bfs_inv_expand D u p R V V2 Q2 :
  bfs_inv g start end_id max_depth D ((u, p) :: R) V ->
  scan_neighbors end_id p (get_neighbors (node_id u) None g) V R
  = Continue V2 Q2 ->
  bfs_inv g start end_id max_depth (D ++ [(u, p)]) Q2 V2.
Proof.
  intros [I1 I2 I3 I4 I5 I6 I7 I8] Hs.
  apply scan_continue in Hs as (new & -> & Hnew & HV & Hnb).
  assert (In (u, p) (D ++ (u, p) :: R)) as Hup
    by (apply in_app_iff; right; now left).
  destruct (I1 u p Hup) as (Wu & NDu & Iu).
  assert (forall a : entry, In a R ->
            List.length p <= List.length (snd a)) as Hmin.
  { inversion I4 as [|? ? _ Hall]; subst.
    rewrite Forall_forall in Hall. exact Hall. }
  assert (forall e : entry, In e new ->
            List.length (snd e) = S (List.length p)) as Hlen_new.
  { intros e He. destruct (Hnew e He) as (w & _ & -> & _). simpl.
    rewrite length_app. simpl. lia. }
  assert (forall e : entry, In e (D ++ (u, p) :: R) ->
            List.length (snd e) <= S (List.length p)) as Hlen_old.
  { intros e He. apply in_app_iff in He as [He|[<-|He]].
    - specialize (I6 e (u, p) He (or_introl eq_refl)). simpl in I6. lia.
    - simpl. lia.
    - specialize (I5 (u, p) e (or_introl eq_refl) (or_intror He)).
      simpl in I5. lia. }
  assert (forall x, In x (D ++ (u, p) :: R) ->
                    In x ((D ++ [(u, p)]) ++ R ++ new)) as Hold.
  { intros x Hx. rewrite app_assoc. apply in_app_iff. left.
    now apply In_mid. }
  assert (forall x, In x new -> In x ((D ++ [(u, p)]) ++ R ++ new)) as Hin_new.
  { intros x Hx. rewrite app_assoc. apply in_app_iff. now right. }
  constructor.
  - intros v q Hin. rewrite app_assoc in Hin.
    apply in_app_iff in Hin as [Hin|Hin].
    + apply In_mid in Hin. destruct (I1 v q Hin) as (A & B & C).
      split; [exact A|]. split; [exact B|].
      intros x Hx. apply HV. left. now apply C.
    + destruct (Hnew _ Hin) as (w & Hw & [= -> ->] & Hfresh).
      split; [|split].
      * apply walk_to_snoc with (u := u); assumption.
      * rewrite map_app. simpl. apply NoDup_snoc; [assumption|].
        intros Hx. apply Hfresh. now apply Iu.
      * intros x Hx. rewrite map_app in Hx.
        apply in_app_iff in Hx as [Hx|[<-|[]]].
        -- apply HV. left. now apply Iu.
        -- now apply Hnb.
  - apply Hold. exact I2.
  - intros v q Hin Hlen w Hw.
    apply in_app_iff in Hin as [Hin|[[= <- <-]|[]]].
    + destruct (I3 v q Hin Hlen w Hw) as (Hne & w' & q' & Hin' & Hid & Hl).
      split; [assumption|]. exists w', q'. auto.
    + destruct (Hnb w Hw) as [Hne Hvis]. split; [assumption|].
      apply HV in Hvis as [Hvis|(e & He & Hid)].
      * destruct (I8 _ Hvis) as (w' & q' & Hin' & Hid).
        exists w', q'. split; [auto|]. split; [assumption|].
        apply (Hlen_old (w', q') Hin').
      * destruct e as [w' q']. simpl in Hid.
        pose proof (Hlen_new _ He) as Hq. simpl in Hq.
        exists w', q'. split; [auto|]. split; [assumption | lia].
  - apply StronglySorted_app.
    + now inversion I4.
    + apply StronglySorted_all. intros a b Ha Hb.
      rewrite (Hlen_new a Ha), (Hlen_new b Hb). lia.
    + intros a b Ha Hb. rewrite (Hlen_new b Hb).
      apply (Hlen_old a). apply in_app_iff. right. now right.
  - intros a b Ha Hb.
    apply in_app_iff in Ha as [Ha|Ha]; apply in_app_iff in Hb as [Hb|Hb].
    + apply I5; now right.
    + rewrite (Hlen_new b Hb). specialize (Hmin a Ha). lia.
    + rewrite (Hlen_new a Ha).
      specialize (Hlen_old b). 
      assert (In b (D ++ (u, p) :: R)) as Hb'
        by (apply in_app_iff; right; now right).
      specialize (Hlen_old Hb'). lia.
    + rewrite (Hlen_new a Ha), (Hlen_new b Hb). lia.
  - intros a b Ha Hb.
    assert (List.length (snd a) <= List.length p) as Hap.
    { apply in_app_iff in Ha as [Ha|[<-|[]]]; [|simpl; lia].
      apply (I6 a (u, p) Ha). now left. }
    apply in_app_iff in Hb as [Hb|Hb].
    + specialize (Hmin b Hb). lia.
    + rewrite (Hlen_new b Hb). lia.
  - intros Hend. apply HV in Hend as [Hend|(e & He & Hid)]; [contradiction|].
    destruct (Hnew e He) as (w & Hw & -> & _). simpl in Hid.
    now apply (Hnb w Hw).
  - intros id Hid. apply HV in Hid as [Hid|(e & He & Hid)].
    + destruct (I8 id Hid) as (v & q & Hin & E). exists v, q. auto.
    + destruct e as [v q]. exists v, q. auto.
Qed.

Lemma reach_not_end k x : reach g start end_id k x -> node_id x <> end_id.
Proof. destruct 1; assumption. Qed.

(** Every node within [k] hops is done once the queue only holds
    longer paths. *)
Lemma frontier D Q V k x :
  bfs_inv g start end_id max_depth D Q V ->
  reach g start end_id k x ->
  (forall e : entry, In e Q -> S k < List.length (snd e)) ->
  (Z.of_nat k < max_depth)%Z ->
  exists v p, In (v, p) D /\ node_id v = node_id x /\ List.length p <= S k.
Proof.
  intros I Hr. induction Hr as [|k u w Hr IH Hn Hne]; intros HQ Hk.
  - pose proof (bi_start _ _ _ _ _ _ _ I) as Hs.
    apply in_app_iff in Hs as [Hs|Hs].
    + exists start, [start]. simpl. auto.
    + specialize (HQ _ Hs). simpl in HQ. lia.
  - destruct IH as (v & p & Hin & Hid & Hl).
    { intros e He. specialize (HQ e He). lia. }
    { lia. }
    assert (neighbor g v w) as Hvw by (unfold neighbor in *; now rewrite Hid).
    destruct (bi_done _ _ _ _ _ _ _ I v p Hin ltac:(lia) w Hvw)
      as (_ & w' & q & Hin' & Hid' & Hl').
    apply in_app_iff in Hin' as [Hin'|Hin'].
    + exists w', q. repeat split; auto. lia.
    + specialize (HQ _ Hin'). simpl in HQ. lia.
Qed.

(** A walk to the end node passes, just before its first node with
    the end id, a node reached without meeting that id. *)
Lemma first_end rest x k :
  reach g start end_id k x ->
  is_walk g (x :: rest) ->
  node_id (last (x :: rest) start) = end_id ->
  exists j u w,
    reach g start end_id j u /\ neighbor g u w /\ node_id w = end_id
    /\ j + 2 <= k + List.length (x :: rest).
Proof.
  revert x k. induction rest as [|y rest IH]; intros x k Hr Hw Hl.
  - simpl in Hl. exfalso. eapply reach_not_end; eauto.
  - destruct Hw as [Hxy Hw].
    destruct (String.eqb_spec (node_id y) end_id) as [E|N].
    + exists k, x, y. repeat split; auto. simpl. lia.
    + destruct (IH y (S k)) as (j & u & w & A & B & C & L).
      * econstructor; eauto.
      * exact Hw.
      * exact Hl.
      * exists j, u, w. repeat split; auto. simpl in *. lia.
Qed.

Lemma no_short_path D Q V q :
  bfs_inv g start end_id max_depth D Q V ->
  path_between g start end_id q ->
  (forall e : entry, In e Q -> List.length q <= List.length (snd e)) ->
  (Z.of_nat (List.length q) <= max_depth + 1)%Z ->
  False.
Proof.
  intros I (Hh & Hl & Hw) HQ Hd.
  destruct q as [|x rest]; [discriminate|]. injection Hh as ->.
  destruct (first_end rest start 0 (reach_start _ _ _) Hw Hl)
    as (j & u & w & Hr & Hn & He & Hj).
  destruct (frontier D Q V j u I Hr) as (v & p & Hin & Hid & Hlen).
  - intros e He'. specialize (HQ e He'). simpl in *. lia.
  - simpl in *. lia.
  - assert (neighbor g v w) as Hvw by (unfold neighbor in *; now rewrite Hid).
    destruct (bi_done _ _ _ _ _ _ _ I v p Hin) with (w := w) as [Hne _];
      [simpl in *; lia | assumption | contradiction].
Qed.

Lemma bfs_loop_correct fuel D Q V r :
  bfs_inv g start end_id max_depth D Q V ->
  bfs_loop fuel g end_id max_depth Q V = Some r ->
  bfs_post g start end_id max_depth r.
Proof.
  revert D Q V. induction fuel as [|fuel IH]; intros D Q V I; simpl; [discriminate|].
  destruct Q as [|[u p] R].
  - intros [= <-]. simpl. intros q Hq.
    destruct (Z.ltb_spec max_depth (hops q)) as [?|Hle]; [assumption|].
    exfalso. apply (no_short_path D [] V q I Hq).
    + intros e [].
    + unfold hops in Hle. lia.
  - destruct (Z.ltb_spec max_depth (Z.of_nat (List.length p))) as [Hskip|Hok].
    + apply IH with (D := D ++ [(u, p)]). now apply bfs_inv_skip.
    + destruct (scan_neighbors _ _ _ _ _) as [path|V2 Q2] eqn:S.
      * intros [= <-]. apply scan_found in S as (w & Hw & He & ->).
        assert (In (u, p) (D ++ (u, p) :: R)) as Hup
          by (apply in_app_iff; right; now left).
        destruct (bi_walk _ _ _ _ _ _ _ I u p Hup) as (Wu & NDu & Iu).
        pose proof (walk_to_snoc u w p Wu Hw) as (A & B & C).
        simpl. repeat split.
        -- exact A.
        -- now rewrite B.
        -- exact C.
        -- unfold hops. rewrite length_app. simpl. lia.
        -- rewrite map_app. simpl. apply NoDup_snoc; [assumption|].
           rewrite He. intros Hx. apply (bi_end _ _ _ _ _ _ _ I).
           now apply Iu.
        -- intros q Hq. rewrite length_app. simpl.
           destruct (Nat.le_gt_cases (List.length p + 1) (List.length q))
             as [?|Hlt]; [assumption|].
           exfalso. apply (no_short_path D ((u, p) :: R) V q I Hq).
           ++ intros e [<-|He']; [simpl; lia|].
              pose proof (bi_sorted _ _ _ _ _ _ _ I) as Hs.
              inversion Hs as [|? ? _ Hall]; subst.
              rewrite Forall_forall in Hall. specialize (Hall e He').
              simpl in Hall. lia.
           ++ lia.
      * apply IH with (D := D ++ [(u, p)]).
        now apply bfs_inv_expand with (R := R) (V := V).
Qed.
End BFSCorrect.

(** ** The path search of the query engine *)

Lemma find_shortest_path_run (g : RecipeGraph) (s e : GraphNode) (d : Z) :
node_id s <> node_id e ->
bfs_loop (bfs_fuel g) g (node_id e) d [(s, [s])] [node_id s]
= Some (_find_shortest_path g s e d)
/\ bfs_post g s (node_id e) d (_find_shortest_path g s e d).
Proof.
intros N. unfold _find_shortest_path.
apply String.eqb_neq in N. rewrite N. apply String.eqb_neq in N.
destruct (bfs_loop_terminates g (node_id e) d (bfs_fuel g)
            [(s, [s])] [node_id s] (bfs_fuel_enough g s)) as [r Hr].
rewrite Hr. split; [reflexivity|].
eapply bfs_loop_correct; [exact N | apply bfs_inv_init; exact N | exact Hr].
Qed.

Lemma path_between_self (g : RecipeGraph) (s : GraphNode) :
path_between g s (node_id s) [s].
Proof. repeat split. Qed.

Lemma path_between_nonempty (g : RecipeGraph) (s : GraphNode) (id : string)
(q : list GraphNode) :
path_between g s id q -> 1 <= List.length q.
Proof. intros (Hh & _). destruct q; [discriminate | simpl; lia]. Qed.

Lemma find_shortest_path_some (g : RecipeGraph) (s e : GraphNode) (d : Z)
(p : list GraphNode) :
_find_shortest_path g s e d = Some p ->
path_between g s (node_id e) p
/\ NoDup (map node_id p)
/\ (forall q, path_between g s (node_id e) q ->
              List.length p <= List.length q)
/\ ((0 <= d)%Z \/ node_id s <> node_id e -> (hops p <= d)%Z).
Proof.
destruct (String.eqb_spec (node_id s) (node_id e)) as [E|N].
- unfold _find_shortest_path. rewrite <- E, String.eqb_refl.
  intros [= <-]. repeat split.
  + repeat constructor. simpl. tauto.
  + intros q Hq. apply path_between_nonempty in Hq. simpl. lia.
  + intros [Hd|Hn]; [unfold hops; simpl; lia | contradiction].
- intros Hp. destruct (find_shortest_path_run g s e d N) as [_ Hpost].
  rewrite Hp in Hpost. destruct Hpost as (A & B & C & D).
  repeat split; try apply A; auto.
Qed.

Lemma find_shortest_path_none (g : RecipeGraph) (s e : GraphNode) (d : Z) :
_find_shortest_path g s e d = None ->
forall q, path_between g s (node_id e) q -> (d < hops q)%Z.
Proof.
destruct (String.eqb_spec (node_id s) (node_id e)) as [E|N].
- unfold _find_shortest_path. rewrite <- E, String.eqb_refl. discriminate.
- intros Hp. destruct (find_shortest_path_run g s e d N) as [_ Hpost].
  rewrite Hp in Hpost. exact Hpost.
Qed.

Lemma append_if_path_spec (g : RecipeGraph) (s e : GraphNode) (d : Z) :
append_if_path (_find_shortest_path g s e d)
= opt_to_list (_find_shortest_path g s e d).
Proof.
destruct (_find_shortest_path g s e d) as [[|x p]|] eqn:F; try reflexivity.
apply find_shortest_path_some in F as [(Hh & _) _]. discriminate.
Qed.

Lemma find_paths_flat_map (E : GraphQueryEngine) (a b : string) (d : Z) :
find_path_between_ingredients E a b d
= flat_map
    (fun s =>
       flat_map (fun e => opt_to_list (_find_shortest_path (graph E) s e d))
                (search_nodes E b (Some INGREDIENT) 10))
    (search_nodes E a (Some INGREDIENT) 10).
Proof.
unfold find_path_between_ingredients.
destruct (search_nodes E a (Some INGREDIENT) 10) as [|s1 l1] eqn:S1;
  [reflexivity|].
destruct (search_nodes E b (Some INGREDIENT) 10) as [|s2 l2] eqn:S2.
- cbn [is_nil orb]. symmetry. apply flat_map_nil.
  apply Forall_forall. reflexivity.
- cbn [is_nil orb]. apply flat_map_ext. intros s.
  apply flat_map_ext. intros e. apply append_if_path_spec.
Qed.

(** C7: the path search runs the breadth-first search for every pair of
  resolved nodes, in order, and keeps the paths that were found.  For a
  pair, a returned path is a walk over the undirected neighbor relation
  from the start node to the end node with at most [max_depth] hops and
  no walk between the two is shorter; equal start and end give the
  single-node path; nothing is returned for the pair exactly when no
  walk of at most [max_depth] hops exists. *)
Theorem path_search_shortest (E : GraphQueryEngine) (a b : string) (d : Z) :
(0 <= d)%Z ->
find_path_between_ingredients E a b d
= flat_map
    (fun s =>
       flat_map (fun e => opt_to_list (_find_shortest_path (graph E) s e d))
                (search_nodes E b (Some INGREDIENT) 10))
    (search_nodes E a (Some INGREDIENT) 10)
/\ forall s e,
    (node_id s = node_id e ->
     _find_shortest_path (graph E) s e d = Some [s])
    /\ (forall p,
           _find_shortest_path (graph E) s e d = Some p ->
           path_between (graph E) s (node_id e) p
           /\ (hops p <= d)%Z
           /\ forall q, path_between (graph E) s (node_id e) q ->
                        (hops p <= hops q)%Z)
    /\ (_find_shortest_path (graph E) s e d = None <->
        ~ exists q, path_between (graph E) s (node_id e) q
                    /\ (hops q <= d)%Z).
Proof.
intros Hd. split; [apply find_paths_flat_map|].
intros s e. repeat apply conj.
- intros Heq. unfold _find_shortest_path.
  apply String.eqb_eq in Heq. now rewrite Heq.
- intros p Hp. apply find_shortest_path_some in Hp as (A & B & C & D).
  repeat split; try apply A; auto.
  intros q Hq. specialize (C q Hq). unfold hops. lia.
- intros Hn [q [Hq Hl]].
  pose proof (find_shortest_path_none _ _ _ _ Hn q Hq). lia.
- intros Hno. destruct (_find_shortest_path (graph E) s e d) as [p|] eqn:F;
    [|reflexivity].
  exfalso. apply Hno. exists p.
  apply find_shortest_path_some in F as (A & B & C & D). auto.
Qed.

(** C10: every path that [_find_shortest_path] returns, and so every
  path in the result of [find_path_between_ingredients], visits
  pairwise distinct node ids. *)
Theorem returned_paths_simple (E : GraphQueryEngine) (a b : string) (d : Z) :
Forall (fun p => NoDup (map node_id p))
       (find_path_between_ingredients E a b d)
/\ forall s e,
    Forall (fun p => NoDup (map node_id p))
           (opt_to_list (_find_shortest_path (graph E) s e d)).
Proof.
assert (forall s e,
           Forall (fun p => NoDup (map node_id p))
                  (opt_to_list (_find_shortest_path (graph E) s e d))) as Hone.
{ intros s e. destruct (_find_shortest_path (graph E) s e d) as [p|] eqn:F;
    simpl; constructor; [|constructor].
  now apply find_shortest_path_some in F as (_ & B & _). }
split; [|exact Hone].
rewrite find_paths_flat_map. apply Forall_flat_map.
apply Forall_forall. intros s _. apply Forall_flat_map.
apply Forall_forall. intros e _. apply Hone.
Qed.

(* ================================================================== *)
(** * The model on concrete graphs                                     *)
(* ================================================================== *)

(** The scenarios of the design: pairing counts of tomato, dishes that
  need both tomato and egg, and a path between egg and onion. *)
Example kitchen_pairs :
map (fun '(n, c) => (name n, c))
    (find_ingredient_pairs kitchen_engine "tomato" 2)
= [("egg", 2%Z); ("onion", 2%Z)].
Proof. vm_compute. reflexivity. Qed.

Example kitchen_require_all :
map (fun '(n, c) => name n)
    (find_dishes_by_ingredients kitchen_engine ["tomato"; "egg"] true)
= ["D1"; "D2"].
Proof. vm_compute. reflexivity. Qed.

Example kitchen_path :
map (map name) (find_path_between_ingredients kitchen_engine "egg" "onion" 3)
= [["egg"; "D2"; "onion"]]
/\ find_path_between_ingredients kitchen_engine "egg" "onion" 1 = [].
Proof. split; vm_compute; reflexivity. Qed.

Example split_blanks : split "  chicken   soup x " = ["chicken"; "soup"; "x"].
Proof. reflexivity. Qed.

(** ** Instances of the theorems *)

Lemma add_edge_duplicate_noop_witness :
In (edge_ab 1) (edges (build both_ways_ops))
/\ edge_key (edge_ab 1) = edge_key (edge_ab 5)
/\ add_edge (edge_ab 5) (build both_ways_ops) = build both_ways_ops
/\ nodes (add_edge (edge_ab 5) (build both_ways_ops))
   = nodes (build both_ways_ops)
/\ edges (add_edge (edge_ab 5) (build both_ways_ops))
   = edges (build both_ways_ops)
/\ adjacency_list (add_edge (edge_ab 5) (build both_ways_ops))
   = adjacency_list (build both_ways_ops).
Proof.
split; [left; reflexivity|]. split; [reflexivity|].
apply (add_edge_duplicate_noop (build both_ways_ops) (edge_ab 5) (edge_ab 1));
  [left; reflexivity | reflexivity].
Defined.

Lemma add_edge_twice_witness :
edge_key (edge_ab 1) = edge_key (edge_ab 5)
/\ (~ In (edge_key (edge_ab 1)) (map edge_key (edges empty_graph)) ->
    edges (add_edge (edge_ab 5) (add_edge (edge_ab 1) empty_graph))
    = edges empty_graph ++ [edge_ab 1]
    /\ List.length
         (edges (add_edge (edge_ab 5) (add_edge (edge_ab 1) empty_graph)))
       = S (List.length (edges empty_graph)))
/\ (In (edge_key (edge_ab 1)) (map edge_key (edges empty_graph)) ->
    edges (add_edge (edge_ab 5) (add_edge (edge_ab 1) empty_graph))
    = edges empty_graph).
Proof.
split; [reflexivity|].
apply (add_edge_twice empty_graph (edge_ab 1) (edge_ab 5)). reflexivity.
Defined.

(** C2 as stated fails on a graph that already holds the edge: the list
  of two edges still has two edges after the two insertions. *)
Lemma add_edge_twice_counterexample :
edge_key (edge_ab 2) = edge_key (edge_ab 3)
/\ List.length (edges (build both_ways_ops)) = 2
/\ List.length
     (edges (add_edge (edge_ab 3) (add_edge (edge_ab 2) (build both_ways_ops))))
   = 2
/\ List.length
     (edges (add_edge (edge_ab 3) (add_edge (edge_ab 2) (build both_ways_ops))))
   <> S (List.length (edges (build both_ways_ops))).
Proof. repeat split. vm_compute. discriminate. Qed.

Lemma get_neighbors_symmetric_witness :
In (edge_ab 1) (edges (build both_ways_ops))
/\ get_node "a" (build both_ways_ops) = Some node_a
/\ get_node "b" (build both_ways_ops) = Some node_b
/\ (In node_b (get_neighbors "a" (Some PAIRS_WITH) (build both_ways_ops))
    /\ In node_a (get_neighbors "b" (Some PAIRS_WITH) (build both_ways_ops)))
/\ (In node_b (get_neighbors "a" None (build both_ways_ops))
    /\ In node_a (get_neighbors "b" None (build both_ways_ops))).
Proof.
split; [left; reflexivity|]. split; [reflexivity|]. split; [reflexivity|].
apply (get_neighbors_symmetric both_ways_ops (edge_ab 1) node_a node_b);
  [left; reflexivity | reflexivity | reflexivity].
Defined.

(** C3 as stated fails: with an edge from a to b and one from b to a,
  the neighbors of a are b and again b. *)
Lemma get_neighbors_counterexample :
get_neighbors "a" None (build both_ways_ops) = [node_b; node_b]
/\ get_neighbors "a" (Some PAIRS_WITH) (build both_ways_ops) = [node_b; node_b]
/\ ~ NoDup (map node_id (get_neighbors "a" None (build both_ways_ops))).
Proof.
split; [reflexivity|]. split; [reflexivity|].
intros ND. vm_compute in ND. inversion ND as [|? ? Hn _]; subst.
apply Hn. now left.
Qed.


Lemma search_nodes_token_witness :
In (dish "chicken soup") (Dict.values (nodes (build chicken_ops)))
/\ In "soup" (split (name (dish "chicken soup")))
/\ 1 < String.length "soup"
/\ In (node_id (dish "chicken soup"))
      (search_candidates (_build_indexes (build chicken_ops)) "soup" None)
/\ In (dish "chicken soup")
      (candidate_nodes (build chicken_ops)
         (search_candidates (_build_indexes (build chicken_ops)) "soup" None))
/\ ((Z.of_nat
       (List.length
          (search_candidates (_build_indexes (build chicken_ops)) "soup" None))
     <= 10)%Z ->
    In (dish "chicken soup")
       (search_nodes
          (mkEngine (build chicken_ops) (_build_indexes (build chicken_ops)))
          "soup" None 10)).
Proof.
split; [left; reflexivity|].
split; [right; left; reflexivity|].
split; [simpl; lia|].
apply (search_nodes_token chicken_ops (dish "chicken soup") "soup" None 10);
  [left; reflexivity | right; left; reflexivity | simpl; lia | now left].
Defined.

Lemma not_found_gives_empty_result_witness :
search_nodes kitchen_engine "saffron" (Some INGREDIENT) 10 = []
/\ find_ingredient_pairs kitchen_engine "saffron" 2 = []
/\ find_cooking_methods_for_ingredient kitchen_engine "saffron" = []
/\ get_ingredient_substitution_suggestions kitchen_engine "saffron" = []
/\ find_path_between_ingredients kitchen_engine "saffron" "egg" 3 = []
/\ recommend_ingredient_substitutions kitchen_engine "saffron" 5 = []
/\ (search_nodes kitchen_engine "saffron" (Some DISH) 10 = [] ->
    recommend_similar_dishes kitchen_engine "saffron" 10 = []).
Proof.
assert (search_nodes kitchen_engine "saffron" (Some INGREDIENT) 10 = []) as Hs
  by (vm_compute; reflexivity).
destruct (not_found_gives_empty_result kitchen_engine inject_Z "saffron")
  as (Hi & Hd & _).
destruct (Hi Hs) as (A & _ & C & D & P & _ & S).
split; [exact Hs|]. split; [apply A|]. split; [exact C|]. split; [exact D|].
split; [apply P|]. split; [apply S|].
intros Hdish. apply (Hd Hdish).
Defined.

Lemma path_search_shortest_witness :
(0 <= 3)%Z
/\ find_path_between_ingredients kitchen_engine "egg" "onion" 3
   = flat_map
       (fun s =>
          flat_map
            (fun e => opt_to_list (_find_shortest_path (graph kitchen_engine) s e 3))
            (search_nodes kitchen_engine "onion" (Some INGREDIENT) 10))
       (search_nodes kitchen_engine "egg" (Some INGREDIENT) 10)
/\ forall p,
     _find_shortest_path (graph kitchen_engine)
       (ingredient "egg") (ingredient "onion") 3 = Some p ->
     path_between (graph kitchen_engine) (ingredient "egg")
                  (node_id (ingredient "onion")) p
     /\ (hops p <= 3)%Z
     /\ forall q, path_between (graph kitchen_engine) (ingredient "egg")
                               (node_id (ingredient "onion")) q ->
                  (hops p <= hops q)%Z.
Proof.
split; [lia|].
destruct (path_search_shortest kitchen_engine "egg" "onion" 3 ltac:(lia))
  as [Heq Hall].
split; [exact Heq|].
apply (Hall (ingredient "egg") (ingredient "onion")).
Defined.

(* ================================================================== *)
(** * Further properties of the graph model                            *)
(* ================================================================== *)

Lemma edges_between_In (s t : string) (l : list GraphEdge) (e : GraphEdge) :
  In e (edges_between s t l) <-> In e l /\ source_id e = s /\ target_id e = t.
Proof.
  unfold edges_between. rewrite filter_In, andb_true_iff, !String.eqb_eq.
  tauto.
Qed.

Lemma edges_between_snoc (s t : string) (l : list GraphEdge) (e : GraphEdge) :
  edges_between s t (l ++ [e])
  = edges_between s t l
    ++ (if String.eqb (source_id e) s && String.eqb (target_id e) t
        then [e] else []).
Proof. unfold edges_between. rewrite filter_app. reflexivity. Qed.

Lemma edges_add_edge_fresh e g :
  edge_in e (edges g) = false -> edges (add_edge e g) = edges g ++ [e].
Proof. intros F. now rewrite add_edge_fresh. Qed.

Lemma lookup2_exact (g : RecipeGraph) (s t : string) :
  graph_inv g -> adj_exact g ->
  lookup2 (adjacency_list g) s t = edges_between s t (edges g).
Proof.
  intros I X. unfold lookup2.
  destruct (edges_between s t (edges g)) as [|e l] eqn:F.
  - destruct (Dict.get s (adjacency_list g)) as [inner|] eqn:G1; simpl;
      [|reflexivity].
    destruct (Dict.get t inner) as [es|] eqn:G2; simpl; [|reflexivity].
    destruct (X s inner t es G1 G2) as [-> _]. exact F.
  - assert (In e (edges_between s t (edges g))) as He by (rewrite F; now left).
    apply edges_between_In in He as (He & <- & <-).
    destruct (inv_adj_edges g I e He) as (inner & es & G1 & G2 & _).
    rewrite G1. simpl. rewrite G2. simpl.
    destruct (X _ inner _ es G1 G2) as [-> _]. exact F.
Qed.

Lemma adj_exact_empty : adj_exact empty_graph.
Proof. intros s inner t es G. discriminate. Qed.

Lemma adj_exact_add_node n g : adj_exact g -> adj_exact (add_node n g).
Proof.
  intros X s inner t es G1 G2. simpl in *.
  rewrite get_ensure_key in G1.
  destruct (String.eqb (node_id n) s) eqn:E.
  - apply String.eqb_eq in E. subst s.
    destruct (Dict.get (node_id n) (adjacency_list g)) as [inner0|] eqn:G0;
      simpl in G1; injection G1 as <-.
    + eapply X; eauto.
    + discriminate.
  - eapply X; eauto.
Qed.

Lemma adj_exact_add_edge e g :
  graph_inv g -> adj_exact g -> adj_exact (add_edge e g).
Proof.
  intros I X. destruct (edge_in e (edges g)) eqn:F.
  { now rewrite add_edge_present. }
  intros s inner t es G1 G2.
  rewrite get_adj_add_edge in G1 by exact F.
  rewrite edges_add_edge_fresh by exact F.
  rewrite edges_between_snoc.
  destruct (String.eqb_spec (source_id e) s) as [<-|Ns]; simpl.
  - injection G1 as <-. rewrite get_adj_after in G2.
    destruct (String.eqb_spec (target_id e) t) as [<-|Nt].
    + injection G2 as <-.
      fold (lookup2 (adjacency_list g) (source_id e) (target_id e)).
      rewrite lookup2_exact by assumption.
      split; [reflexivity|]. now destruct (edges_between _ _ _).
    + destruct (Dict.get (source_id e) (adjacency_list g)) as [inner0|] eqn:G0;
        simpl in G2; [|discriminate].
      destruct (X _ _ _ _ G0 G2) as [-> Hne].
      rewrite app_nil_r. auto.
  - destruct (X _ _ _ _ G1 G2) as [-> Hne].
    rewrite app_nil_r. auto.
Qed.

Lemma build_invariants_from ops g :
  graph_inv g -> adj_exact g ->
  graph_inv (fold_left apply_op ops g) /\ adj_exact (fold_left apply_op ops g).
Proof.
  revert g. induction ops as [|[n|e] ops IH]; simpl; intros g I X.
  - auto.
  - apply IH; [now apply graph_inv_add_node | now apply adj_exact_add_node].
  - apply IH; [now apply graph_inv_add_edge | now apply adj_exact_add_edge].
Qed.

Lemma adj_exact_build ops : adj_exact (build ops).
Proof. apply build_invariants_from; [apply graph_inv_empty | apply adj_exact_empty]. Qed.

(** X1: [add_node] stores the node under its id and replaces an earlier
    node with that id in place; other ids keep their node, the edge list
    is untouched and no edge is lost from [get_edges]. *)
Theorem add_node_lookup (g : RecipeGraph) (n : GraphNode) :
  (forall k, get_node k (add_node n g)
             = if String.eqb (node_id n) k then Some n else get_node k g)
  /\ edges (add_node n g) = edges g
  /\ List.length (nodes (add_node n g))
     = (if Dict.mem (node_id n) (nodes g)
        then List.length (nodes g) else S (List.length (nodes g)))
  /\ forall s t et, get_edges s t et (add_node n g) = get_edges s t et g.
Proof.
  repeat apply conj.
  - intros k. unfold get_node. simpl.
    destruct (String.eqb_spec (node_id n) k) as [<-|N].
    + apply get_set_eq.
    + now apply get_set_ne.
  - reflexivity.
  - simpl. rewrite <- !(length_map fst). fold (Dict.keys (nodes g)).
    change (map fst (Dict.set (node_id n) n (nodes g)))
      with (Dict.keys (Dict.set (node_id n) n (nodes g))).
    rewrite keys_set. destruct (Dict.mem (node_id n) (nodes g)); [reflexivity|].
    rewrite length_app. simpl. lia.
  - intros s t et. unfold get_edges. simpl. rewrite get_ensure_key.
    destruct (String.eqb_spec (node_id n) s) as [<-|N]; [|reflexivity].
    now destruct (Dict.get (node_id n) (adjacency_list g)).
Qed.

Lemma get_edges_spec (g : RecipeGraph) (s : string)
  (t : option string) (et : option EdgeType) (e : GraphEdge) :
  graph_inv g -> adj_exact g ->
  In e (get_edges s t et g)
  <-> In e (edges g)
      /\ source_id e = s
      /\ accepts t (target_id e)
      /\ accepts et (edge_type e).
Proof.
  intros I X.
  unfold get_edges, accepts. split.
  - destruct (Dict.get s (adjacency_list g)) as [targets|] eqn:G1;
      [|intros []].
    intros Hin. apply in_flat_map in Hin as [[t_id es] [Hkv Hin]].
    assert (Dict.get t_id targets = Some es) as G2.
    { apply In_get; [|assumption].
      apply get_In in G1. eapply inv_adj_inner; eauto. }
    destruct (X _ _ _ _ G1 G2) as [-> _].
    destruct (match t with None => true | Some t0 => String.eqb t_id t0 end)
      eqn:Ht; [|destruct Hin].
    apply filter_In in Hin as [Hin Hty].
    apply edges_between_In in Hin as (He & Hs & Htg).
    repeat split; auto.
    + destruct t as [t0|]; [|now left]. right.
      apply String.eqb_eq in Ht. congruence.
    + destruct et as [ty|]; [|now left]. right.
      apply EdgeType_eqb_eq in Hty. congruence.
  - intros (He & <- & Ht & Hty).
    destruct (inv_adj_edges _ I e He) as (inner & es & G1 & G2 & Hin).
    rewrite G1. apply in_flat_map. exists (target_id e, es).
    split; [now apply get_In|].
    assert (match t with None => true | Some t0 => String.eqb (target_id e) t0 end
            = true) as ->.
    { destruct Ht as [->| ->]; [reflexivity | apply String.eqb_refl]. }
    apply filter_In. split; [assumption|].
    destruct Hty as [->| ->]; [reflexivity | now apply EdgeType_eqb_eq].
Qed.


(** X2: in a graph built by [add_node] and [add_edge], [get_edges]
    returns exactly the edges of the edge list that leave the source
    and pass the optional target and type filters. *)
Theorem get_edges_exact (ops : list graph_op) (s : string)
  (t : option string) (et : option EdgeType) (e : GraphEdge) :
  In e (get_edges s t et (build ops))
  <-> In e (edges (build ops))
      /\ source_id e = s
      /\ accepts t (target_id e)
      /\ accepts et (edge_type e).
Proof.
  pose proof (graph_inv_build ops) as I.
  pose proof (adj_exact_build ops) as X.
  now apply get_edges_spec.
Qed.

Lemma type_matches_exists (et : option EdgeType) (es : list GraphEdge) :
  es <> [] ->
  type_matches et es = true ->
  exists e, In e es /\ accepts et (edge_type e).
Proof.
  intros Hne. destruct et as [ty|]; simpl.
  - intros Hx. apply existsb_exists in Hx as [e [Hin Hty]].
    exists e. split; [assumption|]. right. apply EdgeType_eqb_eq in Hty. congruence.
  - intros _. destruct es as [|e es]; [congruence|].
    exists e. split; [now left | now left].
Qed.

Lemma get_neighbors_spec (g : RecipeGraph) (id : string)
  (et : option EdgeType) (w : GraphNode) :
  graph_inv g -> adj_exact g ->
  In w (get_neighbors id et g)
  <-> exists e,
        In e (edges g)
        /\ accepts et (edge_type e)
        /\ ((source_id e = id /\ get_node (target_id e) g = Some w)
            \/ (target_id e = id /\ get_node (source_id e) g = Some w)).
Proof.
  intros I X.
  unfold get_neighbors. rewrite in_app_iff. split.
  - intros [Hout|Hin].
    + unfold outgoing_neighbors in Hout.
      destruct (Dict.get id (adjacency_list g)) as [targets|] eqn:G1;
        [|destruct Hout].
      apply in_flat_map in Hout as [[t es] [Hkv Hw]].
      assert (Dict.get t targets = Some es) as G2.
      { apply In_get; [|assumption].
        apply get_In in G1. eapply inv_adj_inner; eauto. }
      destruct (X _ _ _ _ G1 G2) as [Hes Hne].
      destruct (type_matches et es) eqn:TM; [|destruct Hw].
      destruct (type_matches_exists et es Hne TM) as (e & He & Hty).
      rewrite Hes in He. apply edges_between_In in He as (He & Hs & Ht).
      exists e. split; [assumption|]. split; [assumption|]. left.
      split; [assumption|]. rewrite Ht.
      destruct (get_node t g); simpl in Hw; [|destruct Hw].
      destruct Hw as [->|[]]. reflexivity.
    + unfold incoming_neighbors in Hin.
      apply in_flat_map in Hin as [[s tdict] [Hkv Hw]].
      assert (Dict.get s (adjacency_list g) = Some tdict) as G1.
      { apply In_get; [apply I | assumption]. }
      destruct (Dict.get id tdict) as [es|] eqn:G2; [|destruct Hw].
      destruct (X _ _ _ _ G1 G2) as [Hes Hne].
      destruct (type_matches et es) eqn:TM; [|destruct Hw].
      destruct (type_matches_exists et es Hne TM) as (e & He & Hty).
      rewrite Hes in He. apply edges_between_In in He as (He & Hs & Ht).
      exists e. split; [assumption|]. split; [assumption|]. right.
      split; [assumption|]. rewrite Hs.
      destruct (get_node s g); simpl in Hw; [|destruct Hw].
      destruct Hw as [->|[]]. reflexivity.
  - intros (e & He & Hty & Hdir).
    destruct (inv_adj_edges _ I e He) as (inner & es & G1 & G2 & Hin).
    pose proof (type_matches_edge e es et Hin Hty) as TM.
    destruct Hdir as [[<- Hw]|[<- Hw]]; [left | right].
    + unfold outgoing_neighbors. rewrite G1.
      apply in_flat_map. exists (target_id e, es).
      split; [now apply get_In|]. rewrite TM, Hw. now left.
    + unfold incoming_neighbors.
      apply in_flat_map. exists (source_id e, inner).
      split; [now apply get_In|]. rewrite G2, TM, Hw. now left.
Qed.

(** X3: in a graph built by [add_node] and [add_edge], [get_neighbors]
    returns exactly the nodes of the node mapping that an edge passing the
    type filter links to the given id, in either direction; an endpoint
    that is not in the node mapping is left out. *)
Theorem get_neighbors_exact (ops : list graph_op) (id : string)
  (et : option EdgeType) (w : GraphNode) :
  In w (get_neighbors id et (build ops))
  <-> exists e,
        In e (edges (build ops))
        /\ accepts et (edge_type e)
        /\ ((source_id e = id /\ get_node (target_id e) (build ops) = Some w)
            \/ (target_id e = id /\ get_node (source_id e) (build ops) = Some w)).
Proof.
  pose proof (graph_inv_build ops) as I.
  pose proof (adj_exact_build ops) as X.
  now apply get_neighbors_spec.
Qed.

(** ** Statistics *)

Lemma get_incr (k k' : string) (counts : dict string Z) :
  default (Dict.get k (incr k' counts)) 0%Z
  = (default (Dict.get k counts) 0 + (if String.eqb k' k then 1 else 0))%Z.
Proof.
  unfold incr. destruct (String.eqb_spec k' k) as [<-|N].
  - rewrite get_set_eq. reflexivity.
  - rewrite get_set_ne by assumption. lia.
Qed.

Lemma sum_counts_set {K} `{EqKeyOk K} (k : K) (v : Z) (counts : dict K Z) :
  sum_counts (Dict.set k v counts)
  = (sum_counts counts - default (Dict.get k counts) 0 + v)%Z.
Proof.
  unfold sum_counts. induction counts as [|[k0 v0] counts IH]; simpl.
  - rewrite keqb_refl || idtac. lia.
  - key_cases k k0; simpl.
    + lia.
    + rewrite IH. lia.
Qed.

Lemma count_fold {A} (f : A -> string) (l : list A) (counts : dict string Z)
  (k : string) :
  default (Dict.get k (fold_left (fun c x => incr (f x) c) l counts)) 0%Z
  = (default (Dict.get k counts) 0
     + Z.of_nat (List.length (filter (fun x => String.eqb (f x) k) l)))%Z.
Proof.
  revert counts. induction l as [|x l IH]; intros counts; simpl; [lia|].
  rewrite IH, get_incr. destruct (String.eqb (f x) k); simpl List.length; lia.
Qed.

Lemma sum_fold {A} (f : A -> string) (l : list A) (counts : dict string Z) :
  sum_counts (fold_left (fun c x => incr (f x) c) l counts)
  = (sum_counts counts + Z.of_nat (List.length l))%Z.
Proof.
  revert counts. induction l as [|x l IH]; intros counts; simpl List.length;
    simpl fold_left; [lia|].
  rewrite IH. unfold incr. rewrite sum_counts_set. lia.
Qed.

Lemma NodeType_value_inj a b : NodeType_value a = NodeType_value b -> a = b.
Proof.
  intros E. pose proof (NodeType_roundtrip a) as Ha.
  rewrite E, NodeType_roundtrip in Ha. congruence.
Qed.

Lemma EdgeType_value_inj a b : EdgeType_value a = EdgeType_value b -> a = b.
Proof.
  intros E. pose proof (EdgeType_roundtrip a) as Ha.
  rewrite E, EdgeType_roundtrip in Ha. congruence.
Qed.

(** X4: the per-type counts of [get_statistics] are the numbers of
    nodes and of edges of each type (a type without entry counts as 0),
    and they add up to [total_nodes] and [total_edges]. *)
Theorem statistics_counts (g : RecipeGraph) :
  let stats := get_statistics g in
  (forall t, default (Dict.get (NodeType_value t) (nodes_by_type stats)) 0%Z
             = Z.of_nat (List.length (find_nodes_by_type t g)))
  /\ (forall t, default (Dict.get (EdgeType_value t) (edges_by_type stats)) 0%Z
                = Z.of_nat
                    (List.length
                       (filter (fun e => EdgeType_eqb (edge_type e) t) (edges g))))
  /\ sum_counts (nodes_by_type stats) = total_nodes stats
  /\ sum_counts (edges_by_type stats) = total_edges stats.
Proof.
  simpl. repeat apply conj.
  - intros t. rewrite count_fold. simpl. unfold find_nodes_by_type.
    f_equal. f_equal. apply filter_ext. intros n.
    apply eq_true_iff_eq. rewrite String.eqb_eq.
    change (NodeType_eqb (node_type n) t) with (keqb (node_type n) t).
    rewrite keqb_eq. split; [apply NodeType_value_inj | congruence].
  - intros t. rewrite count_fold. simpl.
    f_equal. f_equal. apply filter_ext. intros e.
    apply eq_true_iff_eq. rewrite String.eqb_eq, EdgeType_eqb_eq.
    split; [apply EdgeType_value_inj | congruence].
  - rewrite sum_fold. unfold Dict.values. rewrite length_map. reflexivity.
  - rewrite sum_fold. reflexivity.
Qed.

(** ** Import *)

Lemma NodeType_of_value_some s t :
  NodeType_of_value s = Some t -> NodeType_value t = s.
Proof.
  unfold NodeType_of_value. intros F. apply find_some in F as [_ E].
  now apply String.eqb_eq in E.
Qed.

Lemma EdgeType_of_value_some s t :
  EdgeType_of_value s = Some t -> EdgeType_value t = s.
Proof.
  unfold EdgeType_of_value. intros F. apply find_some in F as [_ E].
  now apply String.eqb_eq in E.
Qed.

Lemma load_nodes_spec (l : list node_data) (g : RecipeGraph) :
  match load_nodes l g with
  | Some g' => exists ns, Forall2 node_decodes l ns
                          /\ g' = fold_left (fun g n => add_node n g) ns g
  | None => Exists (fun nd => NodeType_of_value (nd_type nd) = None) l
  end.
Proof.
  revert g. induction l as [|nd l IH]; intros g; simpl.
  - exists []. split; [constructor | reflexivity].
  - destruct (NodeType_of_value (nd_type nd)) as [t|] eqn:T; [|now left].
    specialize (IH (add_node (mkNode (nd_id nd) t (nd_name nd)
                                     (default (nd_properties nd) [])) g)).
    destruct (load_nodes l _) as [g'|].
    + destruct IH as (ns & F & ->).
      exists (mkNode (nd_id nd) t (nd_name nd) (default (nd_properties nd) []) :: ns).
      split; [|reflexivity]. constructor; [|assumption].
      repeat split. simpl. now apply NodeType_of_value_some.
    + now right.
Qed.

Lemma load_edges_spec (l : list edge_data) (g : RecipeGraph) :
  match load_edges l g with
  | Some g' => exists es, Forall2 edge_decodes l es
                          /\ g' = fold_left (fun g e => add_edge e g) es g
  | None => Exists (fun ed => EdgeType_of_value (ed_type ed) = None) l
  end.
Proof.
  revert g. induction l as [|ed l IH]; intros g; simpl.
  - exists []. split; [constructor | reflexivity].
  - destruct (EdgeType_of_value (ed_type ed)) as [t|] eqn:T; [|now left].
    specialize (IH (add_edge (mkEdge (ed_source ed) (ed_target ed) t
                                     (default (ed_weight ed) 1%Q)
                                     (default (ed_properties ed) [])) g)).
    destruct (load_edges l _) as [g'|].
    + destruct IH as (es & F & ->).
      exists (mkEdge (ed_source ed) (ed_target ed) t
                     (default (ed_weight ed) 1%Q)
                     (default (ed_properties ed) []) :: es).
      split; [|reflexivity]. constructor; [|assumption].
      repeat split. simpl. now apply EdgeType_of_value_some.
    + now right.
Qed.

Lemma fold_left_map {A B C} (f : A -> B -> A) (h : C -> B) (l : list C) (a : A) :
  fold_left f (map h l) a = fold_left (fun a x => f a (h x)) l a.
Proof. revert a. induction l as [|x l IH]; intros a; simpl; auto. Qed.

Lemma decoded_nodes_valid (l : list node_data) (ns : list GraphNode) :
  Forall2 node_decodes l ns ->
  ~ Exists (fun nd => NodeType_of_value (nd_type nd) = None) l.
Proof.
  induction 1 as [|nd n l ns Hd _ IH]; intros Hx; inversion Hx as [? ? Hb|]; subst.
  - destruct Hd as (_ & Hv & _). rewrite <- Hv, NodeType_roundtrip in Hb.
    discriminate.
  - auto.
Qed.

Lemma decoded_edges_valid (l : list edge_data) (es : list GraphEdge) :
  Forall2 edge_decodes l es ->
  ~ Exists (fun ed => EdgeType_of_value (ed_type ed) = None) l.
Proof.
  induction 1 as [|ed e l es Hd _ IH]; intros Hx; inversion Hx as [? ? Hb|]; subst.
  - destruct Hd as (_ & _ & Hv & _). rewrite <- Hv, EdgeType_roundtrip in Hb.
    discriminate.
  - auto.
Qed.

(** X5: [load_from_file] fails exactly when a node record or an edge
    record carries a type string that is no value of the enumeration.
    Otherwise the graph is the one built by [add_node] for the node
    records in order and then [add_edge] for the edge records in order,
    a missing weight read as 1 and missing properties as empty. *)
Theorem load_from_file_result (data : graph_data) :
  (load_from_file data = None <->
   Exists (fun nd => NodeType_of_value (nd_type nd) = None) (gd_nodes data)
   \/ Exists (fun ed => EdgeType_of_value (ed_type ed) = None) (gd_edges data))
  /\ forall g, load_from_file data = Some g ->
       exists ns es,
         Forall2 node_decodes (gd_nodes data) ns
         /\ Forall2 edge_decodes (gd_edges data) es
         /\ g = build (map AddNode ns ++ map AddEdge es).
Proof.
  unfold load_from_file.
  pose proof (load_nodes_spec (gd_nodes data) empty_graph) as SN.
  destruct (load_nodes (gd_nodes data) empty_graph) as [g1|] eqn:LN.
  - destruct SN as (ns & FN & ->).
    pose proof (load_edges_spec (gd_edges data)
                  (fold_left (fun g n => add_node n g) ns empty_graph)) as SE.
    destruct (load_edges (gd_edges data) _) as [g2|] eqn:LE.
    + destruct SE as (es & FE & ->). split.
      * split; [discriminate|]. intros [Hb|Hb]; exfalso.
        -- now apply (decoded_nodes_valid _ _ FN).
        -- now apply (decoded_edges_valid _ _ FE).
      * intros g [= <-]. exists ns, es. repeat split; try assumption.
        unfold build. rewrite fold_left_app, !fold_left_map. reflexivity.
    + split; [|discriminate]. split; [now right | reflexivity].
  - split; [|discriminate]. split; [now left | reflexivity].
Qed.

(** X6: a graph that was loaded is a fixed point of export and import:
    importing its export succeeds and gives the same nodes, the same
    edges and the same export again. *)
Theorem reload_is_stable (data : graph_data) (g : RecipeGraph) :
  load_from_file data = Some g ->
  exists g', load_from_file (to_dict g) = Some g'
             /\ nodes g' = nodes g
             /\ edges g' = edges g
             /\ to_dict g' = to_dict g.
Proof.
  intros L. destruct (load_from_file_result data) as [_ H].
  destruct (H g L) as (ns & es & _ & _ & ->).
  destruct (roundtrip_inv _ (graph_inv_build (map AddNode ns ++ map AddEdge es)))
    as (g' & L' & N & E).
  exists g'. repeat split; try assumption.
  unfold to_dict. now rewrite N, E.
Qed.

(* ================================================================== *)
(** * Further properties of the index layer                            *)
(* ================================================================== *)

Lemma set_update_fresh {K} `{EqKeyOk K} (xs s : list K) :
  NoDup (s ++ xs) -> set_update s xs = s ++ xs.
Proof.
  unfold set_update. revert s. induction xs as [|x xs IH]; intros s ND; simpl.
  - now rewrite app_nil_r.
  - assert (set_mem x s = false) as M.
    { destruct (set_mem x s) eqn:M; [|reflexivity].
      apply set_mem_In in M. apply NoDup_remove_2 in ND.
      exfalso. apply ND. apply in_app_iff. now left. }
    unfold set_add. rewrite M. rewrite IH.
    + now rewrite <- app_assoc.
    + now rewrite <- app_assoc.
Qed.

Lemma NoDup_set_add {K} `{EqKeyOk K} (x : K) (s : list K) :
  NoDup s -> NoDup (set_add x s).
Proof.
  intros ND. unfold set_add. destruct (set_mem x s) eqn:M; [assumption|].
  apply NoDup_snoc; [assumption|]. intros Hin. apply set_mem_In in Hin. congruence.
Qed.

Lemma NoDup_set_update {K} `{EqKeyOk K} (xs s : list K) :
  NoDup s -> NoDup (set_update s xs).
Proof.
  unfold set_update. revert s. induction xs as [|x xs IH]; intros s ND; simpl;
    [assumption|]. apply IH. now apply NoDup_set_add.
Qed.

Lemma NoDup_map_filter {V K : Type} (keep : V -> bool) (key : V -> K)
  (vs : list V) (ND : NoDup (map key vs)) :
  NoDup (map key (filter keep vs)).
Proof.
  induction vs as [|v vs IH]; cbn [filter map] in *; [exact ND|].
  inversion ND as [|? ? Hn ND']; subst.
  destruct (keep v); cbn [map]; [|auto]. constructor; [|auto].
  intros Hin. apply Hn. apply in_map_iff in Hin as [y [E Hy]].
  apply filter_In in Hy as [Hy _]. rewrite <- E. now apply in_map.
Qed.

Lemma node_ids_keys (g : RecipeGraph) :
  graph_inv g -> map node_id (Dict.values (nodes g)) = Dict.keys (nodes g).
Proof.
  intros I. unfold Dict.values, Dict.keys. rewrite map_map.
  apply map_ext_in. intros [k n] Hin. simpl. eapply inv_node_ids; eauto.
Qed.

Lemma NoDup_node_ids (g : RecipeGraph) :
  graph_inv g -> NoDup (map node_id (Dict.values (nodes g))).
Proof. intros I. rewrite node_ids_keys by assumption. apply I. Qed.

Lemma get_index_add {K} `{EqKeyOk K} (k k' : K) (x : string)
  (idx : dict K (list string)) :
  default (Dict.get k (index_add k' x idx)) []
  = if keqb k' k then set_add x (default (Dict.get k idx) [])
    else default (Dict.get k idx) [].
Proof.
  unfold index_add. key_cases k' k.
  - now rewrite get_set_eq.
  - now rewrite get_set_ne.
Qed.

Lemma type_index_fold (ns : list GraphNode) (idx : dict NodeType (list string))
  (t : NodeType) :
  default (Dict.get t
             (fold_left (fun idx node =>
                           index_add (node_type node) (node_id node) idx)
                        ns idx)) []
  = set_update (default (Dict.get t idx) [])
               (map node_id (filter (fun n => NodeType_eqb (node_type n) t) ns)).
Proof.
  revert idx. induction ns as [|n ns IH]; intros idx; simpl; [reflexivity|].
  rewrite IH, get_index_add.
  change (keqb (node_type n) t) with (NodeType_eqb (node_type n) t).
  destruct (NodeType_eqb (node_type n) t); reflexivity.
Qed.

Lemma type_index_lookup (g : RecipeGraph) (t : NodeType) :
  graph_inv g ->
  default (Dict.get t (_type_index (_build_indexes g))) []
  = map node_id (find_nodes_by_type t g).
Proof.
  intros I. simpl. rewrite type_index_fold. simpl.
  unfold find_nodes_by_type. apply (set_update_fresh _ []). simpl.
  now apply NoDup_map_filter, NoDup_node_ids.
Qed.


Lemma lookup2_reverse_add (rev : dict string (dict string (list GraphEdge)))
  (e : GraphEdge) (s t : string) :
  lookup2 (reverse_add rev e) t s
  = lookup2 rev t s
    ++ (if String.eqb (source_id e) s && String.eqb (target_id e) t
        then [e] else []).
Proof.
  unfold lookup2, reverse_add.
  destruct (String.eqb_spec (target_id e) t) as [<-|Nt].
  - rewrite get_set_eq. simpl.
    destruct (String.eqb_spec (source_id e) s) as [<-|Ns]; simpl.
    + now rewrite get_set_eq.
    + rewrite get_set_ne by assumption. now rewrite app_nil_r.
  - rewrite get_set_ne by assumption. rewrite andb_false_r.
    now rewrite app_nil_r.
Qed.

Lemma lookup2_reverse_fold (es : list GraphEdge)
  (rev : dict string (dict string (list GraphEdge))) (s t : string) :
  lookup2 (fold_left reverse_add es rev) t s
  = lookup2 rev t s ++ edges_between s t es.
Proof.
  revert rev. induction es as [|e es IH]; intros rev; simpl.
  - now rewrite app_nil_r.
  - rewrite IH, lookup2_reverse_add, <- app_assoc. f_equal.
    unfold edges_between. simpl.
    destruct (String.eqb (source_id e) s && String.eqb (target_id e) t);
      reflexivity.
Qed.

(** X8: the reverse adjacency index mirrors the forward one: for every
    source [s] and target [t], [_reverse_adjacency[t][s]] and
    [adjacency_list[s][t]] are the same list, the edges from [s] to [t]
    in the order of the edge list. *)
Theorem reverse_adjacency_mirror (ops : list graph_op) (s t : string) :
  lookup2 (_reverse_adjacency (_build_indexes (build ops))) t s
  = edges_between s t (edges (build ops))
  /\ lookup2 (adjacency_list (build ops)) s t
     = edges_between s t (edges (build ops)).
Proof.
  split.
  - simpl. now rewrite lookup2_reverse_fold.
  - apply lookup2_exact; [apply graph_inv_build | apply adj_exact_build].
Qed.

(** ** Substrings *)

Lemma string_app_assoc (a b c : string) :
  ((a ++ b) ++ c)%string = (a ++ (b ++ c))%string.
Proof. induction a as [|x a IH]; simpl; [reflexivity | now rewrite IH]. Qed.

Lemma string_app_nil_r (a : string) : (a ++ "")%string = a.
Proof. induction a as [|x a IH]; simpl; [reflexivity | now rewrite IH]. Qed.

Lemma lower_app (a b : string) :
  lower (a ++ b) = (lower a ++ lower b)%string.
Proof. induction a as [|x a IH]; simpl; [reflexivity | now rewrite IH]. Qed.

Lemma prefix_spec (a b : string) :
  prefix a b = true <-> exists c, b = (a ++ c)%string.
Proof.
  revert b. induction a as [|x a IH]; intros b; simpl.
  - destruct b; split; eauto.
  - destruct b as [|y b]; simpl.
    + split; [discriminate | intros [c Hc]; discriminate].
    + destruct (ascii_dec x y) as [<-|N].
      * rewrite IH. split; intros [c Hc]; exists c; congruence.
      * split; [discriminate|]. intros [c [= ? _]]. congruence.
Qed.

Lemma str_in_spec (a b : string) :
  str_in a b = true <-> exists pre post, b = (pre ++ a ++ post)%string.
Proof.
  split.
  - induction b as [|c b IH]; cbn [str_in]; rewrite orb_true_iff.
    + intros [P|F]; [|discriminate].
      apply prefix_spec in P as [post ->]. now exists ""%string, post.
    + intros [P|R].
      * apply prefix_spec in P as [post ->]. now exists ""%string, post.
      * destruct (IH R) as (pre & post & ->). now exists (String c pre), post.
  - intros (pre & post & ->). induction pre as [|c pre IH].
    + simpl append. destruct (a ++ post)%string eqn:E; cbn [str_in];
        apply orb_true_iff; left; apply prefix_spec; exists post; auto.
    + simpl append. cbn [str_in]. rewrite IH. apply orb_true_r.
Qed.

Lemma str_in_trans (a b c : string) :
  str_in a b = true -> str_in b c = true -> str_in a c = true.
Proof.
  rewrite !str_in_spec. intros (p1 & q1 & ->) (p2 & q2 & ->).
  exists (p2 ++ p1)%string, (q1 ++ q2)%string.
  now rewrite !string_app_assoc.
Qed.

Lemma str_in_lower (a b : string) :
  str_in a b = true -> str_in (lower a) (lower b) = true.
Proof.
  rewrite !str_in_spec. intros (p & q & ->).
  exists (lower p), (lower q). now rewrite !lower_app.
Qed.

Lemma split_from_sub (s cur T : string) :
  In T (split_from cur s) ->
  exists pre post, (cur ++ s)%string = (pre ++ T ++ post)%string.
Proof.
  revert cur. induction s as [|c s IH]; intros cur; simpl.
  - destruct cur as [|x cur]; [intros []|]. intros [<-|[]].
    exists ""%string, ""%string. simpl. now rewrite !string_app_nil_r.
  - destruct (is_space c).
    + destruct cur as [|x cur].
      * intros Hin. destruct (IH _ Hin) as (pre & post & E). simpl in E.
        exists (String c pre), post. simpl. now rewrite E.
      * intros [<-|Hin].
        -- now exists ""%string, (String c s).
        -- destruct (IH _ Hin) as (pre & post & E). simpl in E.
           exists (String x cur ++ String c pre)%string, post.
           rewrite string_app_assoc. simpl. now rewrite E.
    + intros Hin. destruct (IH _ Hin) as (pre & post & E).
      exists pre, post. rewrite <- E, string_app_assoc. reflexivity.
Qed.

Lemma token_in_name (T s : string) : In T (split s) -> str_in T s = true.
Proof.
  intros Hin. apply split_from_sub in Hin as (pre & post & E).
  apply str_in_spec. exists pre, post. exact E.
Qed.

(** ** The index search and the linear scan *)

Lemma indexed_add_inv {K} `{EqKeyOk K} (idx : dict K (list string))
  (k k' : K) (x x' : string) :
  indexed (index_add k' x' idx) k x -> (k = k' /\ x = x') \/ indexed idx k x.
Proof.
  unfold indexed, index_add. intros (ids & G & Hin).
  destruct (keqb k' k) eqn:E.
  - apply keqb_eq in E. subst k'.
    rewrite get_set_eq in G. injection G as <-.
    apply In_set_add in Hin as [->|Hin]; [now left|]. right.
    destruct (Dict.get k idx) as [old|]; simpl in Hin; [eauto | destruct Hin].
  - apply keqb_neq in E.
    rewrite get_set_ne in G by assumption. right. eauto.
Qed.

Lemma index_words_inv words id idx k x :
  indexed (fold_left (fun idx word =>
                        if 1 <? String.length word
                        then index_add word id idx else idx) words idx) k x ->
  indexed idx k x \/ (In k words /\ x = id).
Proof.
  revert idx. induction words as [|w words IH]; intros idx; simpl; [auto|].
  intros Hi. apply IH in Hi as [Hi|[Hin ->]]; [|right; auto].
  destruct (1 <? String.length w); [|now left].
  apply indexed_add_inv in Hi as [[-> ->]|Hi]; [right; auto | now left].
Qed.

Lemma name_index_inv (ns : list GraphNode) idx k x :
  indexed (fold_left index_node_name ns idx) k x ->
  indexed idx k x
  \/ exists n, In n ns /\ node_id n = x
               /\ (k = name n \/ In k (split (name n))).
Proof.
  revert idx. induction ns as [|n ns IH]; intros idx; simpl; [auto|].
  intros Hi. apply IH in Hi as [Hi|(m & Hm & E & Hk)].
  - unfold index_node_name in Hi.
    apply index_words_inv in Hi as [Hi|[Hin ->]].
    + apply indexed_add_inv in Hi as [[-> ->]|Hi]; [|now left].
      right. exists n. auto.
    + right. exists n. auto.
  - right. exists m. auto.
Qed.

Lemma name_index_full (ns : list GraphNode) idx n :
  In n ns -> indexed (fold_left index_node_name ns idx) (name n) (node_id n).
Proof.
  revert idx. induction ns as [|m ns IH]; intros idx Hin; simpl; [destruct Hin|].
  destruct Hin as [->|Hin]; [|now apply IH].
  assert (forall l i, indexed i (name n) (node_id n) ->
            indexed (fold_left index_node_name l i) (name n) (node_id n)) as Mono.
  { induction l as [|a l IHl]; intros i Hi; simpl; [assumption|].
    apply IHl. now apply index_node_name_mono. }
  apply Mono. unfold index_node_name.
  apply index_words_mono, indexed_add_same.
Qed.

Lemma NoDup_keys_name_index (ns : list GraphNode) idx :
  NoDup (Dict.keys idx) -> NoDup (Dict.keys (fold_left index_node_name ns idx)).
Proof.
  revert idx. induction ns as [|n ns IH]; intros idx ND; simpl; [assumption|].
  apply IH. unfold index_node_name.
  assert (forall words i, NoDup (Dict.keys i) ->
            NoDup (Dict.keys
                     (fold_left (fun idx word =>
                                   if 1 <? String.length word
                                   then index_add word (node_id n) idx else idx)
                                words i))) as Hw.
  { induction words as [|w words IHw]; intros i Hi; simpl; [assumption|].
    apply IHw. destruct (1 <? String.length w); [|assumption].
    now apply NoDup_keys_set. }
  apply Hw. now apply NoDup_keys_set.
Qed.

Lemma candidates_fold_inv (ql : string) (items : dict string (list string))
  (acc : list string) (x : string) :
  In x (fold_left (fun cand '(nm, node_ids) =>
                     if str_in ql (lower nm)
                     then set_update cand node_ids else cand) items acc) ->
  In x acc
  \/ exists nm ids, In (nm, ids) items
                    /\ str_in ql (lower nm) = true /\ In x ids.
Proof.
  revert acc. induction items as [|[nm ids] items IH]; intros acc; simpl; [auto|].
  intros Hx. apply IH in Hx as [Hx|(nm' & ids' & Hin & S & Hi)].
  - destruct (str_in ql (lower nm)) eqn:S; [|now left].
    apply In_set_update in Hx as [Hx|Hx]; [now left|].
    right. exists nm, ids. auto.
  - right. exists nm', ids'. auto.
Qed.

Lemma NoDup_candidates_fold (ql : string) (items : dict string (list string))
  (acc : list string) :
  NoDup acc ->
  NoDup (fold_left (fun cand '(nm, node_ids) =>
                      if str_in ql (lower nm)
                      then set_update cand node_ids else cand) items acc).
Proof.
  revert acc. induction items as [|[nm ids] items IH]; intros acc ND; simpl;
    [assumption|].
  apply IH. destruct (str_in ql (lower nm)); [|assumption].
  now apply NoDup_set_update.
Qed.

Lemma NoDup_search_candidates (st : GraphStorage) (q : string)
  (nt : option NodeType) : NoDup (search_candidates st q nt).
Proof.
  unfold search_candidates.
  pose proof (NoDup_candidates_fold (lower q) (_name_index st) []
                (NoDup_nil _)) as ND.
  destruct nt; [|assumption]. unfold set_inter. now apply NoDup_filter.
Qed.

Lemma In_candidate_nodes (g : RecipeGraph) (cands : list string) (n : GraphNode) :
  In n (candidate_nodes g cands)
  <-> exists id, In id cands /\ get_node id g = Some n.
Proof.
  unfold candidate_nodes. rewrite in_flat_map.
  split; intros (id & Hin & Hn); exists id; split; try assumption.
  - destruct (get_node id g); simpl in Hn; [|destruct Hn].
    destruct Hn as [->|[]]. reflexivity.
  - rewrite Hn. now left.
Qed.

Lemma get_node_In (g : RecipeGraph) (id : string) (n : GraphNode) :
  graph_inv g ->
  get_node id g = Some n -> In n (Dict.values (nodes g)) /\ node_id n = id.
Proof.
  intros I G. split; [|eapply get_node_id; eauto].
  apply get_In in G. apply (in_map snd) in G. exact G.
Qed.

Lemma same_id_same_node (g : RecipeGraph) (n m : GraphNode) :
  graph_inv g ->
  In n (Dict.values (nodes g)) -> In m (Dict.values (nodes g)) ->
  node_id n = node_id m -> n = m.
Proof.
  intros I Hn Hm E.
  pose proof (get_node_value g n I Hn) as Gn.
  pose proof (get_node_value g m I Hm) as Gm.
  rewrite E in Gn. congruence.
Qed.

Lemma In_find_nodes_by_name (q : string) (nt : option NodeType)
  (g : RecipeGraph) (n : GraphNode) :
  In n (find_nodes_by_name q nt g)
  <-> In n (Dict.values (nodes g))
      /\ str_in (lower q) (lower (name n)) = true
      /\ accepts nt (node_type n).
Proof.
  unfold find_nodes_by_name, accepts. destruct nt as [t|].
  - rewrite !filter_In.
    change (NodeType_eqb (node_type n) t) with (keqb (node_type n) t).
    rewrite keqb_eq. split.
    + intros [[A B] C]. repeat split; auto. right. congruence.
    + intros (A & B & [C|C]); [discriminate|]. injection C as C. auto.
  - rewrite filter_In. split; [intros [A B]; auto | intros (A & B & _); auto].
Qed.

Lemma search_candidates_spec (g : RecipeGraph) (q : string)
  (nt : option NodeType) (n : GraphNode) :
  graph_inv g ->
  In n (Dict.values (nodes g)) ->
  In (node_id n) (search_candidates (_build_indexes g) q nt)
  <-> str_in (lower q) (lower (name n)) = true /\ accepts nt (node_type n).
Proof.
  intros I Hn.
  assert (In (node_id n) (search_candidates (_build_indexes g) q None)
          <-> str_in (lower q) (lower (name n)) = true) as Hbase.
  { unfold search_candidates. cbn [_name_index _build_indexes]. split.
    - intros Hc. apply candidates_fold_inv in Hc as [[]|(k & ids & Hin & S & Hx)].
      assert (indexed (fold_left index_node_name (Dict.values (nodes g)) [])
                      k (node_id n)) as Hi.
      { exists ids. split; [|assumption].
        apply In_get; [|assumption].
        apply NoDup_keys_name_index. constructor. }
      apply name_index_inv in Hi as [(? & G & _)|(m & Hm & E & Hk)];
        [discriminate|].
      assert (m = n) as -> by (eapply same_id_same_node; eauto).
      destruct Hk as [->|Hk]; [assumption|].
      eapply str_in_trans; [exact S|].
      apply str_in_lower. now apply token_in_name.
    - intros S. apply candidates_fold. right.
      destruct (name_index_full (Dict.values (nodes g)) [] n Hn) as [ids [G Hi]].
      exists (name n), ids. split; [now apply get_In | auto]. }
  destruct nt as [t|]; unfold accepts.
  - unfold search_candidates in *. rewrite In_set_inter, Hbase.
    rewrite type_index_lookup by assumption.
    unfold find_nodes_by_type. split.
    + intros [S Ht]. split; [assumption|]. right.
      apply in_map_iff in Ht as (m & E & Hm).
      apply filter_In in Hm as [Hm Hty].
      assert (m = n) as -> by (eapply same_id_same_node; eauto).
      change (NodeType_eqb (node_type n) t) with (keqb (node_type n) t) in Hty.
      apply keqb_eq in Hty. congruence.
    + intros [S [Ht|Ht]]; [discriminate|]. injection Ht as ->.
      split; [assumption|]. apply in_map. apply filter_In.
      split; [assumption|]. apply (keqb_refl (node_type n)).
  - rewrite Hbase. split; [intros S; auto | tauto].
Qed.

Lemma candidate_nodes_ids (g : RecipeGraph) (cands : list string) :
  graph_inv g ->
  map node_id (candidate_nodes g cands)
  = filter (fun id => Dict.mem id (nodes g)) cands.
Proof.
  intros I. induction cands as [|c cands IH]; simpl; [reflexivity|].
  rewrite map_app, IH. unfold Dict.mem, get_node.
  destruct (Dict.get c (nodes g)) as [n|] eqn:G; simpl; [|reflexivity].
  f_equal. eapply get_node_id; eauto.
Qed.

Lemma NoDup_search_nodes (g : RecipeGraph) (st : GraphStorage) (q : string)
  (nt : option NodeType) (limit : Z) :
  graph_inv g ->
  NoDup (map node_id (search_nodes (mkEngine g st) q nt limit)).
Proof.
  intros I. unfold search_nodes. cbn [graph storage].
  destruct (py_take_prefix limit
              (sort_desc
                 (fun a b => Qgtb (_calculate_name_similarity q (name a))
                                  (_calculate_name_similarity q (name b)))
                 (candidate_nodes g (search_candidates st q nt)))) as [k ->].
  rewrite <- firstn_map. apply NoDup_firstn.
  eapply Permutation_NoDup.
  - apply Permutation_map. symmetry. apply sort_desc_perm.
  - rewrite candidate_nodes_ids by assumption.
    apply NoDup_filter, NoDup_search_candidates.
Qed.

(** X9: with the indexes built from the graph, the index search finds
    exactly the nodes of the linear scan [find_nodes_by_name]: the nodes
    whose lower-cased name contains the lower-cased query, of the
    requested type.  Every result of [search_nodes] is such a node, and
    when the limit is at least the number of candidates the result is a
    permutation of the linear scan. *)
Theorem search_matches_linear_scan (ops : list graph_op) (q : string)
  (nt : option NodeType) (limit : Z) :
  let g := build ops in
  let E := mkEngine g (_build_indexes g) in
  (forall n, In n (candidate_nodes g (search_candidates (_build_indexes g) q nt))
             <-> In n (find_nodes_by_name q nt g))
  /\ (forall n, In n (search_nodes E q nt limit) ->
                In n (find_nodes_by_name q nt g))
  /\ ((Z.of_nat (List.length (search_candidates (_build_indexes g) q nt))
       <= limit)%Z ->
      Permutation (search_nodes E q nt limit) (find_nodes_by_name q nt g)).
Proof.
  intros g E. pose proof (graph_inv_build ops : graph_inv g) as I.
  assert (forall n, In n (candidate_nodes g
                            (search_candidates (_build_indexes g) q nt))
                    <-> In n (find_nodes_by_name q nt g)) as Hiff.
  { intros n. rewrite In_candidate_nodes, In_find_nodes_by_name. split.
    - intros (id & Hc & G). apply get_node_In in G as [Hn <-]; [|assumption].
      split; [assumption|].
      now apply (search_candidates_spec g q nt n I Hn).
    - intros (Hn & S & T). exists (node_id n). split.
      + apply (search_candidates_spec g q nt n I Hn). auto.
      + now apply get_node_value. }
  split; [exact Hiff|]. split.
  - intros n Hin. apply Hiff. unfold search_nodes in Hin.
    apply In_py_take in Hin. now apply In_sort_desc in Hin.
  - intros Hl. unfold search_nodes. cbn [graph storage E].
    rewrite py_take_all.
    + rewrite sort_desc_perm. apply NoDup_Permutation.
      * apply (NoDup_map_inv node_id).
        rewrite candidate_nodes_ids by assumption.
        apply NoDup_filter, NoDup_search_candidates.
      * apply (NoDup_map_inv node_id). unfold find_nodes_by_name.
        destruct nt; repeat apply NoDup_map_filter; now apply NoDup_node_ids.
      * exact Hiff.
    + rewrite (Permutation_length (sort_desc_perm _ _)).
      pose proof (length_candidate_nodes g
                    (search_candidates (_build_indexes g) q nt)). lia.
Qed.

(** ** Results of [search_nodes] *)

Lemma length_py_take {A} (k : Z) (l : list A) :
  (0 <= k)%Z -> (Z.of_nat (List.length (py_take k l)) <= k)%Z.
Proof.
  intros Hk. unfold py_take. destruct (Z.ltb_spec k 0); [lia|].
  pose proof (firstn_le_length (Z.to_nat k) l). lia.
Qed.

Lemma length_py_take_le {A} (k : Z) (l : list A) :
  List.length (py_take k l) <= List.length l.
Proof.
  destruct (py_take_prefix k l) as [n ->]. rewrite length_firstn. lia.
Qed.

Lemma name_similarity_of_match (q nm : string) :
  str_in (lower q) (lower nm) = true ->
  _calculate_name_similarity q nm = 1%Q
  \/ _calculate_name_similarity q nm = (4 # 5)%Q.
Proof.
  intros S. unfold _calculate_name_similarity. rewrite S.
  destruct (String.eqb (lower q) (lower nm)); auto.
Qed.

(** X10: with the indexes built from the graph, [search_nodes] returns
    no node twice, at most [limit] nodes for a limit that is not
    negative, only nodes accepted by the type filter, in descending
    order of the name similarity; the similarity of a returned node is
    1 or 4/5, the character-overlap score is never the rank of a
    result. *)
Theorem search_nodes_result (ops : list graph_op) (q : string)
  (nt : option NodeType) (limit : Z) :
  let g := build ops in
  let res := search_nodes (mkEngine g (_build_indexes g)) q nt limit in
  NoDup (map node_id res)
  /\ ((0 <= limit)%Z -> (Z.of_nat (List.length res) <= limit)%Z)
  /\ StronglySorted
       (fun a b => (_calculate_name_similarity q (name b)
                    <= _calculate_name_similarity q (name a))%Q) res
  /\ forall n, In n res ->
       get_node (node_id n) g = Some n
       /\ accepts nt (node_type n)
       /\ (_calculate_name_similarity q (name n) = 1%Q
           \/ _calculate_name_similarity q (name n) = (4 # 5)%Q).
Proof.
  intros g res. pose proof (graph_inv_build ops : graph_inv g) as I.
  repeat apply conj.
  - now apply NoDup_search_nodes.
  - intros Hl. now apply length_py_take.
  - unfold res, search_nodes.
    destruct (py_take_prefix limit
                (sort_desc
                   (fun a b => Qgtb (_calculate_name_similarity q (name a))
                                    (_calculate_name_similarity q (name b)))
                   (candidate_nodes
                      (graph (mkEngine g (_build_indexes g)))
                      (search_candidates
                         (storage (mkEngine g (_build_indexes g))) q nt))))
      as [k ->].
    apply StronglySorted_firstn.
    apply (sort_desc_sorted (fun n => _calculate_name_similarity q (name n))).
  - intros n Hn. unfold res, search_nodes in Hn. cbn [graph storage] in Hn.
    apply In_py_take in Hn. apply In_sort_desc in Hn.
    apply In_candidate_nodes in Hn as (id & Hc & G).
    pose proof (get_node_In g id n I G) as [Hv <-].
    apply (search_candidates_spec g q nt n I Hv) in Hc as [S T].
    split; [assumption|]. split; [assumption|].
    now apply name_similarity_of_match.
Qed.

(** ** Jaccard scores *)

Lemma length_set_update {K} `{EqKey K} (xs s : list K) :
  List.length s <= List.length (set_update s xs).
Proof.
  unfold set_update. revert s. induction xs as [|x xs IH]; intros s; simpl; [lia|].
  etransitivity; [|apply IH]. unfold set_add.
  destruct (set_mem x s); [lia|]. rewrite length_app. simpl. lia.
Qed.

Lemma length_inter_union {K} `{EqKey K} (s t : list K) :
  List.length (set_inter s t) <= List.length (set_union s t).
Proof.
  unfold set_inter, set_union.
  etransitivity; [apply filter_length_le | apply length_set_update].
Qed.

Lemma ratio_bounds (a b : nat) :
  a <= b -> 0 < b -> (0 <= ratio a b)%Q /\ (ratio a b <= 1)%Q.
Proof.
  intros Hab Hb. unfold ratio.
  assert (0 < inject_Z (Z.of_nat b))%Q as Pb.
  { rewrite <- (Zlt_Qlt 0). lia. }
  split.
  - apply Qle_shift_div_l; [assumption|]. rewrite Qmult_0_l.
    rewrite <- (Zle_Qle 0). lia.
  - apply Qle_shift_div_r; [assumption|]. rewrite Qmult_1_l.
    rewrite <- Zle_Qle. lia.
Qed.

Lemma jaccard_bounds {K} `{EqKey K} (s t : list K) :
  let j := if 0 <? List.length (set_union s t)
           then ratio (List.length (set_inter s t)) (List.length (set_union s t))
           else 0%Q in
  (0 <= j)%Q /\ (j <= 1)%Q.
Proof.
  simpl. destruct (Nat.ltb_spec 0 (List.length (set_union s t))) as [Hp|Hz].
  - apply ratio_bounds; [apply length_inter_union | assumption].
  - split; [apply Qle_refl | discriminate].
Qed.

(** X11: the name similarity and the substitution score lie between 0
    and 1, whatever the strings and the graph are. *)
Theorem similarity_scores_bounded (E : GraphQueryEngine) (q nm : string)
  (original substitute : GraphNode) :
  (0 <= _calculate_name_similarity q nm
   /\ _calculate_name_similarity q nm <= 1)%Q
  /\ (0 <= _calculate_substitution_score E original substitute
      /\ _calculate_substitution_score E original substitute <= 1)%Q.
Proof.
  split.
  - unfold _calculate_name_similarity.
    destruct (String.eqb (lower q) (lower nm)); [split; discriminate|].
    destruct (str_in (lower q) (lower nm)); [split; discriminate|].
    apply jaccard_bounds.
  - unfold _calculate_substitution_score.
    destruct (is_nil _ || is_nil _); [split; discriminate|].
    apply jaccard_bounds.
Qed.

(* ================================================================== *)
(** * Further properties of the query engine                           *)
(* ================================================================== *)

Section SortGeneric.
Context {A : Type} (gtb : A -> A -> bool) (R : A -> A -> Prop).
Hypothesis gtb_true : forall y x, gtb y x = true -> R y x.
Hypothesis gtb_false : forall y x, gtb y x = false -> R x y.
Hypothesis R_trans : forall a b c, R a b -> R b c -> R a c.

Lemma insert_desc_sorted_gen (x : A) (l : list A) :
  StronglySorted R l -> StronglySorted R (insert_desc gtb x l).
Proof.
  induction 1 as [|y l Hs IH Hy]; simpl.
  - repeat constructor.
  - destruct (gtb y x) eqn:G.
    + constructor; [assumption|].
      eapply Permutation_Forall; [symmetry; apply insert_desc_perm|].
      constructor; [now apply gtb_true | assumption].
    + constructor; [now constructor|].
      constructor; [now apply gtb_false|].
      eapply Forall_impl; [|exact Hy]. intros z Hz.
      eapply R_trans; [apply gtb_false; exact G | exact Hz].
Qed.

Lemma sort_desc_sorted_gen (l : list A) : StronglySorted R (sort_desc gtb l).
Proof.
  induction l as [|x l IH]; simpl; [constructor | now apply insert_desc_sorted_gen].
Qed.
End SortGeneric.

Lemma sort_by_count_sorted {A} (l : list (A * Z)) : counts_desc (sort_by_count l).
Proof.
  unfold counts_desc, sort_by_count. apply sort_desc_sorted_gen.
  - intros y x G. apply Z.ltb_lt in G. lia.
  - intros y x G. apply Z.ltb_ge in G. lia.
  - intros a b c. lia.
Qed.

Lemma sort_by_score_sorted {A} (l : list (A * Q)) : scores_desc (sort_by_score l).
Proof.
  unfold scores_desc, sort_by_score. apply (sort_desc_sorted (@snd A Q)).
Qed.

Lemma fold_left_preserve {A B} (P : B -> Prop) (f : B -> A -> B)
  (l : list A) (b : B) :
  (forall b a, P b -> P (f b a)) -> P b -> P (fold_left f l b).
Proof.
  intros Hf. revert b. induction l as [|a l IH]; intros b Hb; simpl; auto.
Qed.

Lemma counts_wf_nil {K} : counts_wf (@nil (K * Z)).
Proof. split; [constructor | intros k v []]. Qed.

Lemma counts_wf_set {K} `{EqKeyOk K} (k : K) (counts : dict K Z) :
  counts_wf counts ->
  counts_wf (Dict.set k (default (Dict.get k counts) 0 + 1)%Z counts).
Proof.
  intros [ND Hpos]. split; [now apply NoDup_keys_set|].
  intros k' v Hin. apply In_set in Hin as [[-> ->]|Hin]; [|eauto].
  destruct (Dict.get k counts) as [old|] eqn:G; simpl; [|lia].
  apply get_In in G. specialize (Hpos _ _ G). lia.
Qed.

Lemma counts_wf_incr (k : string) (counts : dict string Z) :
  counts_wf counts -> counts_wf (incr k counts).
Proof. apply counts_wf_set. Qed.

Lemma In_counted_nodes (g : RecipeGraph) (counts : dict string Z)
  (keep : Z -> bool) (n : GraphNode) (c : Z) :
  In (n, c) (counted_nodes g counts keep)
  <-> exists id, In (id, c) counts /\ keep c = true /\ get_node id g = Some n.
Proof.
  unfold counted_nodes. rewrite in_flat_map. split.
  - intros ([id c'] & Hin & Hx).
    destruct (keep c') eqn:Kc; [|destruct Hx].
    destruct (get_node id g) eqn:G; [|destruct Hx].
    destruct Hx as [[= <- <-]|[]]. exists id. auto.
  - intros (id & Hin & Kc & G). exists (id, c). split; [assumption|].
    rewrite Kc, G. now left.
Qed.

Lemma NoDup_counted_nodes (g : RecipeGraph) (counts : dict string Z)
  (keep : Z -> bool) :
  graph_inv g -> NoDup (Dict.keys counts) ->
  NoDup (map (fun p => node_id (fst p)) (counted_nodes g counts keep)).
Proof.
  intros I ND. unfold counted_nodes.
  induction counts as [|[id c] counts IH]; simpl; [constructor|].
  inversion ND as [|? ? Hn ND']; subst. rewrite map_app.
  specialize (IH ND').
  destruct (keep c); simpl; [|assumption].
  destruct (get_node id g) as [n|] eqn:G; simpl; [|assumption].
  constructor; [|assumption].
  rewrite (get_node_id g id n I G).
  intros Hin. apply in_map_iff in Hin as [[m c'] [E Hm]]. simpl in E.
  apply (In_counted_nodes g counts keep m c') in Hm as (id' & Hc & _ & G').
  apply (get_node_id g id' m I) in G'. apply Hn.
  apply (in_map fst) in Hc. simpl in Hc.
  assert (id' = id) as <- by congruence. exact Hc.
Qed.

Lemma counted_result_ok (g : RecipeGraph) (counts : dict string Z)
  (keep : Z -> bool) :
  graph_inv g -> counts_wf counts ->
  count_result_ok g (sort_by_count (counted_nodes g counts keep)).
Proof.
  intros I [ND Hpos]. repeat apply conj.
  - apply sort_by_count_sorted.
  - eapply Permutation_NoDup;
      [apply Permutation_map; symmetry; apply sort_desc_perm|].
    now apply NoDup_counted_nodes.
  - intros n c Hin. apply In_sort_desc in Hin.
    apply In_counted_nodes in Hin as (id & Hc & _ & G). split; [eauto|].
    now rewrite (get_node_id g id n I G).
Qed.

Lemma counted_result_keep (g : RecipeGraph) (counts : dict string Z)
  (keep : Z -> bool) (n : GraphNode) (c : Z) :
  In (n, c) (sort_by_count (counted_nodes g counts keep)) -> keep c = true.
Proof.
  intros Hin. apply In_sort_desc in Hin.
  now apply In_counted_nodes in Hin as (id & _ & Kc & _).
Qed.

Lemma count_result_ok_nil (g : RecipeGraph) : count_result_ok g [].
Proof.
  split; [constructor|]. split; [constructor|]. intros n c [].
Qed.

Lemma two_hop_counts_wf (g : RecipeGraph) (starts : list GraphNode)
  (first second : EdgeType) : counts_wf (two_hop_counts g starts first second).
Proof.
  unfold two_hop_counts.
  apply fold_left_preserve; [|apply counts_wf_nil]. intros c1 a H1.
  apply fold_left_preserve; [|assumption]. intros c2 b H2.
  apply fold_left_preserve; [|assumption]. intros c3 x H3.
  now apply counts_wf_incr.
Qed.

(** X12: for a graph built by [add_node] and [add_edge] and any state of
    the indexes, the four count-based queries return their entries in
    descending order of the counts, no node twice, every entry a node of
    the graph with a count of at least 1.  The pairing counts are at
    least [min_cooccurrence]; with [require_all] every dish matches at
    least as often as there are requested names, and each such dish is
    also a result without [require_all]. *)
Theorem count_queries_result (ops : list graph_op) (st : GraphStorage)
  (nm : string) (names : list string) (min_cooccurrence : Z) :
  let g := build ops in
  let E := mkEngine g st in
  (count_result_ok g (find_ingredient_pairs E nm min_cooccurrence)
   /\ forall n c, In (n, c) (find_ingredient_pairs E nm min_cooccurrence) ->
                  (min_cooccurrence <= c)%Z)
  /\ (forall require_all,
         count_result_ok g (find_dishes_by_ingredients E names require_all))
  /\ (forall n c, In (n, c) (find_dishes_by_ingredients E names true) ->
         (Z.of_nat (List.length names) <= c)%Z
         /\ In (n, c) (find_dishes_by_ingredients E names false))
  /\ count_result_ok g (find_cooking_methods_for_ingredient E nm)
  /\ count_result_ok g (find_ingredients_by_cooking_method E nm).
Proof.
  intros g E. pose proof (graph_inv_build ops : graph_inv g) as I.
  assert (forall nodes0 : list GraphNode,
    counts_wf
      (fold_left
         (fun counts ingredient =>
            fold_left
              (fun counts dish =>
                 fold_left
                   (fun counts other =>
                      if String.eqb (node_id other) (node_id ingredient)
                      then counts else incr (node_id other) counts)
                   (get_neighbors (node_id dish) (Some CONTAINS) g) counts)
              (get_neighbors (node_id ingredient) (Some CONTAINS) g) counts)
         nodes0 [])) as Wpairs.
  { intros nodes0.
    apply fold_left_preserve; [|apply counts_wf_nil]. intros c1 a H1.
    apply fold_left_preserve; [|assumption]. intros c2 b H2.
    apply fold_left_preserve; [|assumption]. intros c3 x H3.
    destruct (String.eqb (node_id x) (node_id a)); [assumption|].
    now apply counts_wf_incr. }
  assert (forall nodes0 : list GraphNode,
    counts_wf
      (fold_left
         (fun scores ingredient =>
            fold_left (fun scores dish => incr (node_id dish) scores)
                      (get_neighbors (node_id ingredient) (Some CONTAINS) g)
                      scores)
         nodes0 [])) as Wdish.
  { intros nodes0.
    apply fold_left_preserve; [|apply counts_wf_nil]. intros c1 a H1.
    apply fold_left_preserve; [|assumption]. intros c2 b H2.
    now apply counts_wf_incr. }
  refine (conj (conj _ _) (conj _ (conj _ (conj _ _)))).
  - unfold find_ingredient_pairs. destruct (is_nil _); [apply count_result_ok_nil|].
    apply counted_result_ok; [assumption | apply Wpairs].
  - intros n c. unfold find_ingredient_pairs.
    destruct (is_nil _); [intros []|]. intros Hin.
    apply counted_result_keep in Hin. now apply Z.leb_le in Hin.
  - intros require_all. unfold find_dishes_by_ingredients.
    destruct (is_nil _); [apply count_result_ok_nil|].
    apply counted_result_ok; [assumption | apply Wdish].
  - intros n c H. unfold find_dishes_by_ingredients in *.
    destruct (is_nil _); [destruct H|]. split.
    + apply counted_result_keep in H.
      simpl in H. apply negb_true_iff, Z.ltb_ge in H. exact H.
    + apply In_sort_desc. apply In_sort_desc in H.
      apply In_counted_nodes in H as (id & Hc & _ & G).
      apply In_counted_nodes. exists id. auto.
  - unfold find_cooking_methods_for_ingredient.
    destruct (is_nil _); [apply count_result_ok_nil|].
    apply counted_result_ok; [assumption | apply two_hop_counts_wf].
  - unfold find_ingredients_by_cooking_method.
    destruct (is_nil _); [apply count_result_ok_nil|].
    apply counted_result_ok; [assumption | apply two_hop_counts_wf].
Qed.

Lemma keys_incr_other (k id : string) (counts : dict string Z) :
  k <> id -> ~ In id (Dict.keys counts) -> ~ In id (Dict.keys (incr k counts)).
Proof.
  intros N Hn. unfold incr. rewrite keys_set.
  destruct (Dict.mem k counts); [assumption|].
  rewrite in_app_iff. simpl. intros [?|[?|[]]]; [contradiction | congruence].
Qed.

(** X13: when the name resolves to exactly one ingredient node, that
    node is never among its own pairing partners. *)
Theorem pairs_exclude_ingredient (ops : list graph_op) (st : GraphStorage)
  (nm : string) (min_cooccurrence : Z) (i : GraphNode) :
  let E := mkEngine (build ops) st in
  search_nodes E nm (Some INGREDIENT) 10 = [i] ->
  forall n c, In (n, c) (find_ingredient_pairs E nm min_cooccurrence) ->
              node_id n <> node_id i.
Proof.
  intros E Hs n c. unfold find_ingredient_pairs. rewrite Hs.
  cbn [is_nil fold_left graph E]. intros Hin.
  apply In_sort_desc in Hin.
  apply In_counted_nodes in Hin as (id & Hc & _ & G).
  rewrite (get_node_id _ id n (graph_inv_build ops) G).
  apply (in_map fst) in Hc. cbn [fst] in Hc. revert Hc.
  fold (Dict.keys
          (fold_left
             (fun counts dish =>
                fold_left
                  (fun counts other =>
                     if String.eqb (node_id other) (node_id i)
                     then counts else incr (node_id other) counts)
                  (get_neighbors (node_id dish) (Some CONTAINS) (build ops))
                  counts)
             (get_neighbors (node_id i) (Some CONTAINS) (build ops)) [])).
  intros Hc Heq. subst id. revert Hc.
  apply (fold_left_preserve (fun counts => ~ In (node_id i) (Dict.keys counts)));
    [|intros []].
  intros c1 dish H1.
  apply (fold_left_preserve (fun counts => ~ In (node_id i) (Dict.keys counts)));
    [|assumption].
  intros c2 other H2.
  destruct (String.eqb_spec (node_id other) (node_id i)); [assumption|].
  now apply keys_incr_other.
Qed.

Lemma scores_desc_py_take {A} (k : Z) (l : list (A * Q)) :
  scores_desc l -> scores_desc (py_take k l).
Proof.
  intros Hs. destruct (py_take_prefix k l) as [n ->].
  now apply StronglySorted_firstn.
Qed.

(** X14: [find_similar_dishes] returns its entries in descending order
    of the weight, at most [limit] of them for a limit that is not
    negative, and every entry is the target of a similar_to edge that
    leaves a matched dish, with the weight of that edge; edges that enter
    a matched dish are not followed. *)
Theorem similar_dishes_result (ops : list graph_op) (st : GraphStorage)
  (nm : string) (limit : Z) :
  let g := build ops in
  let E := mkEngine g st in
  let r := find_similar_dishes E nm limit in
  scores_desc r
  /\ ((0 <= limit)%Z -> (Z.of_nat (List.length r) <= limit)%Z)
  /\ forall n w, In (n, w) r ->
       exists dish e,
         In dish (search_nodes E nm (Some DISH) 10)
         /\ In e (edges g)
         /\ source_id e = node_id dish
         /\ edge_type e = SIMILAR_TO
         /\ weight e = w
         /\ get_node (target_id e) g = Some n.
Proof.
  intros g E r. unfold r, find_similar_dishes.
  destruct (is_nil (search_nodes E nm (Some DISH) 10)).
  - split; [constructor|]. split; [simpl; lia | intros n w []].
  - split; [apply scores_desc_py_take, sort_by_score_sorted|].
    split; [apply length_py_take|].
    intros n w Hin. apply In_py_take in Hin. apply In_sort_desc in Hin.
    apply in_flat_map in Hin as (dish & Hd & Hin).
    apply in_flat_map in Hin as (e & He & Hin).
    cbn [graph E] in He, Hin.
    apply (get_edges_spec g _ _ _ _ (graph_inv_build ops) (adj_exact_build ops))
      in He as (He & Hs & _ & [Ht|Ht]); [discriminate|].
    destruct (get_node (target_id e) g) as [m|] eqn:G; [|destruct Hin].
    destruct Hin as [[= <- <-]|[]].
    exists dish, e. repeat split; auto. congruence.
Qed.

Lemma substitution_score_bounds (E : GraphQueryEngine)
  (original substitute : GraphNode) :
  (0 <= _calculate_substitution_score E original substitute)%Q
  /\ (_calculate_substitution_score E original substitute <= 1)%Q.
Proof.
  unfold _calculate_substitution_score.
  destruct (is_nil _ || is_nil _); [split; discriminate|].
  apply jaccard_bounds.
Qed.

(** X15: [get_ingredient_substitution_suggestions] returns at most ten
    suggestions in descending order of the score; every suggestion is a
    pairs_with neighbor of a matched ingredient, and its score is the
    substitution score of the two, greater than 1/10 and at most 1. *)
Theorem substitution_suggestions_result (E : GraphQueryEngine) (nm : string) :
  let r := get_ingredient_substitution_suggestions E nm in
  scores_desc r
  /\ List.length r <= 10
  /\ forall n s, In (n, s) r ->
       (1 # 10 < s)%Q /\ (s <= 1)%Q
       /\ exists ingredient,
            In ingredient (search_nodes E nm (Some INGREDIENT) 10)
            /\ In n (get_neighbors (node_id ingredient) (Some PAIRS_WITH) (graph E))
            /\ s = _calculate_substitution_score E ingredient n.
Proof.
  intros r. unfold r, get_ingredient_substitution_suggestions.
  destruct (is_nil (search_nodes E nm (Some INGREDIENT) 10)).
  - split; [constructor|]. split; [simpl; lia | intros n s []].
  - split; [apply scores_desc_py_take, sort_by_score_sorted|]. split.
    + match goal with
      | |- List.length (py_take 10 ?l) <= 10 =>
          pose proof (length_py_take 10 l ltac:(lia))
      end. lia.
    + intros n s Hin. apply In_py_take in Hin. apply In_sort_desc in Hin.
      apply in_flat_map in Hin as (ing & Hi & Hin).
      apply in_flat_map in Hin as (p & Hp & Hin).
      cbv zeta in Hin.
      destruct (Qgtb (_calculate_substitution_score E ing p) (1 # 10)) eqn:C;
        [|destruct Hin].
      destruct Hin as [[= <- <-]|[]]. apply Qgtb_true in C.
      split; [assumption|]. split.
      * apply (substitution_score_bounds E ing p).
      * exists ing. auto.
Qed.

(** X16: with a depth bound of zero or less the path search finds
    nothing between two nodes with different ids. *)
Theorem no_path_without_depth (g : RecipeGraph) (s e : GraphNode) (d : Z) :
  node_id s <> node_id e ->
  (d <= 0)%Z ->
  _find_shortest_path g s e d = None.
Proof.
  intros N Hd. destruct (_find_shortest_path g s e d) as [p|] eqn:F; [|reflexivity].
  apply find_shortest_path_some in F as ((Hh & Hl & _) & _ & _ & Hb).
  specialize (Hb (or_intror N)). unfold hops in Hb.
  destruct p as [|x [|y p]]; [discriminate | | cbn [List.length] in Hb; lia].
  injection Hh as ->. simpl in Hl. contradiction.
Qed.

(* ================================================================== *)
(** * Further properties of the recommendation engine                  *)
(* ================================================================== *)

Lemma length_similar_recs (E : GraphQueryEngine) (dish : string) (k : Z) :
  List.length (recommend_similar_dishes E dish k) <= 5.
Proof.
  unfold recommend_similar_dishes.
  etransitivity; [apply length_py_take_le|]. rewrite length_map.
  unfold find_similar_dishes. destruct (is_nil _); [simpl; lia|].
  match goal with
  | |- List.length (py_take 5 ?l) <= 5 =>
      pose proof (length_py_take 5 l ltac:(lia))
  end. lia.
Qed.

Lemma length_substitution_recs (E : GraphQueryEngine) (nm : string) (k : Z) :
  List.length (recommend_ingredient_substitutions E nm k) <= 10.
Proof.
  unfold recommend_ingredient_substitutions.
  etransitivity; [apply length_py_take_le|]. rewrite length_map.
  unfold get_ingredient_substitution_suggestions.
  destruct (is_nil _); [simpl; lia|].
  match goal with
  | |- List.length (py_take 10 ?l) <= 10 =>
      pose proof (length_py_take 10 l ltac:(lia))
  end. lia.
Qed.

(** X17: for a maximum that is not negative, every recommendation
    function returns at most that many entries.  Whatever the maximum
    is, the similar-dish list has at most 5 entries and the substitution
    list at most 10, the bounds of the queries beneath them. *)
Theorem recommendation_list_sizes (math_log : Z -> Q) (E : GraphQueryEngine)
  (k : Z) :
  (0 <= k)%Z ->
  (forall names,
      (Z.of_nat (List.length (recommend_dishes_by_ingredients E names k)) <= k)%Z)
  /\ (forall dish,
         (Z.of_nat (List.length (recommend_ingredients_by_dish math_log E dish k))
          <= k)%Z)
  /\ (forall dish,
         (Z.of_nat (List.length (recommend_similar_dishes E dish k)) <= k)%Z
         /\ List.length (recommend_similar_dishes E dish k) <= 5)
  /\ (forall method,
         (Z.of_nat (List.length (recommend_by_cooking_method E method k)) <= k)%Z)
  /\ (forall category,
         (Z.of_nat (List.length (recommend_by_category E category k)) <= k)%Z)
  /\ (forall prefs,
         (Z.of_nat (List.length (hybrid_recommend E prefs k)) <= k)%Z)
  /\ (forall nm,
         (Z.of_nat (List.length (recommend_ingredient_substitutions E nm k)) <= k)%Z
         /\ List.length (recommend_ingredient_substitutions E nm k) <= 10).
Proof.
  intros Hk. split; [|split; [|split; [|split; [|split; [|split]]]]].
  - intros names. now apply length_py_take.
  - intros dish. unfold recommend_ingredients_by_dish.
    destruct (is_nil _); [simpl; lia | now apply length_py_take].
  - intros dish. split; [now apply length_py_take | apply length_similar_recs].
  - intros method. now apply length_py_take.
  - intros category. unfold recommend_by_category.
    destruct (search_nodes _ _ _ _); [simpl; lia | now apply length_py_take].
  - intros prefs. now apply length_py_take.
  - intros nm. split; [now apply length_py_take | apply length_substitution_recs].
Qed.

Lemma ratio_pos (a b : nat) : 0 < a -> 0 < b -> (0 < ratio a b)%Q.
Proof.
  intros Ha Hb. unfold ratio. apply Qlt_shift_div_l.
  - rewrite <- (Zlt_Qlt 0). lia.
  - rewrite Qmult_0_l. rewrite <- (Zlt_Qlt 0). lia.
Qed.

Lemma In_sort_recommendations (r : Recommendation) (l : list Recommendation) :
  In r (sort_recommendations l) <-> In r l.
Proof. apply In_sort_desc. Qed.

(** X18: a by-cooking-method recommendation has a score greater than 0
    and at most 1; a by-dish ingredient recommendation has a score of at
    most 1, whatever the logarithm returns; a by-category recommendation
    has one of the scores 1, 4/5 and 3/5. *)
Theorem recommendation_score_ranges (math_log : Z -> Q) (E : GraphQueryEngine)
  (nm : string) (k : Z) (r : Recommendation) :
  (In r (recommend_by_cooking_method E nm k) ->
   (0 < score r)%Q /\ (score r <= 1)%Q)
  /\ (In r (recommend_ingredients_by_dish math_log E nm k) ->
      (score r <= 1)%Q)
  /\ (In r (recommend_by_category E nm k) ->
      score r = 1%Q \/ score r = (4 # 5)%Q \/ score r = (3 # 5)%Q).
Proof.
  split; [|split].
  - unfold recommend_by_cooking_method. intros Hin.
    apply In_py_take in Hin. apply (proj1 (In_sort_recommendations _ _)) in Hin.
    apply in_flat_map in Hin as (dish & _ & Hin).
    cbv zeta in Hin.
    match type of Hin with
    | In _ (if 0 <? List.length (filter ?p ?l) then _ else _) =>
        pose proof (filter_length_le p l) as Hle;
        destruct (Nat.ltb_spec 0 (List.length (filter p l))) as [Hpos|];
        [|destruct Hin]
    end.
    destruct Hin as [<-|[]]. cbn [score].
    unfold _calculate_method_based_score.
    destruct (Nat.eqb_spec
                (List.length (get_neighbors (node_id dish) (Some CONTAINS) (graph E)))
                0) as [Hz|Hnz]; [lia|].
    split; [apply ratio_pos; lia | apply ratio_bounds; lia].
  - rewrite recommend_ingredients_by_dish_merge. intros Hin.
    destruct (merge_ranked
                (pair_recommendations math_log E
                   (search_nodes E nm (Some DISH) 10)) k)
      as (U & _ & _ & _ & _ & [_ Hb] & _).
    destruct (Hb r Hin) as [Hrec _].
    unfold pair_recommendations in Hrec.
    apply in_flat_map in Hrec as (dish & _ & Hrec). cbv zeta in Hrec.
    apply in_flat_map in Hrec as (ing & _ & Hrec).
    apply in_flat_map in Hrec as ([p c] & _ & Hrec).
    destruct (existsb _ _); [destruct Hrec|].
    destruct Hrec as [<-|[]]. cbn [score].
    unfold _calculate_pairing_score. cbv zeta.
    destruct (Qgtb (math_log (c + 1)%Z / 5) 1) eqn:C; [apply Qle_refl|].
    now apply Qgtb_false in C.
  - unfold recommend_by_category.
    destruct (search_nodes E nm (Some CATEGORY) 10) as [|cat l]; [intros []|].
    intros Hin. apply In_py_take in Hin.
    apply (proj1 (In_sort_recommendations _ _)) in Hin.
    apply in_map_iff in Hin as (dish & <- & _). cbn [score].
    unfold _calculate_category_based_score. cbv zeta.
    destruct (_ && _); [now left|]. destruct (_ <? 4); auto.
Qed.

(** ** Merging twice *)

Lemma unique_of_distinct (l : list Recommendation) (u : dict string Recommendation) :
  NoDup (Dict.keys u ++ map item_name l) ->
  fold_left keep_best l u = u ++ map (fun r => (item_name r, r)) l.
Proof.
  revert u. induction l as [|r l IH]; intros u ND; simpl.
  - now rewrite app_nil_r.
  - assert (~ In (item_name r) (Dict.keys u)) as Hn.
    { apply NoDup_remove_2 in ND. intros Hin. apply ND.
      apply in_app_iff. now left. }
    unfold keep_best at 2. fold (item_name r).
    apply get_None_keys in Hn. rewrite Hn. apply get_None_keys in Hn.
    rewrite set_fresh by assumption. rewrite IH.
    + now rewrite <- app_assoc.
    + unfold Dict.keys. rewrite map_app. simpl.
      rewrite <- app_assoc. exact ND.
Qed.

Lemma unique_values_of_distinct (l : list Recommendation) :
  NoDup (map item_name l) -> Dict.values (unique_recommendations l) = l.
Proof.
  intros ND. unfold unique_recommendations.
  rewrite unique_of_distinct by exact ND. simpl.
  unfold Dict.values. rewrite map_map. simpl. apply map_id.
Qed.

Lemma sort_of_sorted (l : list Recommendation) :
  sorted_desc l -> sort_recommendations l = l.
Proof.
  unfold sort_recommendations.
  induction 1 as [|x l Hs IH Hx]; simpl; [reflexivity|].
  rewrite IH. destruct l as [|y l]; simpl; [reflexivity|].
  inversion Hx as [|? ? Hy _]; subst.
  apply Qgtb_false in Hy. now rewrite Hy.
Qed.

(** X19: merging is idempotent: for a maximum that is not negative, a
    merged list is left unchanged by a second merge. *)
Theorem merge_idempotent (recs : list Recommendation) (k : Z) :
  (0 <= k)%Z ->
  _merge_recommendations (_merge_recommendations recs k) k
  = _merge_recommendations recs k.
Proof.
  intros Hk.
  destruct (merge_ranked recs k) as (U & _ & _ & _ & Heq & [ND _] & Hs).
  pose proof (length_py_take k (sort_recommendations U) Hk) as Hl.
  rewrite <- Heq in Hl.
  unfold _merge_recommendations at 1.
  rewrite unique_values_of_distinct by exact ND.
  rewrite sort_of_sorted by exact Hs.
  now apply py_take_all.
Qed.

(** ** Trending combinations *)

#[export] Instance pair_EqKeyOk : EqKeyOk (string * string).
Proof.
  intros [a b] [c d]. unfold keqb, pair_EqKey. simpl.
  rewrite andb_true_iff, !String.eqb_eq. split; [intros [-> ->] | intros [= -> ->]]; auto.
Qed.

Lemma ltb_asym (a b : string) : String.ltb a b = true -> String.ltb b a = false.
Proof.
  unfold String.ltb. rewrite (String.compare_antisym b a).
  destruct (String.compare a b); simpl; congruence.
Qed.

Lemma sorted_pair_ordered (a b : string) :
  String.ltb (snd (sorted_pair a b)) (fst (sorted_pair a b)) = false.
Proof.
  unfold sorted_pair. destruct (String.ltb b a) eqn:L; simpl.
  - now apply ltb_asym.
  - exact L.
Qed.

Lemma name_pairs_ordered (names : list string) (p : string * string) :
  In p (name_pairs names) -> String.ltb (snd p) (fst p) = false.
Proof.
  induction names as [|x names IH]; simpl; [intros []|].
  rewrite in_app_iff, in_map_iff. intros [(y & <- & _)|Hin]; [|auto].
  apply sorted_pair_ordered.
Qed.

(** The counting dictionary of the combinations: distinct ordered pairs
    with positive counts. *)
Lemma trending_counts_wf (g : RecipeGraph) :
  counts_wf (trending_counts g)
  /\ forall p c, In (p, c) (trending_counts g) ->
                 String.ltb (snd p) (fst p) = false.
Proof.
  unfold trending_counts.
  apply (fold_left_preserve
           (fun counts : dict (string * string) Z =>
              counts_wf counts
              /\ forall p c, In (p, c) counts ->
                             String.ltb (snd p) (fst p) = false)).
  - intros c1 dish H1.
    assert (forall l : list (string * string),
              (forall p, In p l -> String.ltb (snd p) (fst p) = false) ->
              counts_wf (fold_left (fun counts combo => incr_pair combo counts) l c1)
              /\ forall p c,
                   In (p, c) (fold_left (fun counts combo => incr_pair combo counts)
                                        l c1) ->
                   String.ltb (snd p) (fst p) = false) as Hl.
    { intros l. revert c1 H1. induction l as [|q l IH]; intros c1 H1 Hord; simpl;
        [assumption|].
      apply IH; [|intros p Hp; apply Hord; now right].
      destruct H1 as [W O]. split; [now apply counts_wf_set|].
      intros p c Hin. apply In_set in Hin as [[-> _]|Hin]; [|eauto].
      apply Hord. now left. }
    apply Hl. apply name_pairs_ordered.
  - split; [apply counts_wf_nil | intros p c []].
Qed.

(** X20: [discover_trending_combinations] returns at most 20
    combinations in descending order of the count; every combination is
    a pair of two names in ascending order, no pair twice, counted at
    least [min_cooccurrence] times. *)
Theorem trending_combinations_result (g : RecipeGraph) (min_cooccurrence : Z) :
  let r := discover_trending_combinations g min_cooccurrence in
  counts_desc r
  /\ List.length r <= 20
  /\ NoDup (map fst r)
  /\ forall names c, In (names, c) r ->
       (min_cooccurrence <= c)%Z
       /\ (1 <= c)%Z
       /\ exists a b, names = [a; b] /\ String.ltb b a = false.
Proof.
  intros r. unfold r, discover_trending_combinations.
  destruct (trending_counts_wf g) as [[ND Hpos] Hord].
  match goal with
  | |- context [py_take 20 (sort_by_count ?l)] => set (combos := l)
  end.
  assert (forall names c, In (names, c) combos ->
            exists p, In (p, c) (trending_counts g)
                      /\ names = [fst p; snd p]
                      /\ (min_cooccurrence <=? c)%Z = true) as Hc.
  { intros names c Hin. unfold combos in Hin.
    apply in_flat_map in Hin as ([p c'] & Hp & Hin).
    destruct (min_cooccurrence <=? c')%Z eqn:L; [|destruct Hin].
    destruct Hin as [[= <- <-]|[]]. exists p. auto. }
  assert (NoDup (map fst combos)) as NDc.
  { unfold combos. clear Hc. revert ND.
    generalize (trending_counts g) as counts.
    induction counts as [|[p c] counts IH]; simpl; intros ND; [constructor|].
    inversion ND as [|? ? Hn ND']; subst. rewrite map_app.
    destruct (min_cooccurrence <=? c)%Z; simpl; [|auto].
    constructor; [|auto].
    intros Hin. apply in_map_iff in Hin as ([names c'] & E & Hin).
    apply in_flat_map in Hin as ([p' c''] & Hp' & Hin).
    destruct (min_cooccurrence <=? c'')%Z; [|destruct Hin].
    destruct Hin as [[= <- <-]|[]]. simpl in E. injection E as E1 E2.
    apply Hn. apply (in_map fst) in Hp'. simpl in Hp'.
    destruct p, p'. simpl in *. now subst. }
  split; [|split; [|split]].
  - destruct (py_take_prefix 20 (sort_by_count combos)) as [n ->].
    apply StronglySorted_firstn, sort_by_count_sorted.
  - pose proof (length_py_take 20 (sort_by_count combos) ltac:(lia)). lia.
  - destruct (py_take_prefix 20 (sort_by_count combos)) as [n ->].
    rewrite <- firstn_map. apply NoDup_firstn.
    eapply Permutation_NoDup; [|exact NDc].
    apply Permutation_map. symmetry. apply sort_desc_perm.
  - intros names c Hin. apply In_py_take in Hin. apply In_sort_desc in Hin.
    destruct (Hc names c Hin) as (p & Hp & -> & L).
    split; [now apply Z.leb_le|]. split; [eauto|].
    exists (fst p), (snd p). split; [reflexivity | eauto].
Qed.

Example kitchen_trending :
  discover_trending_combinations kitchen 2
  = [(["egg"; "tomato"], 2%Z); (["onion"; "tomato"], 2%Z)].
Proof. vm_compute. reflexivity. Qed.

(* ================================================================== *)
(** * Saving and loading                                               *)
(* ================================================================== *)

Lemma get_snoc_fresh {K V} `{EqKeyOk K} (k : K) (v : V) (d : dict K V) :
  ~ In k (Dict.keys d) -> Dict.get k (d ++ [(k, v)]) = Some v.
Proof.
  intros Hn. rewrite <- (set_fresh k v d Hn). apply get_set_eq.
Qed.

Lemma set_snoc_fresh {K V} `{EqKeyOk K} (k : K) (v v' : V) (d : dict K V) :
  ~ In k (Dict.keys d) -> Dict.set k v' (d ++ [(k, v)]) = d ++ [(k, v')].
Proof.
  intros Hn. induction d as [|[k0 v0] d IH]; simpl.
  - now rewrite keqb_refl.
  - simpl in Hn. destruct (keqb k k0) eqn:E.
    + apply keqb_eq in E. exfalso. apply Hn. now left.
    + rewrite IH; [reflexivity | tauto].
Qed.

Lemma load_type_index_spec (tix acc : dict NodeType (list string)) :
  NoDup (Dict.keys acc ++ Dict.keys tix) ->
  (forall k ids, In (k, ids) tix -> NoDup ids) ->
  load_type_index (map (fun '(k, v) => (NodeType_value k, v)) tix) acc
  = Some (acc ++ tix).
Proof.
  revert acc. induction tix as [|[k v] tix IH]; intros acc ND Hs; simpl.
  - now rewrite app_nil_r.
  - rewrite NodeType_roundtrip.
    assert (~ In k (Dict.keys acc)) as Hn.
    { simpl in ND. apply NoDup_remove_2 in ND. intros Hin. apply ND.
      apply in_app_iff. now left. }
    rewrite set_fresh by assumption.
    unfold set_of_list.
    rewrite (set_update_fresh v []) by (simpl; apply (Hs k v); now left).
    simpl. rewrite IH.
    + now rewrite <- app_assoc.
    + unfold Dict.keys. rewrite map_app. simpl. rewrite <- app_assoc. exact ND.
    + intros k' ids Hin. apply (Hs k' ids). now right.
Qed.

Lemma load_reverse_inner (target : string)
  (srcs2 srcs1 : dict string (list GraphEdge))
  (acc : dict string (dict string (list GraphEdge))) :
  ~ In target (Dict.keys acc) ->
  NoDup (Dict.keys (srcs1 ++ srcs2)) ->
  fold_left
    (fun rev '(source, es) =>
       Dict.set target
                (Dict.set source es (default (Dict.get target rev) [])) rev)
    srcs2 (acc ++ [(target, srcs1)])
  = acc ++ [(target, srcs1 ++ srcs2)].
Proof.
  intros Hn. revert srcs1. induction srcs2 as [|[s es] srcs2 IH];
    intros srcs1 ND; simpl.
  - now rewrite app_nil_r.
  - rewrite get_snoc_fresh by assumption. simpl.
    rewrite set_snoc_fresh by assumption.
    unfold Dict.keys in ND. rewrite map_app in ND. simpl in ND.
    rewrite set_fresh.
    + rewrite IH; [now rewrite <- app_assoc|].
      unfold Dict.keys. rewrite <- app_assoc, map_app. exact ND.
    + apply NoDup_remove_2 in ND. intros Hin. apply ND.
      apply in_app_iff. now left.
Qed.

Lemma load_reverse_outer
  (items acc : dict string (dict string (list GraphEdge))) :
  NoDup (Dict.keys acc ++ Dict.keys items) ->
  (forall t sources, In (t, sources) items ->
                     sources <> [] /\ NoDup (Dict.keys sources)) ->
  fold_left
    (fun rev '(target, sources) =>
       fold_left
         (fun rev '(source, es) =>
            Dict.set target
                     (Dict.set source es (default (Dict.get target rev) []))
                     rev)
         sources rev)
    items acc
  = acc ++ items.
Proof.
  revert acc. induction items as [|[t sources] items IH]; intros acc ND Hs; simpl.
  - now rewrite app_nil_r.
  - assert (~ In t (Dict.keys acc)) as Hn.
    { simpl in ND. apply NoDup_remove_2 in ND. intros Hin. apply ND.
      apply in_app_iff. now left. }
    destruct (Hs t sources (or_introl eq_refl)) as [Hne NDs].
    destruct sources as [|[s es] sources]; [congruence|]. simpl.
    pose proof Hn as Hg. apply get_None_keys in Hg. rewrite Hg. simpl.
    rewrite set_fresh by assumption.
    rewrite (load_reverse_inner t sources [(s, es)] acc Hn NDs). simpl.
    rewrite IH.
    + now rewrite <- app_assoc.
    + unfold Dict.keys. rewrite map_app. simpl. rewrite <- app_assoc. exact ND.
    + intros t' src' Hin. apply (Hs t' src'). now right.
Qed.

Lemma index_wf_add {K} `{EqKeyOk K} (k : K) (x : string)
  (idx : dict K (list string)) :
  index_wf idx -> index_wf (index_add k x idx).
Proof.
  intros [ND Hs]. unfold index_add. split; [now apply NoDup_keys_set|].
  intros k' ids Hin. apply In_set in Hin as [[-> ->]|Hin]; [|eauto].
  apply NoDup_set_add.
  destruct (Dict.get k idx) as [old|] eqn:G; simpl; [|constructor].
  apply get_In in G. eauto.
Qed.

Lemma reverse_add_wf (rev : dict string (dict string (list GraphEdge)))
  (e : GraphEdge) :
  NoDup (Dict.keys rev)
  /\ (forall t sources, In (t, sources) rev ->
                        sources <> [] /\ NoDup (Dict.keys sources)) ->
  NoDup (Dict.keys (reverse_add rev e))
  /\ (forall t sources, In (t, sources) (reverse_add rev e) ->
                        sources <> [] /\ NoDup (Dict.keys sources)).
Proof.
  intros [ND Hs]. unfold reverse_add. split; [now apply NoDup_keys_set|].
  intros t sources Hin. apply In_set in Hin as [[-> ->]|Hin]; [|eauto].
  split.
  - intros Hnil.
    pose proof (In_set_same (source_id e)
                  (default
                     (Dict.get (source_id e)
                        (default (Dict.get (target_id e) rev) [])) [] ++ [e])
                  (default (Dict.get (target_id e) rev) [])) as Hx.
    rewrite Hnil in Hx. destruct Hx.
  - apply NoDup_keys_set.
    destruct (Dict.get (target_id e) rev) as [old|] eqn:G; simpl; [|constructor].
    apply get_In in G. now apply (Hs _ _ G).
Qed.

Lemma storage_wf_build (g : RecipeGraph) : storage_wf (_build_indexes g).
Proof.
  unfold storage_wf. cbn [_build_indexes _type_index _reverse_adjacency]. split.
  - apply (fold_left_preserve (fun idx : dict NodeType (list string) => index_wf idx)).
    + intros idx n Hw. now apply index_wf_add.
    + split; [constructor | intros k ids []].
  - apply (fold_left_preserve
             (fun rev : dict string (dict string (list GraphEdge)) =>
                NoDup (Dict.keys rev)
                /\ forall t sources, In (t, sources) rev ->
                                     sources <> [] /\ NoDup (Dict.keys sources))).
    + intros rev e Hw. now apply reverse_add_wf.
    + split; [constructor | intros t sources []].
Qed.

Lemma load_save_indexes (st : GraphStorage) :
  storage_wf st -> _load_indexes (_save_indexes st) = Some st.
Proof.
  intros ([NDt Hsets] & NDr & Hrev). unfold _load_indexes, _save_indexes.
  cbn [id_type_index id_name_index id_reverse_adjacency].
  rewrite (load_type_index_spec (_type_index st) []) by (simpl; assumption).
  unfold load_reverse_adjacency.
  rewrite (load_reverse_outer (_reverse_adjacency st) []) by (simpl; assumption).
  simpl. now destruct st.
Qed.

(** X21: the indexes built from a graph survive [_save_indexes] and
    [_load_indexes]: loading the saved dictionary succeeds and restores
    the name index, the type index and the reverse adjacency as they
    were. *)
Theorem index_save_load_roundtrip (g : RecipeGraph) :
  _load_indexes (_save_indexes (_build_indexes g)) = Some (_build_indexes g)
  /\ storage_wf (_build_indexes g).
Proof.
  pose proof (storage_wf_build g) as W.
  split; [now apply load_save_indexes | exact W].
Qed.

(** X22: a graph that was exported and imported again gives the same
    indexes and the same answer of [search_nodes] as the original. *)
Theorem search_after_reload (ops : list graph_op) (q : string)
  (nt : option NodeType) (limit : Z) :
  exists g',
    load_from_file (to_dict (build ops)) = Some g'
    /\ _build_indexes g' = _build_indexes (build ops)
    /\ search_nodes (mkEngine g' (_build_indexes g')) q nt limit
       = search_nodes (mkEngine (build ops) (_build_indexes (build ops)))
                      q nt limit.
Proof.
  destruct (roundtrip_inv (build ops) (graph_inv_build ops)) as (g' & L & N & E).
  exists g'. split; [exact L|].
  assert (_build_indexes g' = _build_indexes (build ops)) as Hi.
  { unfold _build_indexes. now rewrite N, E. }
  split; [exact Hi|].
  unfold search_nodes, candidate_nodes, get_node. cbn [graph storage].
  now rewrite Hi, N.
Qed.

(** ** Instances of the further properties *)

Lemma reload_is_stable_witness :
  load_from_file sample_data
  = Some (build [AddNode node_a; AddNode node_b; AddEdge (edge_ab 1)])
  /\ exists g',
       load_from_file
         (to_dict (build [AddNode node_a; AddNode node_b; AddEdge (edge_ab 1)]))
       = Some g'
       /\ nodes g' = nodes (build [AddNode node_a; AddNode node_b; AddEdge (edge_ab 1)])
       /\ edges g' = edges (build [AddNode node_a; AddNode node_b; AddEdge (edge_ab 1)])
       /\ to_dict g'
          = to_dict (build [AddNode node_a; AddNode node_b; AddEdge (edge_ab 1)]).
Proof.
  split; [reflexivity|].
  apply (reload_is_stable sample_data). reflexivity.
Defined.

Lemma pairs_exclude_ingredient_witness :
  search_nodes (mkEngine (build kitchen_ops) (_build_indexes kitchen))
               "tomato" (Some INGREDIENT) 10
  = [ingredient "tomato"]
  /\ In (ingredient "egg", 2%Z)
        (find_ingredient_pairs
           (mkEngine (build kitchen_ops) (_build_indexes kitchen)) "tomato" 2)
  /\ node_id (ingredient "egg") <> node_id (ingredient "tomato").
Proof.
  assert (search_nodes (mkEngine (build kitchen_ops) (_build_indexes kitchen))
                       "tomato" (Some INGREDIENT) 10
          = [ingredient "tomato"]) as Hs by (vm_compute; reflexivity).
  assert (In (ingredient "egg", 2%Z)
             (find_ingredient_pairs
                (mkEngine (build kitchen_ops) (_build_indexes kitchen))
                "tomato" 2)) as Hin by (vm_compute; left; reflexivity).
  split; [exact Hs|]. split; [exact Hin|].
  exact (pairs_exclude_ingredient kitchen_ops (_build_indexes kitchen) "tomato" 2
           (ingredient "tomato") Hs (ingredient "egg") 2%Z Hin).
Defined.

Lemma no_path_without_depth_witness :
  node_id (ingredient "egg") <> node_id (ingredient "onion")
  /\ (0 <= 0)%Z
  /\ _find_shortest_path kitchen (ingredient "egg") (ingredient "onion") 0 = None.
Proof.
  assert (node_id (ingredient "egg") <> node_id (ingredient "onion")) as N
    by (simpl; discriminate).
  split; [exact N|]. split; [lia|].
  apply (no_path_without_depth kitchen (ingredient "egg") (ingredient "onion") 0 N).
  lia.
Defined.

Lemma recommendation_list_sizes_witness :
  (0 <= 1)%Z
  /\ (Z.of_nat
        (List.length (recommend_dishes_by_ingredients kitchen_engine ["tomato"] 1))
      <= 1)%Z.
Proof.
  split; [lia|].
  destruct (recommendation_list_sizes inject_Z kitchen_engine 1 ltac:(lia))
    as [H _].
  apply H.
Defined.

Lemma merge_idempotent_witness :
  (0 <= 5)%Z
  /\ _merge_recommendations
       (_merge_recommendations
          [mkRec node_a (1 # 2); mkRec node_a (3 # 4); mkRec node_b (1 # 4)] 5) 5
     = _merge_recommendations
         [mkRec node_a (1 # 2); mkRec node_a (3 # 4); mkRec node_b (1 # 4)] 5.
Proof.
  split; [lia|].
  apply (merge_idempotent
           [mkRec node_a (1 # 2); mkRec node_a (3 # 4); mkRec node_b (1 # 4)] 5).
  lia.
Defined.

(* ------------------------------------------------------------------ *)
(** ** The name-based queries of [RecipeGraph]                         *)
(* ------------------------------------------------------------------ *)

(** A fold that only ever adds members: what is in the result is what was
    there at the start or what some step added. *)
Lemma fold_left_members {S A B : Type} (P : S -> Prop) (M : S -> B -> Prop)
  (Q : A -> Prop) (R : A -> B -> Prop) (f : S -> A -> S) :
  (forall s a, Q a -> P s ->
     P (f s a) /\ forall y, M (f s a) y <-> M s y \/ R a y) ->
  forall l s, Forall Q l -> P s ->
    P (fold_left f l s)
    /\ forall y, M (fold_left f l s) y
                 <-> M s y \/ exists a, In a l /\ R a y.
Proof.
  intros Hstep. induction l as [|a l IH]; intros s HQ HP; cbn [fold_left].
  - split; [assumption|]. intros y. split; [auto|].
    intros [?|(a & [] & _)]. assumption.
  - inversion HQ as [|? ? Qa Ql]; subst.
    destruct (Hstep s a Qa HP) as [HP' HM'].
    destruct (IH (f s a) Ql HP') as [HP'' HM''].
    split; [assumption|]. intros y. rewrite HM'', HM'. split.
    + intros [[?|?]|(b & Hb & Rb)].
      * now left.
      * right. exists a. split; [now left | assumption].
      * right. exists b. split; [now right | assumption].
    + intros [?|(b & [<-|Hb] & Rb)].
      * left. now left.
      * left. now right.
      * right. exists b. auto.
Qed.

Lemma fold_left_flat_map {S A B : Type} (f : S -> B -> S) (h : A -> list B)
  (l : list A) (s : S) :
  fold_left f (flat_map h l) s = fold_left (fun s a => fold_left f (h a) s) l s.
Proof.
  revert s. induction l as [|a l IH]; intros s; cbn [flat_map fold_left].
  - reflexivity.
  - now rewrite fold_left_app, IH.
Qed.

Lemma node_set_nil (g : RecipeGraph) : node_set g [].
Proof. split; [intros n [] | constructor]. Qed.

Lemma node_set_mem (g : RecipeGraph) (s : list GraphNode) (x : GraphNode) :
  graph_inv g -> node_set g s -> In x (Dict.values (nodes g)) ->
  set_mem x s = true <-> In (node_id x) (map node_id s).
Proof.
  intros I [Hs _] Hx. unfold set_mem. rewrite existsb_exists, in_map_iff.
  split; intros (y & H1 & H2).
  - exists y. split; [|assumption].
    unfold keqb, GraphNode_EqKey in H2. apply String.eqb_eq in H2. congruence.
  - exists y. split; [assumption|].
    unfold keqb, GraphNode_EqKey. apply String.eqb_eq. congruence.
Qed.

Lemma node_set_add (g : RecipeGraph) (s : list GraphNode) (x : GraphNode) :
  graph_inv g -> node_set g s -> In x (Dict.values (nodes g)) ->
  node_set g (set_add x s)
  /\ forall y, In y (set_add x s) <-> In y s \/ y = x.
Proof.
  intros I Hs Hx. pose proof (node_set_mem g s x I Hs Hx) as Hm.
  unfold set_add. destruct (set_mem x s) eqn:M.
  - split; [assumption|]. intros y. split; [auto|]. intros [?| ->]; [assumption|].
    pose proof (proj1 Hm eq_refl) as Hin.
    apply in_map_iff in Hin as (z & Ez & Hz).
    destruct Hs as [Hs _].
    now rewrite <- (same_id_same_node g z x I (Hs z Hz) Hx Ez).
  - destruct Hs as [Hs ND]. split; [split|].
    + intros y Hy. apply in_app_iff in Hy as [Hy|[<-|[]]]; auto.
    + rewrite map_app. apply NoDup_snoc; [assumption|].
      intros Hin. apply Hm in Hin. discriminate.
    + intros y. rewrite in_app_iff. simpl. intuition.
Qed.

Lemma skip_add_fold (g : RecipeGraph) (skip : GraphNode -> bool)
  (xs s : list GraphNode) :
  graph_inv g -> incl xs (Dict.values (nodes g)) -> node_set g s ->
  node_set g (fold_left (fun acc x => if skip x then acc else set_add x acc) xs s)
  /\ forall y,
       In y (fold_left (fun acc x => if skip x then acc else set_add x acc) xs s)
       <-> In y s \/ exists x, In x xs /\ y = x /\ skip x = false.
Proof.
  intros I Hxs Hs.
  apply (fold_left_members (node_set g) (fun acc y => In y acc)
           (fun x => In x (Dict.values (nodes g)))
           (fun x y => y = x /\ skip x = false)
           (fun acc x => if skip x then acc else set_add x acc)).
  - intros acc x Hx Hacc. destruct (skip x) eqn:Sx.
    + split; [assumption|]. intros y. split; [auto|].
      intros [?|[_ ?]]; [assumption | discriminate].
    + destruct (node_set_add g acc x I Hacc Hx) as [H1 H2].
      split; [assumption|]. intros y. rewrite H2. intuition.
  - apply Forall_forall. exact Hxs.
  - assumption.
Qed.

Lemma neighbors_incl (g : RecipeGraph) (id : string) (et : option EdgeType) :
  incl (get_neighbors id et g) (Dict.values (nodes g)).
Proof. intros w. apply get_neighbors_values. Qed.

Lemma pairs_fold_spec (g : RecipeGraph) (starts : list GraphNode) :
  graph_inv g ->
  let pairs :=
    fold_left
      (fun pairs ingredient =>
         fold_left
           (fun pairs dish =>
              fold_left
                (fun pairs other_ingredient =>
                   if String.eqb (node_id other_ingredient) (node_id ingredient)
                   then pairs else set_add other_ingredient pairs)
                (get_neighbors (node_id dish) (Some CONTAINS) g)
                pairs)
           (get_neighbors (node_id ingredient) (Some CONTAINS) g)
           pairs)
      starts [] in
  node_set g pairs
  /\ forall n,
       In n pairs
       <-> exists ingredient dish,
             In ingredient starts
             /\ In dish (get_neighbors (node_id ingredient) (Some CONTAINS) g)
             /\ In n (get_neighbors (node_id dish) (Some CONTAINS) g)
             /\ node_id n <> node_id ingredient.
Proof.
  intros I pairs. subst pairs.
  match goal with
  | |- node_set g (fold_left ?f starts []) /\ _ =>
      destruct (fold_left_members (node_set g) (fun acc y => In y acc)
                  (fun _ : GraphNode => True)
                  (fun ingredient n =>
                     exists dish,
                       In dish (get_neighbors (node_id ingredient) (Some CONTAINS) g)
                       /\ In n (get_neighbors (node_id dish) (Some CONTAINS) g)
                       /\ node_id n <> node_id ingredient)
                  f) with (l := starts) (s := @nil GraphNode) as [H1 H2]
  end.
  - intros acc ingredient _ Hacc.
    match goal with
    | |- node_set g (fold_left ?f ?xs acc) /\ _ =>
        destruct (fold_left_members (node_set g) (fun acc y => In y acc)
                    (fun _ : GraphNode => True)
                    (fun dish n =>
                       In n (get_neighbors (node_id dish) (Some CONTAINS) g)
                       /\ node_id n <> node_id ingredient)
                    f) with (l := xs) (s := acc) as [H1 H2]
    end.
    + intros acc' dish _ Hacc'.
      destruct (skip_add_fold g
                  (fun x => String.eqb (node_id x) (node_id ingredient))
                  (get_neighbors (node_id dish) (Some CONTAINS) g) acc' I
                  (neighbors_incl g _ _) Hacc') as [H1 H2].
      split; [exact H1|]. intros y. rewrite H2. split.
      * intros [?|(x & Hx & -> & Sx)]; [now left|]. right.
        split; [assumption|]. now apply String.eqb_neq.
      * intros [?|[Hy N]]; [now left|]. right. exists y.
        split; [assumption|]. split; [reflexivity|]. now apply String.eqb_neq.
    + apply Forall_forall. intros; exact Logic.I.
    + assumption.
    + split; [exact H1|]. intros y. rewrite H2. reflexivity.
  - apply Forall_forall. intros; exact Logic.I.
  - apply node_set_nil.
  - split; [exact H1|]. intros n. rewrite H2. split.
    + intros [[]|(i & Hi & dish & Hd)]. exists i, dish. tauto.
    + intros (i & dish & Hi & Hd). right. exists i. split; [assumption|].
      exists dish. exact Hd.
Qed.

(** X23: in a graph built by [add_node] and [add_edge], the result of
    [get_ingredient_pairs] holds no node twice, and a node is in it exactly
    when it is a [CONTAINS] neighbour of a [CONTAINS] neighbour of an
    ingredient node found for the name, with an id other than that
    ingredient's; when one node is found for the name, that node is not
    in the result. *)
Theorem ingredient_pairs_members (ops : list graph_op) (nm : string) :
  let g := build ops in
  NoDup (map node_id (get_ingredient_pairs nm g))
  /\ (forall n,
        In n (get_ingredient_pairs nm g)
        <-> exists ingredient dish,
              In ingredient (find_nodes_by_name nm (Some INGREDIENT) g)
              /\ In dish (get_neighbors (node_id ingredient) (Some CONTAINS) g)
              /\ In n (get_neighbors (node_id dish) (Some CONTAINS) g)
              /\ node_id n <> node_id ingredient)
  /\ (forall i,
        find_nodes_by_name nm (Some INGREDIENT) g = [i] ->
        ~ In i (get_ingredient_pairs nm g)).
Proof.
  intros g. pose proof (graph_inv_build ops : graph_inv g) as I.
  assert (forall n,
            In n (get_ingredient_pairs nm g)
            <-> exists ingredient dish,
                  In ingredient (find_nodes_by_name nm (Some INGREDIENT) g)
                  /\ In dish (get_neighbors (node_id ingredient) (Some CONTAINS) g)
                  /\ In n (get_neighbors (node_id dish) (Some CONTAINS) g)
                  /\ node_id n <> node_id ingredient) as Hmem.
  { intros n. unfold get_ingredient_pairs.
    destruct (find_nodes_by_name nm (Some INGREDIENT) g) as [|i0 rest] eqn:F.
    - cbn [is_nil]. split; [intros [] | intros (i & _ & [] & _)].
    - cbn [is_nil]. apply (pairs_fold_spec g (i0 :: rest) I). }
  split; [|split].
  - unfold get_ingredient_pairs. destruct (is_nil _); [constructor|].
    apply (pairs_fold_spec g _ I).
  - exact Hmem.
  - intros i Hi Hin. apply Hmem in Hin as (i' & dish & Hi' & _ & _ & N).
    rewrite Hi in Hi'. destruct Hi' as [<-|[]]. now apply N.
Qed.

Lemma methods_fold_spec (g : RecipeGraph) (et : option EdgeType)
  (starts : list GraphNode) :
  graph_inv g ->
  let methods :=
    fold_left
      (fun methods dish => set_update methods (get_neighbors (node_id dish) et g))
      starts [] in
  node_set g methods
  /\ forall n,
       In n methods
       <-> exists dish, In dish starts /\ In n (get_neighbors (node_id dish) et g).
Proof.
  intros I methods. subst methods.
  destruct (fold_left_members (node_set g) (fun acc y => In y acc)
              (fun _ : GraphNode => True)
              (fun dish n => In n (get_neighbors (node_id dish) et g))
              (fun methods dish =>
                 set_update methods (get_neighbors (node_id dish) et g)))
    with (l := starts) (s := @nil GraphNode) as [G1 G2].
  - intros acc dish _ Hacc.
    destruct (skip_add_fold g (fun _ => false)
                (get_neighbors (node_id dish) et g) acc I
                (neighbors_incl g _ _) Hacc) as [H1 H2].
    split; [exact H1|]. intros y. unfold set_update.
    etransitivity; [apply H2|]. split.
    + intros [?|(x & Hx & -> & _)]; auto.
    + intros [?|Hy]; [now left|]. right. exists y. auto.
  - apply Forall_forall. intros; exact Logic.I.
  - apply node_set_nil.
  - split; [exact G1|]. intros n. rewrite G2. split; [intros [[]|?] | right]; assumption.
Qed.

(** X25: in a graph built by [add_node] and [add_edge], the result of
    [get_cooking_methods_for_dish] holds no node twice, and a node is in
    it exactly when it is a [USES_METHOD] neighbour of a dish node found
    for the name. *)
Theorem cooking_methods_members (ops : list graph_op) (nm : string) :
  let g := build ops in
  NoDup (map node_id (get_cooking_methods_for_dish nm g))
  /\ forall n,
       In n (get_cooking_methods_for_dish nm g)
       <-> exists dish,
             In dish (find_nodes_by_name nm (Some DISH) g)
             /\ In n (get_neighbors (node_id dish) (Some USES_METHOD) g).
Proof.
  intros g. pose proof (graph_inv_build ops : graph_inv g) as I.
  unfold get_cooking_methods_for_dish.
  destruct (find_nodes_by_name nm (Some DISH) g) as [|d0 rest] eqn:F; cbn [is_nil].
  - split; [constructor|]. intros n. split; [intros [] | intros (d & [] & _)].
  - destruct (methods_fold_spec g (Some USES_METHOD) (d0 :: rest) I) as [[_ ND] Hmem].
    split; [exact ND | exact Hmem].
Qed.

Lemma keys_count_fold {A} (f : A -> string) (l : list A)
  (counts : dict string Z) (k : string) :
  In k (Dict.keys (fold_left (fun c x => incr (f x) c) l counts))
  <-> In k (Dict.keys counts) \/ In k (map f l).
Proof.
  revert counts. induction l as [|x l IH]; intros counts; cbn [fold_left map].
  - simpl. tauto.
  - rewrite IH. unfold incr at 1. rewrite keys_set.
    destruct (Dict.mem (f x) counts) eqn:M.
    + apply mem_true in M. simpl. split; [tauto|].
      intros [?|[<-|?]]; auto.
    + rewrite in_app_iff. simpl. tauto.
Qed.

Lemma counts_wf_count_fold {A} (f : A -> string) (l : list A) :
  counts_wf (fold_left (fun c x => incr (f x) c) l []).
Proof.
  apply fold_left_preserve; [|apply counts_wf_nil].
  intros c x Hc. now apply counts_wf_incr.
Qed.

Lemma StronglySorted_flat_map {A B} (R : A -> A -> Prop) (R' : B -> B -> Prop)
  (f : A -> list B) (l : list A) :
  (forall a, List.length (f a) <= 1) ->
  (forall a b x y, In a l -> In b l -> R a b ->
                   In x (f a) -> In y (f b) -> R' x y) ->
  StronglySorted R l -> StronglySorted R' (flat_map f l).
Proof.
  intros Hlen Hrel Hs. induction Hs as [|a l Hs IH Hall]; cbn [flat_map].
  - constructor.
  - assert (StronglySorted R' (flat_map f l)) as IH'.
    { apply IH. intros a' b x y Ha Hb. apply Hrel; now right. }
    pose proof (Hlen a) as La.
    destruct (f a) as [|x [|x' rest]] eqn:Fa; cbn [app]; [assumption | | simpl in La; lia].
    constructor; [assumption|].
    apply Forall_forall. intros y Hy. apply in_flat_map in Hy as (b & Hb & Hy).
    apply (Hrel a b x y); [now left | now right | | rewrite Fa; now left | assumption].
    eapply Forall_forall in Hall; eauto.
Qed.

Lemma counted_ids_result (g : RecipeGraph) (visits : list GraphNode) :
  graph_inv g -> incl visits (Dict.values (nodes g)) ->
  let times d :=
    List.length (filter (fun x => String.eqb (node_id x) (node_id d)) visits) in
  let r :=
    flat_map (fun '(dish_id, _) => opt_to_list (get_node dish_id g))
             (sort_by_count
                (fold_left (fun c x => incr (node_id x) c) visits [])) in
  (forall d, In d r <-> In d visits)
  /\ NoDup (map node_id r)
  /\ StronglySorted (fun a b => times b <= times a) r.
Proof.
  intros I Hv times r.
  pose (scores := fold_left (fun c x => incr (node_id x) c) visits []).
  pose proof (counts_wf_count_fold node_id visits) as [ND Hpos].
  fold scores in ND, Hpos.
  assert (forall id c x, In (id, c) (sort_by_count scores) ->
                         In x (opt_to_list (get_node id g)) ->
                         node_id x = id /\ c = Z.of_nat (times x)) as Hentry.
  { intros id c x Hin Hx. apply In_sort_desc in Hin.
    destruct (get_node id g) as [n|] eqn:G; [|destruct Hx].
    destruct Hx as [<-|[]].
    pose proof (get_node_id g id n I G) as E. split; [exact E|].
    pose proof (count_fold node_id visits [] id) as Hc.
    fold scores in Hc. rewrite (In_get _ _ _ ND Hin) in Hc.
    cbn [default Dict.get] in Hc. rewrite Hc. subst times. cbv beta.
    rewrite E. lia. }
  split; [|split].
  - intros d. subst r. fold scores. rewrite in_flat_map. split.
    + intros ([id c] & Hin & Hd).
      destruct (Hentry id c d Hin Hd) as [E _].
      apply In_sort_desc in Hin. apply (in_map fst) in Hin. cbn [fst] in Hin.
      apply (keys_count_fold node_id visits [] id) in Hin as [[]|Hin].
      apply in_map_iff in Hin as (x & Ex & Hx).
      destruct (get_node id g) as [n|] eqn:G; [|destruct Hd].
      destruct Hd as [<-|[]].
      pose proof (get_node_value g x I (Hv x Hx)) as Gx.
      rewrite Ex, G in Gx. injection Gx as ->. exact Hx.
    + intros Hd.
      assert (In (node_id d) (Dict.keys scores)) as Hk.
      { apply keys_count_fold. right. now apply in_map. }
      apply in_map_iff in Hk as ([id c] & Ek & Hk). cbn [fst] in Ek. subst id.
      exists (node_id d, c). split; [now apply In_sort_desc|].
      rewrite (get_node_value g d I (Hv d Hd)). now left.
  - subst r. fold scores. apply NoDup_ids_flat_map.
    + unfold Dict.keys.
      apply (Permutation_NoDup (l := map fst scores)); [|exact ND].
      apply Permutation_map. symmetry. apply sort_desc_perm.
    + intros k v n Hn. destruct (get_node k g) eqn:G; [|destruct Hn].
      destruct Hn as [<-|[]]. eapply get_node_id; eauto.
    + intros [k v]. apply length_opt_to_list.
  - subst r. fold scores.
    apply (StronglySorted_flat_map (fun a b : string * Z => (snd b <= snd a)%Z)).
    + intros [k v]. apply length_opt_to_list.
    + intros [ka ca] [kb cb] x y Ha Hb Hab Hx Hy. cbn [snd] in Hab.
      destruct (Hentry ka ca x Ha Hx) as [_ ->].
      destruct (Hentry kb cb y Hb Hy) as [_ ->]. lia.
    + apply sort_by_count_sorted.
Qed.

(** X24: in a graph built by [add_node] and [add_edge], the result of
    [get_dishes_by_ingredients] holds exactly the [CONTAINS] neighbours
    of the ingredient nodes found for the names, each once, and a node
    that was reached more often never comes after one reached less
    often. *)
Theorem dishes_by_ingredients_result (ops : list graph_op)
  (names : list string) :
  let g := build ops in
  let r := get_dishes_by_ingredients names g in
  (forall d, In d r <-> In d (counted_dishes names g))
  /\ NoDup (map node_id r)
  /\ StronglySorted
       (fun a b => times_counted names g b <= times_counted names g a) r.
Proof.
  intros g r. pose proof (graph_inv_build ops : graph_inv g) as I.
  subst r. unfold get_dishes_by_ingredients, times_counted.
  rewrite <- (fold_left_flat_map
                (fun scores dish => incr (node_id dish) scores)
                (fun ingredient =>
                   get_neighbors (node_id ingredient) (Some CONTAINS) g)).
  fold (counted_dishes names g).
  destruct (is_nil _) eqn:N.
  - assert (counted_dishes names g = []) as ->.
    { unfold counted_dishes.
      destruct (flat_map _ names); [reflexivity | discriminate]. }
    split; [tauto|]. split; constructor.
  - apply counted_ids_result; [assumption|].
    intros d Hd. unfold counted_dishes in Hd.
    apply in_flat_map in Hd as (i & _ & Hd).
    eapply get_neighbors_values; eauto.
Qed.

(* ------------------------------------------------------------------ *)
(** ** Scores of the by-ingredients recommendations                    *)
(* ------------------------------------------------------------------ *)

Lemma search_nodes_values (E : GraphQueryEngine) (q : string)
  (nt : option NodeType) (limit : Z) (n : GraphNode) :
  In n (search_nodes E q nt limit) -> In n (Dict.values (nodes (graph E))).
Proof.
  unfold search_nodes. intros Hn.
  apply In_py_take in Hn. apply In_sort_desc in Hn.
  apply In_candidate_nodes in Hn as (id & _ & G).
  apply get_In in G. apply (in_map snd) in G. exact G.
Qed.

Lemma neighbors_back (g : RecipeGraph) (et : option EdgeType)
  (v w : GraphNode) :
  graph_inv g -> adj_exact g -> In v (Dict.values (nodes g)) ->
  In w (get_neighbors (node_id v) et g) -> In v (get_neighbors (node_id w) et g).
Proof.
  intros I X Hv Hw. pose proof (get_node_value g v I Hv) as Gv.
  apply (get_neighbors_spec g _ et w I X) in Hw as (e & He & Ha & Hw).
  apply (get_neighbors_spec g _ et v I X). exists e.
  split; [assumption|]. split; [assumption|].
  destruct Hw as [[Es Gw]|[Et Gw]].
  - right. split; [symmetry; eapply get_node_id; eauto | now rewrite Es].
  - left. split; [symmetry; eapply get_node_id; eauto | now rewrite Et].
Qed.

Lemma ingredient_score_pos (g : RecipeGraph) (dish : GraphNode)
  (match_count : Z) :
  (1 <= match_count)%Z ->
  get_neighbors (node_id dish) (Some CONTAINS) g <> [] ->
  (0 < _calculate_ingredient_based_score g dish match_count)%Q.
Proof.
  intros Hc Hn. unfold _calculate_ingredient_based_score.
  destruct (get_neighbors (node_id dish) (Some CONTAINS) g) as [|x l];
    [contradiction|].
  set (total := List.length (x :: l)).
  assert (0 < total) as Ht by (subst total; simpl; lia).
  destruct (Nat.eqb_spec total 0) as [E|_]; [lia|].
  cbv zeta. apply Qmult_lt_0_compat.
  - apply Qlt_shift_div_l.
    + change 0%Q with (inject_Z 0). rewrite <- Zlt_Qlt. lia.
    + rewrite Qmult_0_l. change 0%Q with (inject_Z 0). rewrite <- Zlt_Qlt. lia.
  - destruct ((3 <=? total) && (total <=? 8)); [reflexivity|].
    destruct (10 <? total); reflexivity.
Qed.

(** X26: in a graph built by [add_node] and [add_edge], every
    recommendation of [recommend_dishes_by_ingredients] has a score
    greater than 0: a recommended node has a [CONTAINS] neighbour, the
    ingredient it was reached from. *)
Theorem ingredient_recommendations_positive (ops : list graph_op)
  (st : GraphStorage) (names : list string) (k : Z) :
  Forall (fun r => (0 < score r)%Q)
         (recommend_dishes_by_ingredients (mkEngine (build ops) st) names k).
Proof.
  pose proof (graph_inv_build ops) as I. pose proof (adj_exact_build ops) as X.
  apply Forall_forall. intros r Hr.
  unfold recommend_dishes_by_ingredients in Hr.
  apply In_py_take in Hr. apply (proj1 (In_sort_recommendations _ _)) in Hr.
  apply in_map_iff in Hr as ([dish mc] & <- & Hd). cbn [score graph].
  unfold find_dishes_by_ingredients in Hd. cbn [graph] in Hd.
  destruct (is_nil _); [destruct Hd|].
  apply In_sort_desc in Hd.
  apply In_counted_nodes in Hd as (id & Hc & _ & G).
  rewrite <- (fold_left_flat_map
                (fun scores d => incr (node_id d) scores)
                (fun ingredient =>
                   get_neighbors (node_id ingredient) (Some CONTAINS) (build ops)))
    in Hc.
  match type of Hc with
  | In _ (fold_left _ ?visits []) =>
      pose proof (counts_wf_count_fold node_id visits) as [_ Hpos];
      pose proof (proj1 (keys_count_fold node_id visits [] id)
                    (in_map fst _ _ Hc)) as [[]|Hk]
  end.
  apply ingredient_score_pos; [eapply Hpos; eauto|].
  apply in_map_iff in Hk as (x & Ex & Hx).
  apply in_flat_map in Hx as (i & Hi & Hx).
  apply in_flat_map in Hi as (nm & _ & Hi).
  apply search_nodes_values in Hi. cbn [graph] in Hi.
  pose proof (get_node_value _ x I (get_neighbors_values _ _ _ _ Hx)) as Gx.
  rewrite Ex, G in Gx. injection Gx as ->.
  apply (neighbors_back _ _ i x I X Hi) in Hx.
  intros E. rewrite E in Hx. destruct Hx.
Qed.

(* ------------------------------------------------------------------ *)
(** ** Edges of one type leave the other types alone                   *)
(* ------------------------------------------------------------------ *)

Lemma flat_map_set {V B : Type} (f : string * V -> list B) (k : string)
  (v : V) (d : dict string V) :
  (forall old, Dict.get k d = Some old -> f (k, v) = f (k, old)) ->
  (Dict.get k d = None -> f (k, v) = []) ->
  flat_map f (Dict.set k v d) = flat_map f d.
Proof.
  induction d as [|[k' v'] d IH]; intros Hs Hn; simpl in *.
  - now rewrite Hn.
  - key_cases k k'.
    + simpl. now rewrite (Hs v' eq_refl).
    + simpl. now rewrite IH.
Qed.

Lemma flat_map_ensure_key {V B : Type} (f : string * V -> list B) (k : string)
  (v : V) (d : dict string V) :
  f (k, v) = [] -> flat_map f (ensure_key k v d) = flat_map f d.
Proof.
  intros Hf. unfold ensure_key, Dict.mem.
  destruct (Dict.get k d) eqn:G; [reflexivity|].
  apply flat_map_set; [congruence | auto].
Qed.

Lemma type_matches_snoc (t : EdgeType) (es : list GraphEdge) (e : GraphEdge) :
  edge_type e <> t ->
  type_matches (Some t) (es ++ [e]) = type_matches (Some t) es.
Proof.
  intros N. simpl. rewrite existsb_app. simpl.
  destruct (EdgeType_eqb (edge_type e) t) eqn:E.
  - apply EdgeType_eqb_eq in E. contradiction.
  - now rewrite !orb_false_r.
Qed.

Lemma outgoing_add_edge (g : RecipeGraph) (e : GraphEdge) (t : EdgeType)
  (id : string) :
  edge_type e <> t ->
  outgoing_neighbors id (Some t) (add_edge e g)
  = outgoing_neighbors id (Some t) g.
Proof.
  intros N. destruct (edge_in e (edges g)) eqn:F;
    [now rewrite add_edge_present|].
  unfold outgoing_neighbors. rewrite (get_adj_add_edge e g id F).
  assert (forall k, get_node k (add_edge e g) = get_node k g) as Gn.
  { intros k. rewrite add_edge_fresh by assumption. reflexivity. }
  destruct (String.eqb_spec (source_id e) id) as [<-|Ne].
  - unfold adj_after.
    rewrite flat_map_set, flat_map_ensure_key.
    + destruct (Dict.get (source_id e) (adjacency_list g)); simpl; [|reflexivity].
      apply flat_map_ext. intros [k es]. now rewrite Gn.
    + reflexivity.
    + intros old Ho. rewrite get_ensure_key, String.eqb_refl in Ho.
      injection Ho as <-. now rewrite type_matches_snoc.
    + rewrite get_ensure_key, String.eqb_refl. discriminate.
  - destruct (Dict.get id (adjacency_list g)); [|reflexivity].
    apply flat_map_ext. intros [k es]. now rewrite Gn.
Qed.

Lemma incoming_add_edge (g : RecipeGraph) (e : GraphEdge) (t : EdgeType)
  (id : string) :
  edge_type e <> t ->
  incoming_neighbors id (Some t) (add_edge e g)
  = incoming_neighbors id (Some t) g.
Proof.
  intros N. destruct (edge_in e (edges g)) eqn:F;
    [now rewrite add_edge_present|].
  unfold incoming_neighbors. rewrite add_edge_fresh by assumption.
  cbn [adjacency_list].
  rewrite flat_map_set, flat_map_ensure_key.
  - apply flat_map_ext. intros [k d]. reflexivity.
  - reflexivity.
  - intros old Ho. rewrite get_ensure_key, String.eqb_refl in Ho.
    injection Ho as <-. rewrite get_adj_after.
    destruct (String.eqb_spec (target_id e) id) as [<-|Ne]; [|reflexivity].
    rewrite type_matches_snoc by assumption.
    destruct (Dict.get (target_id e)
                (default (Dict.get (source_id e) (adjacency_list g)) []));
      reflexivity.
  - rewrite get_ensure_key, String.eqb_refl. discriminate.
Qed.

Lemma get_edges_add_edge (g : RecipeGraph) (e : GraphEdge) (t : EdgeType)
  (s : string) (target : option string) :
  edge_type e <> t ->
  get_edges s target (Some t) (add_edge e g) = get_edges s target (Some t) g.
Proof.
  intros N. destruct (edge_in e (edges g)) eqn:F;
    [now rewrite add_edge_present|].
  unfold get_edges. rewrite (get_adj_add_edge e g s F).
  destruct (String.eqb_spec (source_id e) s) as [<-|Ne]; [|reflexivity].
  unfold adj_after. rewrite flat_map_set, flat_map_ensure_key.
  - destruct (Dict.get (source_id e) (adjacency_list g)); reflexivity.
  - now destruct (match target with None => true | Some t0 => _ end).
  - intros old Ho. rewrite get_ensure_key, String.eqb_refl in Ho.
    injection Ho as <-. rewrite filter_app. cbn [filter].
    destruct (EdgeType_eqb (edge_type e) t) eqn:E.
    + apply EdgeType_eqb_eq in E. contradiction.
    + now rewrite app_nil_r.
  - rewrite get_ensure_key, String.eqb_refl. discriminate.
Qed.

(** X27: [add_edge] never changes the node mapping, and for every edge
    type other than the one of the added edge it changes neither the
    result of [get_neighbors] nor the result of [get_edges] filtered by
    that type. *)
Theorem add_edge_other_type (g : RecipeGraph) (e : GraphEdge) (t : EdgeType) :
  edge_type e <> t ->
  nodes (add_edge e g) = nodes g
  /\ (forall id,
        get_neighbors id (Some t) (add_edge e g) = get_neighbors id (Some t) g)
  /\ (forall s target,
        get_edges s target (Some t) (add_edge e g)
        = get_edges s target (Some t) g).
Proof.
  intros N. split; [|split].
  - unfold add_edge. now destruct (edge_in e (edges g)).
  - intros id. unfold get_neighbors.
    now rewrite outgoing_add_edge, incoming_add_edge.
  - intros s target. now apply get_edges_add_edge.
Qed.

Lemma nodes_add_edge (e : GraphEdge) (g : RecipeGraph) :
  nodes (add_edge e g) = nodes g.
Proof. unfold add_edge. now destruct (edge_in e (edges g)). Qed.

Lemma edges_add_edge (e : GraphEdge) (g : RecipeGraph) :
  edges (add_edge e g)
  = edges g ++ (if edge_in e (edges g) then [] else [e]).
Proof.
  unfold add_edge. destruct (edge_in e (edges g)); [now rewrite app_nil_r|].
  reflexivity.
Qed.

Lemma extends_refl (t : EdgeType) (P : GraphEdge -> Prop) (g : RecipeGraph) :
  extends_with t P g g.
Proof.
  split; try reflexivity.
  - now exists [].
  - exists []. split; [now rewrite app_nil_r | constructor].
Qed.

Lemma extends_add_edge (t : EdgeType) (P : GraphEdge -> Prop)
  (g h : RecipeGraph) (e : GraphEdge) :
  edge_type e = t -> P e -> extends_with t P g h ->
  extends_with t P g (add_edge e h).
Proof.
  intros Et Pe [[es Hc] Hn [added [He Ha]] Hnb Hge]. split.
  - exists (es ++ [e]). rewrite map_app, fold_left_app, <- Hc. reflexivity.
  - now rewrite nodes_add_edge.
  - exists (added ++ (if edge_in e (edges h) then [] else [e])). split.
    + now rewrite edges_add_edge, He, app_assoc.
    + apply Forall_app. split; [assumption|].
      destruct (edge_in e (edges h)); repeat constructor; assumption.
  - intros id t' N. rewrite <- Hnb by assumption. unfold get_neighbors.
    rewrite outgoing_add_edge, incoming_add_edge; congruence.
  - intros s target t' N. rewrite <- Hge by assumption.
    apply get_edges_add_edge. congruence.
Qed.

Lemma extends_kind (t : EdgeType) (P P' : GraphEdge -> Prop)
  (g h : RecipeGraph) :
  (forall e, P e -> P' e) -> extends_with t P g h -> extends_with t P' g h.
Proof.
  intros HP [Hc Hn [added [He Ha]] Hnb Hge]. split; try assumption.
  exists added. split; [assumption|].
  eapply Forall_impl; [|exact Ha]. intros e [? ?]. auto.
Qed.

Lemma has_edge_in (e : GraphEdge) (g : RecipeGraph) :
  has_edge (source_id e) (target_id e) (edge_type e) g
  <-> edge_in e (edges g) = true.
Proof.
  rewrite edge_in_key, in_map_iff. unfold has_edge. split.
  - intros (x & Hx & Ek). exists x. auto.
  - intros (x & Ek & Hx). exists x. auto.
Qed.

Lemma has_edge_add_edge (s t : string) (et : EdgeType) (e : GraphEdge)
  (g : RecipeGraph) :
  has_edge s t et g -> has_edge s t et (add_edge e g).
Proof.
  intros (x & Hx & Ek). exists x. split; [|assumption].
  rewrite edges_add_edge. apply in_app_iff. now left.
Qed.

Lemma has_edge_added (e : GraphEdge) (g : RecipeGraph) :
  has_edge (source_id e) (target_id e) (edge_type e) (add_edge e g).
Proof.
  destruct (edge_in e (edges g)) eqn:F.
  - rewrite add_edge_present by assumption. now apply has_edge_in.
  - exists e. split; [|reflexivity].
    rewrite edges_add_edge, F. apply in_app_iff. right. now left.
Qed.

Lemma add_edge_has_edge (e : GraphEdge) (g : RecipeGraph) :
  has_edge (source_id e) (target_id e) (edge_type e) g -> add_edge e g = g.
Proof. intros H. apply add_edge_present. now apply has_edge_in. Qed.

(* ------------------------------------------------------------------ *)
(** ** The similarity of two dishes                                    *)
(* ------------------------------------------------------------------ *)

Lemma In_set_of_list {K} `{EqKeyOk K} (x : K) (xs : list K) :
  In x (set_of_list xs) <-> In x xs.
Proof. unfold set_of_list. rewrite In_set_update. simpl. tauto. Qed.

Lemma NoDup_set_of_list {K} `{EqKeyOk K} (xs : list K) : NoDup (set_of_list xs).
Proof. apply NoDup_set_update. constructor. Qed.

Lemma length_inter_comm {K} `{EqKeyOk K} (s t : list K) :
  NoDup s -> NoDup t ->
  List.length (set_inter s t) = List.length (set_inter t s).
Proof.
  intros Ns Nt. apply Permutation_length. apply NoDup_Permutation.
  - now apply NoDup_filter.
  - now apply NoDup_filter.
  - intros x. rewrite !In_set_inter. tauto.
Qed.

Lemma length_union_comm {K} `{EqKeyOk K} (s t : list K) :
  NoDup s -> NoDup t ->
  List.length (set_union s t) = List.length (set_union t s).
Proof.
  intros Ns Nt. apply Permutation_length. unfold set_union.
  apply NoDup_Permutation.
  - now apply NoDup_set_update.
  - now apply NoDup_set_update.
  - intros x. rewrite !In_set_update. tauto.
Qed.

Lemma set_inter_self {K} `{EqKeyOk K} (s : list K) : set_inter s s = s.
Proof.
  unfold set_inter. apply forallb_filter_id. apply forallb_forall.
  intros x Hx. now apply set_mem_In.
Qed.

Lemma set_update_known {K} `{EqKeyOk K} (s xs : list K) :
  incl xs s -> set_update s xs = s.
Proof.
  unfold set_update. induction xs as [|x xs IH]; intros Hi; simpl; [reflexivity|].
  unfold set_add at 2.
  rewrite (proj2 (set_mem_In x s)) by (apply Hi; now left).
  apply IH. intros y Hy. apply Hi. now right.
Qed.

Lemma ratio_zero (b : nat) : ratio 0 b == 0.
Proof. unfold ratio. simpl. unfold Qdiv. apply Qmult_0_l. Qed.

Lemma ratio_self (b : nat) : 0 < b -> ratio b b == 1.
Proof.
  intros Hb. unfold ratio, Qdiv. apply Qmult_inv_r.
  intros E. change 0%Q with (inject_Z 0) in E.
  apply (proj1 (inject_Z_injective _ _)) in E. lia.
Qed.

Lemma dish_similarity_frame (g h : RecipeGraph) (d1 d2 : GraphNode) :
  (forall id, get_neighbors id (Some CONTAINS) h
              = get_neighbors id (Some CONTAINS) g) ->
  _calculate_dish_similarity h d1 d2 = _calculate_dish_similarity g d1 d2.
Proof. intros Hn. unfold _calculate_dish_similarity. now rewrite !Hn. Qed.

Lemma dish_similarity_bounds (g : RecipeGraph) (d1 d2 : GraphNode) :
  (0 <= _calculate_dish_similarity g d1 d2)%Q
  /\ (_calculate_dish_similarity g d1 d2 <= 1)%Q.
Proof.
  unfold _calculate_dish_similarity. cbv zeta.
  destruct (is_nil _ || is_nil _); [split; [apply Qle_refl | discriminate]|].
  apply jaccard_bounds.
Qed.

Lemma dish_similarity_pos (g : RecipeGraph) (d1 d2 : GraphNode) :
  (0 < _calculate_dish_similarity g d1 d2)%Q
  <-> exists id,
        In id (map node_id (get_neighbors (node_id d1) (Some CONTAINS) g))
        /\ In id (map node_id (get_neighbors (node_id d2) (Some CONTAINS) g)).
Proof.
  unfold _calculate_dish_similarity. cbv zeta.
  set (s1 := set_of_list
               (map node_id (get_neighbors (node_id d1) (Some CONTAINS) g))).
  set (s2 := set_of_list
               (map node_id (get_neighbors (node_id d2) (Some CONTAINS) g))).
  assert ((exists id,
             In id (map node_id (get_neighbors (node_id d1) (Some CONTAINS) g))
             /\ In id (map node_id (get_neighbors (node_id d2) (Some CONTAINS) g)))
          <-> exists id, In id (set_inter s1 s2)) as ->.
  { split; intros (id & Hid); exists id.
    - apply In_set_inter. unfold s1, s2. now rewrite !In_set_of_list.
    - apply In_set_inter in Hid. unfold s1, s2 in Hid.
      now rewrite !In_set_of_list in Hid. }
  pose proof (length_inter_union s1 s2) as Hle.
  split.
  - destruct (is_nil s1 || is_nil s2); [intros L; now apply Qlt_irrefl in L|].
    destruct (0 <? List.length (set_union s1 s2));
      [|intros L; now apply Qlt_irrefl in L].
    destruct (set_inter s1 s2) as [|x l].
    + cbn [List.length]. rewrite ratio_zero. intros L. now apply Qlt_irrefl in L.
    + intros _. exists x. now left.
  - intros (id & Hid).
    assert (0 < List.length (set_inter s1 s2)) as Hpos.
    { destruct (set_inter s1 s2); [destruct Hid | simpl; lia]. }
    apply In_set_inter in Hid as [H1 H2].
    destruct s1 as [|a s1']; [destruct H1|].
    destruct s2 as [|b s2']; [destruct H2|].
    cbn [is_nil orb].
    destruct (Nat.ltb_spec 0 (List.length (set_union (a :: s1') (b :: s2'))));
      [|lia].
    apply ratio_pos; lia.
Qed.

(** X28: the similarity of two dishes lies between 0 and 1 and does not
    depend on the order of the two dishes; it is greater than 0 exactly
    when the dishes have a [CONTAINS] neighbour with the same id; a dish
    with a [CONTAINS] neighbour has similarity 1 to itself; adding an
    edge of another type than [CONTAINS] changes no similarity. *)
Theorem dish_similarity_properties (g : RecipeGraph) (d1 d2 : GraphNode) :
  let sim := _calculate_dish_similarity g in
  ((0 <= sim d1 d2)%Q /\ (sim d1 d2 <= 1)%Q)
  /\ sim d1 d2 = sim d2 d1
  /\ ((0 < sim d1 d2)%Q
      <-> exists n1 n2,
            In n1 (get_neighbors (node_id d1) (Some CONTAINS) g)
            /\ In n2 (get_neighbors (node_id d2) (Some CONTAINS) g)
            /\ node_id n1 = node_id n2)
  /\ (get_neighbors (node_id d1) (Some CONTAINS) g <> [] -> sim d1 d1 == 1)
  /\ (forall e, edge_type e <> CONTAINS ->
        _calculate_dish_similarity (add_edge e g) d1 d2 = sim d1 d2).
Proof.
  intros sim. subst sim. split; [|split; [|split; [|split]]].
  - apply dish_similarity_bounds.
  - unfold _calculate_dish_similarity. cbv zeta.
    set (s1 := set_of_list
                 (map node_id (get_neighbors (node_id d1) (Some CONTAINS) g))).
    set (s2 := set_of_list
                 (map node_id (get_neighbors (node_id d2) (Some CONTAINS) g))).
    rewrite (orb_comm (is_nil s2)).
    rewrite (length_inter_comm s2 s1), (length_union_comm s2 s1);
      try apply NoDup_set_of_list.
    reflexivity.
  - rewrite dish_similarity_pos. split.
    + intros (id & H1 & H2).
      apply in_map_iff in H1 as (n1 & E1 & H1).
      apply in_map_iff in H2 as (n2 & E2 & H2).
      exists n1, n2. split; [assumption|]. split; [assumption | congruence].
    + intros (n1 & n2 & H1 & H2 & E). exists (node_id n1). split.
      * now apply in_map.
      * rewrite E. now apply in_map.
  - intros Hne. unfold _calculate_dish_similarity. cbv zeta.
    set (s1 := set_of_list
                 (map node_id (get_neighbors (node_id d1) (Some CONTAINS) g))).
    assert (s1 <> []) as Hs.
    { destruct (get_neighbors (node_id d1) (Some CONTAINS) g) as [|n l] eqn:Gn;
        [contradiction|].
      intros E. assert (In (node_id n) s1) as Hin.
      { unfold s1. apply In_set_of_list. now left. }
      rewrite E in Hin. destruct Hin. }
    rewrite set_inter_self. unfold set_union.
    rewrite set_update_known by apply incl_refl.
    destruct s1 as [|a s1']; [contradiction|].
    cbn [is_nil orb]. cbn [List.length Nat.ltb Nat.leb].
    apply ratio_self. lia.
  - intros e N. apply dish_similarity_frame. intros id.
    unfold get_neighbors. now rewrite outgoing_add_edge, incoming_add_edge.
Qed.

(* ------------------------------------------------------------------ *)
(** ** The builder's similar-dish edges                                *)
(* ------------------------------------------------------------------ *)

Lemma before_head {A} (a b : A) (l : list A) : In b l -> before a b (a :: l).
Proof.
  intros Hb. apply in_split in Hb as (l2 & l3 & ->). now exists [], l2, l3.
Qed.

Lemma before_tail {A} (x a b : A) (l : list A) :
  before a b l -> before a b (x :: l).
Proof. intros (l1 & l2 & l3 & ->). now exists (x :: l1), l2, l3. Qed.

Lemma before_cons {A} (x a b : A) (l : list A) :
  before a b (x :: l) -> (a = x /\ In b l) \/ before a b l.
Proof.
  intros (l1 & l2 & l3 & E). destruct l1 as [|y l1]; simpl in E.
  - injection E as -> ->. left. split; [reflexivity|].
    apply in_app_iff. right. now left.
  - injection E as -> ->. right. now exists l1, l2, l3.
Qed.

Lemma incl_edges_add_edge (e : GraphEdge) (g : RecipeGraph) :
  incl (edges g) (edges (add_edge e g)).
Proof. intros x Hx. rewrite edges_add_edge. apply in_app_iff. now left. Qed.

Lemma has_edge_incl (s t : string) (et : EdgeType) (g h : RecipeGraph) :
  incl (edges g) (edges h) -> has_edge s t et g -> has_edge s t et h.
Proof. intros Hi (x & Hx & Ek). exists x. auto. Qed.

Lemma similar_edges_from_spec (g : RecipeGraph) (dishes : list GraphNode)
  (d1 : GraphNode) (rest : list GraphNode) (h : RecipeGraph) :
  (forall d2, In d2 rest -> before d1 d2 dishes) ->
  extends_with SIMILAR_TO (similar_edge_of g dishes) g h ->
  extends_with SIMILAR_TO (similar_edge_of g dishes) g
               (similar_edges_from d1 rest h)
  /\ incl (edges h) (edges (similar_edges_from d1 rest h))
  /\ forall d2, In d2 rest ->
       (3 # 10 < _calculate_dish_similarity g d1 d2)%Q ->
       has_edge (node_id d1) (node_id d2) SIMILAR_TO
                (similar_edges_from d1 rest h).
Proof.
  unfold similar_edges_from. revert h.
  induction rest as [|d2 rest IH]; intros h Hb Hx; cbn [fold_left].
  - split; [assumption|]. split; [apply incl_refl | intros d2 []].
  - assert (_calculate_dish_similarity h d1 d2
            = _calculate_dish_similarity g d1 d2) as Es.
    { apply dish_similarity_frame. intros id.
      apply (ext_neighbors _ _ _ _ Hx). discriminate. }
    rewrite Es.
    set (e := mkEdge (node_id d1) (node_id d2) SIMILAR_TO
                     (_calculate_dish_similarity g d1 d2) []).
    set (h1 := if Qgtb (_calculate_dish_similarity g d1 d2) (3 # 10)
               then add_edge e h else h).
    assert (extends_with SIMILAR_TO (similar_edge_of g dishes) g h1) as Hx1.
    { unfold h1. destruct (Qgtb _ _) eqn:Gt; [|assumption].
      apply extends_add_edge; [reflexivity | | assumption].
      exists d1, d2. split; [apply Hb; now left|].
      split; [now apply Qgtb_true | reflexivity]. }
    assert (incl (edges h) (edges h1)) as Hi1.
    { unfold h1. destruct (Qgtb _ _); [apply incl_edges_add_edge | apply incl_refl]. }
    destruct (IH h1 (fun d Hd => Hb d (or_intror Hd)) Hx1) as (Hx' & Hi' & Hc').
    split; [exact Hx'|]. split; [eapply incl_tran; eauto|].
    intros d [<-|Hd] Hgt; [|now apply Hc'].
    apply (has_edge_incl _ _ _ h1); [assumption|].
    unfold h1. rewrite (proj2 (Qgtb_true _ _) Hgt).
    apply (has_edge_added e h).
Qed.

Lemma similar_dishes_loop_spec (g : RecipeGraph) (dishes todo : list GraphNode)
  (h : RecipeGraph) :
  (forall a b, before a b todo -> before a b dishes) ->
  extends_with SIMILAR_TO (similar_edge_of g dishes) g h ->
  extends_with SIMILAR_TO (similar_edge_of g dishes) g
               (similar_dishes_loop todo h)
  /\ incl (edges h) (edges (similar_dishes_loop todo h))
  /\ forall a b, before a b todo ->
       (3 # 10 < _calculate_dish_similarity g a b)%Q ->
       has_edge (node_id a) (node_id b) SIMILAR_TO (similar_dishes_loop todo h).
Proof.
  revert h. induction todo as [|d1 rest IH]; intros h Hb Hx;
    cbn [similar_dishes_loop].
  - split; [assumption|]. split; [apply incl_refl|].
    intros a b (l1 & l2 & l3 & E). destruct l1; discriminate.
  - destruct (similar_edges_from_spec g dishes d1 rest h
                (fun d2 Hd => Hb d1 d2 (before_head d1 d2 rest Hd)) Hx)
      as (Hx1 & Hi1 & Hc1).
    destruct (IH (similar_edges_from d1 rest h)
                 (fun a b Hab => Hb a b (before_tail d1 a b rest Hab)) Hx1)
      as (Hx' & Hi' & Hc').
    split; [exact Hx'|]. split; [eapply incl_tran; eauto|].
    intros a b Hab Hgt. apply before_cons in Hab as [[-> Hin]|Hab].
    + eapply has_edge_incl; [exact Hi'|]. now apply Hc1.
    + now apply Hc'.
Qed.

Lemma similar_edges_from_fixed (g h : RecipeGraph) (d1 : GraphNode)
  (rest : list GraphNode) :
  (forall a b, _calculate_dish_similarity h a b
               = _calculate_dish_similarity g a b) ->
  (forall d2, In d2 rest ->
     (3 # 10 < _calculate_dish_similarity g d1 d2)%Q ->
     has_edge (node_id d1) (node_id d2) SIMILAR_TO h) ->
  similar_edges_from d1 rest h = h.
Proof.
  intros Hs. unfold similar_edges_from.
  induction rest as [|d2 rest IH]; intros Hc; cbn [fold_left]; [reflexivity|].
  rewrite Hs.
  destruct (Qgtb (_calculate_dish_similarity g d1 d2) (3 # 10)) eqn:Gt.
  - rewrite add_edge_has_edge.
    + apply IH. intros d Hd. apply Hc. now right.
    + apply Hc; [now left | now apply Qgtb_true].
  - apply IH. intros d Hd. apply Hc. now right.
Qed.

Lemma similar_dishes_loop_fixed (g h : RecipeGraph) (todo : list GraphNode) :
  (forall a b, _calculate_dish_similarity h a b
               = _calculate_dish_similarity g a b) ->
  (forall a b, before a b todo ->
     (3 # 10 < _calculate_dish_similarity g a b)%Q ->
     has_edge (node_id a) (node_id b) SIMILAR_TO h) ->
  similar_dishes_loop todo h = h.
Proof.
  intros Hs. induction todo as [|d1 rest IH]; intros Hc;
    cbn [similar_dishes_loop]; [reflexivity|].
  rewrite (similar_edges_from_fixed g h d1 rest Hs).
  - apply IH. intros a b Hab. apply Hc. now apply before_tail.
  - intros d2 Hd. apply Hc. now apply before_head.
Qed.

(** X29: [_build_similar_dishes] only calls [add_edge]: it keeps the
    nodes and the edges that were there and leaves the neighbours and
    edges of every other type as they were; every edge it adds is a
    [SIMILAR_TO] edge from a dish to a later dish of the dish list, whose
    weight is their similarity in the graph it started from and is above
    0.3; for every such pair of dishes the resulting graph has a
    [SIMILAR_TO] edge; and running it again changes nothing. *)
Theorem build_similar_dishes_result (g : RecipeGraph) :
  let dishes := find_nodes_by_type DISH g in
  let g' := _build_similar_dishes g in
  extends_with SIMILAR_TO (similar_edge_of g dishes) g g'
  /\ (forall d1 d2,
        before d1 d2 dishes ->
        (3 # 10 < _calculate_dish_similarity g d1 d2)%Q ->
        has_edge (node_id d1) (node_id d2) SIMILAR_TO g')
  /\ _build_similar_dishes g' = g'.
Proof.
  intros dishes g'.
  assert (extends_with SIMILAR_TO (similar_edge_of g dishes) g g'
          /\ incl (edges g) (edges g')
          /\ forall a b, before a b dishes ->
               (3 # 10 < _calculate_dish_similarity g a b)%Q ->
               has_edge (node_id a) (node_id b) SIMILAR_TO g')
    as (Hx & _ & Hc).
  { apply (similar_dishes_loop_spec g dishes dishes g);
      [auto | apply extends_refl]. }
  split; [exact Hx|]. split; [exact Hc|].
  unfold _build_similar_dishes at 1.
  assert (find_nodes_by_type DISH g' = dishes) as ->.
  { unfold dishes, find_nodes_by_type. now rewrite (ext_nodes _ _ _ _ Hx). }
  apply (similar_dishes_loop_fixed g g' dishes); [|exact Hc].
  intros a b. apply dish_similarity_frame. intros id.
  apply (ext_neighbors _ _ _ _ Hx). discriminate.
Qed.

(* ------------------------------------------------------------------ *)
(** ** The builder's pairing edges                                     *)
(* ------------------------------------------------------------------ *)

Lemma pair_counts_step (pairs : list (string * string))
  (counts : dict (string * string) Z) :
  (forall p, In p pairs -> String.ltb (snd p) (fst p) = false) ->
  counts_wf counts ->
  (forall p c, In (p, c) counts -> String.ltb (snd p) (fst p) = false) ->
  counts_wf (fold_left (fun counts p => incr_pair p counts) pairs counts)
  /\ forall p c,
       In (p, c) (fold_left (fun counts p => incr_pair p counts) pairs counts) ->
       String.ltb (snd p) (fst p) = false.
Proof.
  revert counts. induction pairs as [|q pairs IH]; intros counts Hq W O;
    cbn [fold_left]; [split; assumption|].
  apply IH.
  - intros p Hp. apply Hq. now right.
  - now apply counts_wf_set.
  - intros p c Hin. unfold incr_pair in Hin.
    apply In_set in Hin as [[-> _]|Hin]; [apply Hq; now left | eauto].
Qed.

Lemma ingredient_cooccurrence_wf (g : RecipeGraph) :
  counts_wf (ingredient_cooccurrence g)
  /\ forall p c, In (p, c) (ingredient_cooccurrence g) ->
                 String.ltb (snd p) (fst p) = false.
Proof.
  unfold ingredient_cooccurrence.
  generalize (find_nodes_by_type DISH g) as dishes.
  assert (forall dishes counts,
            counts_wf counts ->
            (forall p c, In (p, c) counts -> String.ltb (snd p) (fst p) = false) ->
            let r :=
              fold_left
                (fun counts dish =>
                   fold_left (fun counts p => incr_pair p counts)
                             (name_pairs
                                (map node_id
                                   (get_neighbors (node_id dish) (Some CONTAINS) g)))
                             counts)
                dishes counts in
            counts_wf r
            /\ forall p c, In (p, c) r -> String.ltb (snd p) (fst p) = false)
    as Hgen.
  { induction dishes as [|d dishes IH]; intros counts W O; cbn [fold_left];
      [split; assumption|].
    destruct (pair_counts_step
                (name_pairs
                   (map node_id (get_neighbors (node_id d) (Some CONTAINS) g)))
                counts (name_pairs_ordered _) W O) as [W' O'].
    now apply IH. }
  intros dishes. apply Hgen; [apply counts_wf_nil | intros p c []].
Qed.

Lemma fold_left_pointwise {A B} (f f' : A -> B -> A) (l : list B) (a : A) :
  (forall x y, f x y = f' x y) -> fold_left f l a = fold_left f' l a.
Proof.
  intros Hf. revert a. induction l as [|y l IH]; intros a; cbn [fold_left];
    [reflexivity|].
  now rewrite Hf, IH.
Qed.

Lemma ingredient_cooccurrence_frame (g h : RecipeGraph) :
  nodes h = nodes g ->
  (forall id, get_neighbors id (Some CONTAINS) h
              = get_neighbors id (Some CONTAINS) g) ->
  ingredient_cooccurrence h = ingredient_cooccurrence g.
Proof.
  intros Hn Hnb. unfold ingredient_cooccurrence, find_nodes_by_type.
  rewrite Hn. apply fold_left_pointwise. intros counts dish. now rewrite Hnb.
Qed.

Lemma add_pairings_spec (g : RecipeGraph)
  (all counts : dict (string * string) Z) (h : RecipeGraph) :
  (forall p c, In (p, c) counts ->
               In (p, c) all /\ String.ltb (snd p) (fst p) = false) ->
  extends_with PAIRS_WITH (pairing_edge_of all) g h ->
  extends_with PAIRS_WITH (pairing_edge_of all) g (add_pairings counts h)
  /\ incl (edges h) (edges (add_pairings counts h))
  /\ forall a b c, In ((a, b), c) counts -> (2 <= c)%Z ->
       has_edge a b PAIRS_WITH (add_pairings counts h).
Proof.
  unfold add_pairings. revert h.
  induction counts as [|[[a b] c] counts IH]; intros h Hin Hx; cbn [fold_left].
  - split; [assumption|]. split; [apply incl_refl | intros a b c []].
  - set (e := mkEdge a b PAIRS_WITH (inject_Z c) []).
    set (h1 := if (1 <? c)%Z then add_edge e h else h).
    destruct (Hin (a, b) c (or_introl eq_refl)) as [Hall Hord].
    cbn [fst snd] in Hord.
    assert (extends_with PAIRS_WITH (pairing_edge_of all) g h1) as Hx1.
    { unfold h1. destruct (Z.ltb_spec 1 c); [|assumption].
      apply extends_add_edge; [reflexivity | | assumption].
      exists a, b, c. split; [assumption|]. split; [lia|]. now split. }
    assert (incl (edges h) (edges h1)) as Hi1.
    { unfold h1. destruct (1 <? c)%Z; [apply incl_edges_add_edge | apply incl_refl]. }
    destruct (IH h1 (fun p c' Hp => Hin p c' (or_intror Hp)) Hx1)
      as (Hx' & Hi' & Hc').
    split; [exact Hx'|]. split; [eapply incl_tran; eauto|].
    intros a' b' c' [[= <- <- <-]|Hp] Hc; [|now apply (Hc' a' b' c')].
    apply (has_edge_incl _ _ _ h1); [assumption|].
    unfold h1. destruct (Z.ltb_spec 1 c); [|lia].
    apply (has_edge_added e h).
Qed.

Lemma add_pairings_fixed (counts : dict (string * string) Z) (h : RecipeGraph) :
  (forall a b c, In ((a, b), c) counts -> (2 <= c)%Z ->
     has_edge a b PAIRS_WITH h) ->
  add_pairings counts h = h.
Proof.
  unfold add_pairings.
  induction counts as [|[[a b] c] counts IH]; intros Hc; cbn [fold_left];
    [reflexivity|].
  destruct (Z.ltb_spec 1 c).
  - rewrite add_edge_has_edge.
    + apply IH. intros a' b' c' Hp. apply Hc. now right.
    + apply (Hc a b c); [now left | lia].
  - apply IH. intros a' b' c' Hp. apply Hc. now right.
Qed.

(** X30: [_build_ingredient_pairings] only calls [add_edge]: it keeps
    the nodes and the edges that were there and leaves the neighbours
    and edges of every other type as they were; every edge it adds is a
    [PAIRS_WITH] edge between the two ids of a counted pair, in ascending
    order, with a count of at least 2 as weight; for every pair counted
    at least twice the resulting graph has a [PAIRS_WITH] edge; no pair
    is counted under two keys; and running it again changes nothing. *)
Theorem build_ingredient_pairings_result (g : RecipeGraph) :
  let counts := ingredient_cooccurrence g in
  let g' := _build_ingredient_pairings g in
  extends_with PAIRS_WITH (pairing_edge_of counts) g g'
  /\ (forall a b c,
        In ((a, b), c) counts -> (2 <= c)%Z -> has_edge a b PAIRS_WITH g')
  /\ NoDup (Dict.keys counts)
  /\ _build_ingredient_pairings g' = g'.
Proof.
  intros counts g'.
  destruct (ingredient_cooccurrence_wf g) as [[ND _] Hord].
  assert (extends_with PAIRS_WITH (pairing_edge_of counts) g g'
          /\ incl (edges g) (edges g')
          /\ forall a b c, In ((a, b), c) counts -> (2 <= c)%Z ->
               has_edge a b PAIRS_WITH g') as (Hx & _ & Hc).
  { apply (add_pairings_spec g counts counts g); [|apply extends_refl].
    intros p c Hp. split; [assumption | eapply Hord; eauto]. }
  split; [exact Hx|]. split; [exact Hc|]. split; [exact ND|].
  unfold _build_ingredient_pairings at 1.
  rewrite (ingredient_cooccurrence_frame g g').
  - now apply add_pairings_fixed.
  - apply (ext_nodes _ _ _ _ Hx).
  - intros id. apply (ext_neighbors _ _ _ _ Hx). discriminate.
Qed.

(** ** The derived relations on the kitchen graph *)

Example kitchen_pairings :
  map (fun e => (source_id e, target_id e, weight e))
      (get_edges "ingredient_egg" None (Some PAIRS_WITH)
                 (_build_ingredient_pairings kitchen))
  = [("ingredient_egg", "ingredient_tomato", 2%Q)].
Proof. vm_compute. reflexivity. Qed.

Example kitchen_similar_dishes :
  map (fun e => (target_id e, weight e))
      (get_edges "dish_D1" None (Some SIMILAR_TO) (_build_similar_dishes kitchen))
  = [("dish_D2", (2 # 3)%Q); ("dish_D3", (1 # 3)%Q)].
Proof. vm_compute. reflexivity. Qed.

Example kitchen_graph_queries :
  map name (get_ingredient_pairs "tomato" kitchen) = ["egg"; "onion"]
  /\ map name (get_dishes_by_ingredients ["onion"; "egg"] kitchen)
     = ["D2"; "D3"; "D1"]
  /\ get_cooking_methods_for_dish "D1" kitchen = [].
Proof. vm_compute. repeat split; reflexivity. Qed.

Lemma add_edge_other_type_witness :
  edge_type (similar "D1" "D2" (2 # 3)) <> CONTAINS
  /\ get_neighbors "dish_D1" (Some CONTAINS)
                   (add_edge (similar "D1" "D2" (2 # 3)) kitchen)
     = get_neighbors "dish_D1" (Some CONTAINS) kitchen.
Proof.
  assert (edge_type (similar "D1" "D2" (2 # 3)) <> CONTAINS) as N
    by (simpl; discriminate).
  split; [exact N|].
  destruct (add_edge_other_type kitchen (similar "D1" "D2" (2 # 3)) CONTAINS N)
    as (_ & H & _).
  apply H.
Defined.
